(** * Living-scroll: the rehydration engine and its choice helpers

    A shallow embedding of
      - [modules/character_sheet/model/schema.py]   (the Decision Record),
      - [modules/compendium/service.py]             (the rule-dataset accessor),
      - [modules/character_sheet/services/rules_engine.py] ([RulesEngine.hydrate]),
      - [modules/character_sheet/ui/builder/tabs/leveling.py] (candidate lists),
    followed by the properties of the design document that concern them.

    Python strings are modelled as Rocq strings of ASCII code points, Python
    [int]s as [Z], a [dict] that is only looked up as a [gmap], and a [dict]
    that is iterated ([feature_choices], [base_stats]) as the list of its
    items in insertion order. *)

From Stdlib Require Import ZArith String Ascii List Sorted Permutation.
From stdpp Require Import gmap strings list pretty.

Open Scope Z_scope.
Open Scope string_scope.
Open Scope list_scope.

(** ** Strings as Python uses them *)

Module PyStr.

(** [c.lower()] on one ASCII code point. *)
Definition lower_ascii (c : ascii) : ascii :=
  let n := nat_of_ascii c in
  if (Nat.leb 65 n && Nat.leb n 90)%bool then ascii_of_nat (n + 32) else c.

(** [s.lower()] *)
Fixpoint lower (s : string) : string :=
  match s with
  | EmptyString => EmptyString
  | String c s' => String (lower_ascii c) (lower s')
  end.

(** The ASCII code points for which [str.isspace()] holds. *)
Definition is_space (c : ascii) : bool :=
  let n := nat_of_ascii c in
  ((Nat.leb 9 n && Nat.leb n 13) || (Nat.leb 28 n && Nat.leb n 32))%bool.

(** The character class [[a-z0-9]] of the regular expression in [_key]. *)
Definition is_key_char (c : ascii) : bool :=
  let n := nat_of_ascii c in
  ((Nat.leb 97 n && Nat.leb n 122) || (Nat.leb 48 n && Nat.leb n 57))%bool.

Fixpoint lstrip_by (p : ascii -> bool) (l : list ascii) : list ascii :=
  match l with
  | c :: l' => if p c then lstrip_by p l' else l
  | [] => []
  end.

Definition strip_by (p : ascii -> bool) (l : list ascii) : list ascii :=
  rev (lstrip_by p (rev (lstrip_by p l))).

(** [s.strip()] *)
Definition strip (s : string) : string :=
  string_of_list_ascii (strip_by is_space (list_ascii_of_string s)).

(** [s.strip(c)] for a one-character argument. *)
Definition strip_char (c : ascii) (s : string) : string :=
  string_of_list_ascii (strip_by (Ascii.eqb c) (list_ascii_of_string s)).

(** [re.sub(r"[^a-z0-9]+", "_", s)]: every maximal run of characters
    outside the class becomes one underscore.  [in_run] tells whether the
    previous character already belonged to the run being replaced. *)
Fixpoint sub_runs (in_run : bool) (l : list ascii) : list ascii :=
  match l with
  | [] => []
  | c :: l' =>
      if is_key_char c then c :: sub_runs false l'
      else if in_run then sub_runs true l'
      else "_"%char :: sub_runs true l'
  end.

Definition re_sub_non_key (s : string) : string :=
  string_of_list_ascii (sub_runs false (list_ascii_of_string s)).

(** [sub in s] for strings. *)
Fixpoint contains (sub s : string) : bool :=
  if String.prefix sub s then true
  else match s with
       | EmptyString => false
       | String _ s' => contains sub s'
       end.

(** Truthiness of a string: [bool(s)]. *)
Definition truthy (s : string) : bool :=
  match s with EmptyString => false | _ => true end.

End PyStr.

(** ** [modules/compendium/service.py] *)

(** [_key]: the normalised identifier under which records are indexed. *)
Definition _key (name : string) : string :=
  PyStr.strip_char "_"%char (PyStr.re_sub_non_key (PyStr.lower (PyStr.strip name))).

(** Rule-dataset records are nested mappings read with [.get(key, default)];
    a table of proficiencies is modelled with one field per key the engine
    and the builder read, an absent key being the default of its [.get]. *)
Record ProfTable := {
  pt_skills : list string;
  pt_tools : list string;
  pt_armor : list string;
  pt_weapons : list string;
  pt_skills_choose : Z;
  pt_skill_list : list string
}.

Definition ProfTable_empty : ProfTable :=
  {| pt_skills := []; pt_tools := []; pt_armor := []; pt_weapons := [];
     pt_skills_choose := 0; pt_skill_list := [] |}.

(** A class record: [name], [proficiencies], [saves] and the optional
    [multiclassing.proficiencies] table; [None] stands for a table that is
    absent or empty, which is what [if mc_profs:] tests. *)
Record ClassRecord := {
  cr_name : string;
  cr_proficiencies : ProfTable;
  cr_saves : list string;
  cr_multiclassing_proficiencies : option ProfTable
}.

Record BackgroundRecord := {
  br_name : string;
  br_proficiencies : ProfTable
}.

(** [_index_by_name]: later records replace earlier ones with the same key. *)
Definition _index_by_name {R : Type} (name_of : R -> string) (records : list R)
  : gmap string R :=
  foldl (fun index record => <[_key (name_of record) := record]> index) ∅ records.

(** [Compendium]: the two indexes the engine queries. *)
Record Compendium := {
  _classes : gmap string ClassRecord;
  _backgrounds : gmap string BackgroundRecord
}.

(** [Compendium.__init__], from the payload's [classes] and [backgrounds]. *)
Definition Compendium_init (classes : list ClassRecord)
    (backgrounds : list BackgroundRecord) : Compendium :=
  {| _classes := _index_by_name cr_name classes;
     _backgrounds := _index_by_name br_name backgrounds |}.

Definition class_record (self : Compendium) (name : string) : option ClassRecord :=
  _classes self !! _key name.

Definition background_record (self : Compendium) (name : string)
  : option BackgroundRecord :=
  _backgrounds self !! _key name.

(** ** [modules/character_sheet/model/schema.py] *)

(** Primitive values of the persisted tree. *)
Inductive Prim :=
| PStr (s : string)
| PInt (n : Z)
| PBool (b : bool).

Module Schema.

Record IdentityData := {
  name : string;
  ancestry : string;
  ancestry_subtype : string;
  background : string;
  alignment : string;
  player_name : string;
  portrait_path : string;
  xp : Z;
  level_cap : Z
}.

Record ClassLevelData := {
  class_name : string;
  level : Z;
  subclass : option string;
  feature_choices : list (string * string)
}.

Record CharacterData := {
  version : string;
  id : string;
  identity : IdentityData;
  base_stats : list (string * Z);
  classes : list ClassLevelData;
  background_choices : list (string * string);
  equipment : list (list (string * Prim));
  notes : list (string * string)
}.

Definition IdentityData_default : IdentityData :=
  {| name := ""; ancestry := ""; ancestry_subtype := ""; background := "";
     alignment := ""; player_name := ""; portrait_path := ""; xp := 0;
     level_cap := 20 |}.

(** [CharacterData()] with the identifier the caller's [uuid4] produced. *)
Definition CharacterData_default (uuid : string) : CharacterData :=
  {| version := "1.0"; id := uuid; identity := IdentityData_default;
     base_stats := [("STR", 10); ("DEX", 10); ("CON", 10);
                    ("INT", 10); ("WIS", 10); ("CHA", 10)];
     classes := []; background_choices := []; equipment := []; notes := [] |}.

Definition with_classes (d : CharacterData) (cs : list ClassLevelData)
  : CharacterData :=
  {| version := version d; id := id d; identity := identity d;
     base_stats := base_stats d; classes := cs;
     background_choices := background_choices d; equipment := equipment d;
     notes := notes d |}.

Definition with_equipment (d : CharacterData) (eq : list (list (string * Prim)))
  : CharacterData :=
  {| version := version d; id := id d; identity := identity d;
     base_stats := base_stats d; classes := classes d;
     background_choices := background_choices d; equipment := eq;
     notes := notes d |}.

Definition with_background (d : CharacterData) (bg : string) : CharacterData :=
  {| version := version d; id := id d;
     identity :=
       {| name := name (identity d); ancestry := ancestry (identity d);
          ancestry_subtype := ancestry_subtype (identity d); background := bg;
          alignment := alignment (identity d);
          player_name := player_name (identity d);
          portrait_path := portrait_path (identity d); xp := xp (identity d);
          level_cap := level_cap (identity d) |};
     base_stats := base_stats d; classes := classes d;
     background_choices := background_choices d; equipment := equipment d;
     notes := notes d |}.

End Schema.

(** ** The Computed Sheet *)

Module Model.

(** Modelled from the spec: [modules/character_sheet/model/model.py] is not
    part of the sources at hand.  An ability block holds the base score and
    the save-proficiency flag. *)
Record AbilityBlock := {
  score : Z;
  save_proficient : bool
}.

(** Modelled from the spec: one consolidated class-progression entry per
    distinct class, with its aggregate level and current subclass; the engine
    constructs it from [name], [level] and [subclass]. *)
Record ClassProgression := {
  name : string;
  level : Z;
  subclass : option string
}.

(** Modelled from the spec: the identity mirror and the consolidated class
    list; the field names are those [_apply_identity] assigns. *)
Record CharacterIdentity := {
  i_name : string;
  ancestry : string;
  ancestry_subtype : string;
  background : string;
  alignment : string;
  player : string;
  portrait_path : string;
  experience : Z;
  level_cap : Z;
  classes : list ClassProgression
}.

(** Modelled from the spec: the skill map (0 none, 1 proficient, 2 expertise;
    an absent key reads as 0) and the armor, weapon and tool lists. *)
Record ProficiencySet := {
  skills : gmap string Z;
  armor : list string;
  weapons : list string;
  tools : list string
}.

(** An inventory item of the sheet, with the fields the dashboard sets
    (the floating-point weight is left out). *)
Record EquipmentItem := {
  item_name : string;
  quantity : Z;
  attuned : bool;
  equipped : bool;
  compendium_id : string;
  rarity : string
}.

Record CharacterSheet := {
  identity : CharacterIdentity;
  abilities : gmap string AbilityBlock;
  proficiencies : ProficiencySet;
  equipment : list EquipmentItem
}.

(** Modelled from the spec: [ProficiencySet()] is empty. *)
Definition ProficiencySet_new : ProficiencySet :=
  {| skills := ∅; armor := []; weapons := []; tools := [] |}.

Definition CharacterIdentity_new : CharacterIdentity :=
  {| i_name := ""; ancestry := ""; ancestry_subtype := ""; background := "";
     alignment := ""; player := ""; portrait_path := ""; experience := 0;
     level_cap := 20; classes := [] |}.

Definition AbilityBlock_new : AbilityBlock :=
  {| score := 10; save_proficient := false |}.

(** The six ability codes. *)
Definition ability_codes : list string :=
  ["STR"; "DEX"; "CON"; "INT"; "WIS"; "CHA"].

(** Modelled from the spec: [CharacterSheet()] has the six abilities at
    score 10, an empty proficiency set, an empty consolidated class list and
    no equipment. *)
Definition CharacterSheet_new : CharacterSheet :=
  {| identity := CharacterIdentity_new;
     abilities :=
       list_to_map (map (fun code => (code, AbilityBlock_new)) ability_codes);
     proficiencies := ProficiencySet_new;
     equipment := [] |}.

#[global] Instance ClassProgression_eq_dec : EqDecision ClassProgression.
Proof. solve_decision. Defined.

End Model.

(** ** [modules/character_sheet/services/rules_engine.py] *)

Module RulesEngine.

(** The objects a call of [hydrate] can reach: the engine's compendium, the
    [CharacterData] argument and the sheet under construction.  Every method
    is a transformer of these three, so that an assignment to any of them can
    be written down. *)
Record World := {
  compendium : Compendium;
  data : Schema.CharacterData;
  sheet : Model.CharacterSheet
}.

Definition with_sheet (f : Model.CharacterSheet -> Model.CharacterSheet)
    (w : World) : World :=
  {| compendium := compendium w; data := data w; sheet := f (sheet w) |}.

Definition set_identity (i : Model.CharacterIdentity) (s : Model.CharacterSheet)
  : Model.CharacterSheet :=
  {| Model.identity := i; Model.abilities := Model.abilities s;
     Model.proficiencies := Model.proficiencies s;
     Model.equipment := Model.equipment s |}.

Definition set_abilities (a : gmap string Model.AbilityBlock)
    (s : Model.CharacterSheet) : Model.CharacterSheet :=
  {| Model.identity := Model.identity s; Model.abilities := a;
     Model.proficiencies := Model.proficiencies s;
     Model.equipment := Model.equipment s |}.

Definition set_proficiencies (p : Model.ProficiencySet)
    (s : Model.CharacterSheet) : Model.CharacterSheet :=
  {| Model.identity := Model.identity s; Model.abilities := Model.abilities s;
     Model.proficiencies := p; Model.equipment := Model.equipment s |}.

Definition set_classes (cs : list Model.ClassProgression)
    (s : Model.CharacterSheet) : Model.CharacterSheet :=
  let i := Model.identity s in
  set_identity
    {| Model.i_name := Model.i_name i; Model.ancestry := Model.ancestry i;
       Model.ancestry_subtype := Model.ancestry_subtype i;
       Model.background := Model.background i;
       Model.alignment := Model.alignment i; Model.player := Model.player i;
       Model.portrait_path := Model.portrait_path i;
       Model.experience := Model.experience i;
       Model.level_cap := Model.level_cap i; Model.classes := cs |} s.

Definition set_skills (m : gmap string Z) (s : Model.CharacterSheet)
  : Model.CharacterSheet :=
  let p := Model.proficiencies s in
  set_proficiencies
    {| Model.skills := m; Model.armor := Model.armor p;
       Model.weapons := Model.weapons p; Model.tools := Model.tools p |} s.

Definition set_tools (l : list string) (s : Model.CharacterSheet)
  : Model.CharacterSheet :=
  let p := Model.proficiencies s in
  set_proficiencies
    {| Model.skills := Model.skills p; Model.armor := Model.armor p;
       Model.weapons := Model.weapons p; Model.tools := l |} s.

Definition set_armor (l : list string) (s : Model.CharacterSheet)
  : Model.CharacterSheet :=
  let p := Model.proficiencies s in
  set_proficiencies
    {| Model.skills := Model.skills p; Model.armor := l;
       Model.weapons := Model.weapons p; Model.tools := Model.tools p |} s.

Definition set_weapons (l : list string) (s : Model.CharacterSheet)
  : Model.CharacterSheet :=
  let p := Model.proficiencies s in
  set_proficiencies
    {| Model.skills := Model.skills p; Model.armor := Model.armor p;
       Model.weapons := l; Model.tools := Model.tools p |} s.

(** Shorthands for the attribute paths the engine reads. *)
Definition sheet_classes (w : World) : list Model.ClassProgression :=
  Model.classes (Model.identity (sheet w)).

Definition sheet_skills (w : World) : gmap string Z :=
  Model.skills (Model.proficiencies (sheet w)).

Definition sheet_tools (w : World) : list string :=
  Model.tools (Model.proficiencies (sheet w)).

Definition sheet_armor (w : World) : list string :=
  Model.armor (Model.proficiencies (sheet w)).

Definition sheet_weapons (w : World) : list string :=
  Model.weapons (Model.proficiencies (sheet w)).

(** [_apply_identity] *)
Definition _apply_identity (w : World) : World :=
  let i_src := Schema.identity (data w) in
  with_sheet
    (fun s =>
       set_identity
         {| Model.i_name := Schema.name i_src;
            Model.ancestry := Schema.ancestry i_src;
            Model.ancestry_subtype := Schema.ancestry_subtype i_src;
            Model.background := Schema.background i_src;
            Model.alignment := Schema.alignment i_src;
            Model.player := Schema.player_name i_src;
            Model.experience := Schema.xp i_src;
            Model.level_cap := Schema.level_cap i_src;
            Model.portrait_path := Schema.portrait_path i_src;
            Model.classes := Model.classes (Model.identity s) |} s)
    w.

(** One iteration of the loop of [_apply_base_stats]. *)
Definition base_stat_step (w : World) (item : string * Z) : World :=
  let '(ability, score) := item in
  match Model.abilities (sheet w) !! ability with
  | Some block =>
      with_sheet
        (fun s =>
           set_abilities
             (<[ability := {| Model.score := score;
                              Model.save_proficient := Model.save_proficient block |}]>
                (Model.abilities s)) s)
        w
  | None => w
  end.

(** [_apply_base_stats] *)
Definition _apply_base_stats (w : World) : World :=
  foldl base_stat_step w (Schema.base_stats (data w)).

Definition background_skill_step (w : World) (skill : string) : World :=
  with_sheet (fun s => set_skills (<[skill := 1]> (Model.skills (Model.proficiencies s))) s) w.

Definition background_tool_step (w : World) (tool : string) : World :=
  if bool_decide (tool ∈ sheet_tools w) then w
  else with_sheet (fun s => set_tools (Model.tools (Model.proficiencies s) ++ [tool]) s) w.

(** [_apply_background] *)
Definition _apply_background (w : World) : World :=
  let bg_id := Schema.background (Schema.identity (data w)) in
  if negb (PyStr.truthy bg_id) then w
  else
    match background_record (compendium w) bg_id with
    | None => w
    | Some background =>
        let profs := br_proficiencies background in
        let w := foldl background_skill_step w (pt_skills profs) in
        foldl background_tool_step w (pt_tools profs)
    end.

(** Truthiness of an [Optional[str]]. *)
Definition opt_truthy (o : option string) : bool :=
  match o with Some s => PyStr.truthy s | None => false end.

(** The loop over [saves] in the primary branch. *)
Definition save_step (w : World) (save : string) : World :=
  match Model.abilities (sheet w) !! save with
  | Some block =>
      with_sheet
        (fun s =>
           set_abilities
             (<[save := {| Model.score := Model.score block;
                           Model.save_proficient := true |}]>
                (Model.abilities s)) s)
        w
  | None => w
  end.

(** Step 2 of the loop body, taken when the class is new: the base
    proficiencies of the class.  [entry] is the consolidated entry just
    appended; [==] on it is the field-wise equality of a dataclass. *)
Definition apply_class_base (w : World) (cls_data : Schema.ClassLevelData)
    (entry : Model.ClassProgression) : World :=
  let is_primary :=
    match sheet_classes w with
    | first :: _ => bool_decide (first = entry)
    | [] => false
    end in
  match class_record (compendium w) (PyStr.lower (Schema.class_name cls_data)) with
  | None => w
  | Some class_record =>
      if is_primary then
        let c_profs := cr_proficiencies class_record in
        let w := with_sheet (fun s => set_armor (Model.armor (Model.proficiencies s) ++ pt_armor c_profs) s) w in
        let w := with_sheet (fun s => set_weapons (Model.weapons (Model.proficiencies s) ++ pt_weapons c_profs) s) w in
        foldl save_step w (cr_saves class_record)
      else
        match cr_multiclassing_proficiencies class_record with
        | Some mc_profs =>
            let w := with_sheet (fun s => set_armor (Model.armor (Model.proficiencies s) ++ pt_armor mc_profs) s) w in
            with_sheet (fun s => set_weapons (Model.weapons (Model.proficiencies s) ++ pt_weapons mc_profs) s) w
        | None => w
        end
  end.

(** Step 3 of the loop body: one item of [cls_data.feature_choices]. *)
Definition feature_choice_step (w : World) (item : string * string) : World :=
  let '(feat_key, selection) := item in
  if (PyStr.contains "_skill_" feat_key && PyStr.truthy selection)%bool then
    if PyStr.contains "_expertise" feat_key then
      with_sheet (fun s => set_skills (<[selection := 2]> (Model.skills (Model.proficiencies s))) s) w
    else if Z.ltb (default 0 (sheet_skills w !! selection)) 2 then
      with_sheet (fun s => set_skills (<[selection := 1]> (Model.skills (Model.proficiencies s))) s) w
    else w
  else if (PyStr.contains "_asi_" feat_key && PyStr.truthy selection)%bool then w
  else w.

(** Step 1 of the loop body: find or create the consolidated entry.  The
    result is the world, whether the class is new, and the entry. *)
Definition consolidate_step (w : World) (cls_data : Schema.ClassLevelData)
  : World * bool * Model.ClassProgression :=
  match list_find (fun c => Model.name c = Schema.class_name cls_data) (sheet_classes w) with
  | Some (i, existing) =>
      let entry :=
        {| Model.name := Model.name existing;
           Model.level := Z.max (Model.level existing) (Schema.level cls_data);
           Model.subclass :=
             if opt_truthy (Schema.subclass cls_data) then Schema.subclass cls_data
             else Model.subclass existing |} in
      (with_sheet (fun s => set_classes (<[i := entry]> (Model.classes (Model.identity s))) s) w,
       false, entry)
  | None =>
      let entry :=
        {| Model.name := Schema.class_name cls_data;
           Model.level := Schema.level cls_data;
           Model.subclass := Schema.subclass cls_data |} in
      (with_sheet (fun s => set_classes (Model.classes (Model.identity s) ++ [entry]) s) w,
       true, entry)
  end.

(** The body of the loop of [_apply_classes]. *)
Definition class_step (w : World) (cls_data : Schema.ClassLevelData) : World :=
  let '(w, is_new_class, entry) := consolidate_step w cls_data in
  let w := if is_new_class then apply_class_base w cls_data entry else w in
  foldl feature_choice_step w (Schema.feature_choices cls_data).

(** [_apply_classes] *)
Definition _apply_classes (w : World) : World :=
  foldl class_step w (Schema.classes (data w)).

(** [hydrate]: the world in which the call returns. *)
Definition hydrate_world (self : Compendium) (d : Schema.CharacterData) : World :=
  let w := {| compendium := self; data := d; sheet := Model.CharacterSheet_new |} in
  let w := _apply_identity w in
  let w := _apply_base_stats w in
  let w := with_sheet (set_proficiencies Model.ProficiencySet_new) w in
  let w := _apply_background w in
  let w := _apply_classes w in
  w.

(** [hydrate]: the sheet it returns. *)
Definition hydrate (self : Compendium) (d : Schema.CharacterData)
  : Model.CharacterSheet :=
  sheet (hydrate_world self d).

End RulesEngine.

(** ** [modules/character_sheet/ui/builder/tabs/leveling.py] *)

Module Leveling.

(** An entry of a dropdown, with the fields the tab constructs it from. *)
Record FeatureOptionChoice := {
  label : string;
  value : string;
  enabled : bool
}.

#[global] Instance FeatureOptionChoice_eq_dec : EqDecision FeatureOptionChoice.
Proof. solve_decision. Defined.

Definition choice_of (s : string) : FeatureOptionChoice :=
  {| label := s; value := s; enabled := true |}.

(** Modelled from the spec: [get_available_skill_proficiencies] lives in
    [selection_helpers], which is not part of the sources at hand.  It offers
    every skill that is not yet at proficiency level 1 or more on the sheet
    and is not in the pending exclusion set.  [ALL_SKILLS] is the constant of
    the same module. *)
Definition get_available_skill_proficiencies (ALL_SKILLS : list string)
    (sheet : Model.CharacterSheet) (pending : list string)
  : list FeatureOptionChoice :=
  map choice_of
    (filter
       (fun skill =>
          default 0 (Model.skills (Model.proficiencies sheet) !! skill) < 1
          ∧ skill ∉ pending)
       ALL_SKILLS).

(** [current_choices.get(key, "")] on the items of the mapping. *)
Fixpoint choices_get (items : list (string * string)) (key : string) : string :=
  match items with
  | [] => ""
  | (k, v) :: rest => if String.eqb k key then v else choices_get rest key
  end.

(** [list.sort(key=lambda x: x.label)]: the stable sort, written as the
    insertion of each element in front of the sorted rest; an element moves
    behind those whose label is strictly smaller. *)
Fixpoint insert_by_label (x : FeatureOptionChoice) (l : list FeatureOptionChoice)
  : list FeatureOptionChoice :=
  match l with
  | [] => [x]
  | y :: l' =>
      if String.ltb (label y) (label x) then y :: insert_by_label x l'
      else x :: l
  end.

Definition sort_by_label (l : list FeatureOptionChoice) : list FeatureOptionChoice :=
  foldr insert_by_label [] l.

(** The key of the [i]-th skill dropdown of a class ([i] counts from 0). *)
Definition skill_slot_key (class_name : string) (i : nat) : string :=
  PyStr.lower class_name +:+ "_skill_" +:+ pretty (i + 1)%nat.

(** The body of the loop [for i in range(skills_choose)] of
    [refresh_from_sheet], up to the list handed to [add_dynamic_option]. *)
Definition skill_slot_options (available_all : list FeatureOptionChoice)
    (skill_list : list string) (current_val : string)
  : list FeatureOptionChoice :=
  let available_profs := map value available_all in
  let dropdown_options :=
    if (PyStr.truthy current_val && negb (bool_decide (current_val ∈ available_profs)))%bool
    then
      if bool_decide (current_val ∈ skill_list)
      then available_all ++ [choice_of current_val]
      else available_all
    else available_all in
  let skill_list_lower := map PyStr.lower skill_list in
  let final_choices :=
    filter (fun opt => PyStr.lower (value opt) ∈ skill_list_lower) dropdown_options in
  sort_by_label final_choices.

(** The skill dropdowns [refresh_from_sheet] adds to the first level of the
    primary class: for each, its key, its current value and its options. *)
Definition primary_skill_dropdowns (available_all : list FeatureOptionChoice)
    (class_name : string) (class_record : ClassRecord)
    (current_choices : list (string * string))
  : list (string * string * list FeatureOptionChoice) :=
  let profs := cr_proficiencies class_record in
  let skills_choose := pt_skills_choose profs in
  let skill_list := pt_skill_list profs in
  if (Z.ltb 0 skills_choose && negb (bool_decide (skill_list = [])))%bool then
    map
      (fun i =>
         let key := skill_slot_key class_name i in
         let current_val := choices_get current_choices key in
         (key, current_val, skill_slot_options available_all skill_list current_val))
      (seq 0 (Z.to_nat skills_choose))
  else [].

(** The skill-proficiency part of [_add_feat_options_to_entry], up to the
    list [options]; [skills] is the feat record's [proficiency.skills]. *)
Definition feat_skill_options (available_skills : list FeatureOptionChoice)
    (skills : list string) (current_skill : string)
  : list FeatureOptionChoice :=
  let available_profs := map value available_skills in
  let any := (bool_decide (skills = ["any"]) || bool_decide ("any" ∈ skills))%bool in
  let dropdown_options :=
    if (PyStr.truthy current_skill && negb (bool_decide (current_skill ∈ available_profs)))%bool
    then
      if (any || bool_decide (current_skill ∈ skills))%bool
      then available_skills ++ [choice_of current_skill]
      else available_skills
    else available_skills in
  if any then dropdown_options
  else filter (fun opt => value opt ∈ skills) dropdown_options.

End Leveling.

(** ** Running the model *)

Module Examples.

Definition rogue : ClassRecord :=
  {| cr_name := "Rogue";
     cr_proficiencies :=
       {| pt_skills := []; pt_tools := ["Thieves' Tools"];
          pt_armor := ["Light armor"];
          pt_weapons := ["Simple weapons"; "Martial finesse weapons"];
          pt_skills_choose := 2;
          pt_skill_list := ["Acrobatics"; "Deception"; "Stealth"] |};
     cr_saves := ["DEX"; "INT"];
     cr_multiclassing_proficiencies :=
       Some {| pt_skills := []; pt_tools := ["Thieves' Tools"];
               pt_armor := ["Light armor"]; pt_weapons := [];
               pt_skills_choose := 1;
               pt_skill_list := ["Acrobatics"; "Deception"; "Stealth"] |} |}.

Definition wizard : ClassRecord :=
  {| cr_name := "Wizard";
     cr_proficiencies :=
       {| pt_skills := []; pt_tools := []; pt_armor := [];
          pt_weapons := ["Simple weapons"];
          pt_skills_choose := 2;
          pt_skill_list := ["Arcana"; "History"] |};
     cr_saves := ["INT"; "WIS"];
     cr_multiclassing_proficiencies := None |}.

Definition criminal : BackgroundRecord :=
  {| br_name := "Criminal";
     br_proficiencies :=
       {| pt_skills := ["Sleight of Hand"; "Stealth"];
          pt_tools := ["Thieves' Tools"; "Dice Set"; "Thieves' Tools"];
          pt_armor := []; pt_weapons := [];
          pt_skills_choose := 0; pt_skill_list := [] |} |}.

Definition rules : Compendium := Compendium_init [rogue; wizard] [criminal].

Definition blank : Schema.CharacterData := Schema.CharacterData_default "c0".

Definition entry (c : string) (l : Z) (fc : list (string * string))
  : Schema.ClassLevelData :=
  {| Schema.class_name := c; Schema.level := l; Schema.subclass := None;
     Schema.feature_choices := fc |}.

Definition skills_list : list string :=
  ["Acrobatics"; "Arcana"; "Deception"; "History"; "Sleight of Hand"; "Stealth"].

End Examples.


(** ** The design document in its own words

    The definitions of this module follow the text of the specification, not
    the code; the theorems below compare the two. *)

Module Spec.

(** "If found, raise its level to [max(existing, entry.level)] and overwrite
    subclass if the entry specifies one." *)
Definition raise (c : Model.ClassProgression) (e : Schema.ClassLevelData)
  : Model.ClassProgression :=
  {| Model.name := Model.name c;
     Model.level := Z.max (Model.level c) (Schema.level e);
     Model.subclass :=
       match Schema.subclass e with
       | Some key => if decide (key = "") then Model.subclass c else Some key
       | None => Model.subclass c
       end |}.

(** "If not found, append a new consolidated entry." *)
Definition introduce (e : Schema.ClassLevelData) : Model.ClassProgression :=
  {| Model.name := Schema.class_name e; Model.level := Schema.level e;
     Model.subclass := Schema.subclass e |}.

(** "Find or create a consolidated entry by class key (case-sensitive match
    on name as stored)." *)
Fixpoint merge_entry (acc : list Model.ClassProgression)
    (e : Schema.ClassLevelData) : list Model.ClassProgression :=
  match acc with
  | [] => [introduce e]
  | c :: rest =>
      if decide (Model.name c = Schema.class_name e) then raise c e :: rest
      else c :: merge_entry rest e
  end.

(** "Walk decision [classes] entries in sequence order." *)
Definition consolidated (l : list Schema.ClassLevelData)
  : list Model.ClassProgression :=
  foldl merge_entry [] l.

(** The entries that introduce a class: the first entry of each class key,
    in decision order.  [seen] are the keys introduced so far. *)
Fixpoint introductions (seen : list string) (l : list Schema.ClassLevelData)
  : list Schema.ClassLevelData :=
  match l with
  | [] => []
  | e :: l' =>
      if decide (Schema.class_name e ∈ seen) then introductions seen l'
      else e :: introductions (seen ++ [Schema.class_name e]) l'
  end.

(** "Primary class grants full proficiencies from the Rule Dataset class
    record": the list [proj] (armor or weapons) of its proficiency table. *)
Definition full_grant (proj : ProfTable -> list string) (rules : Compendium)
    (e : Schema.ClassLevelData) : list string :=
  match class_record rules (PyStr.lower (Schema.class_name e)) with
  | Some r => proj (cr_proficiencies r)
  | None => []
  end.

(** "Non-primary classes grant only the subset exposed under the class
    record's multiclass proficiency table, if present." *)
Definition multiclass_grant (proj : ProfTable -> list string)
    (rules : Compendium) (e : Schema.ClassLevelData) : list string :=
  match class_record rules (PyStr.lower (Schema.class_name e)) with
  | Some r =>
      match cr_multiclassing_proficiencies r with
      | Some table => proj table
      | None => []
      end
  | None => []
  end.

(** What the classes of a decision list grant in all: the class introduced
    first grants in full, every class introduced later its multiclass
    subset. *)
Definition class_grants (proj : ProfTable -> list string) (rules : Compendium)
    (l : list Schema.ClassLevelData) : list string :=
  match introductions [] l with
  | [] => []
  | primary :: later =>
      full_grant proj rules primary
      ++ concat (map (multiclass_grant proj rules) later)
  end.

(** "Ability-save-proficiency flags are set per the class's listed saving
    throws": those of the class whose entry comes first. *)
Definition primary_saves (rules : Compendium) (l : list Schema.ClassLevelData)
  : list string :=
  match l with
  | [] => []
  | primary :: _ =>
      match class_record rules (PyStr.lower (Schema.class_name primary)) with
      | Some r => cr_saves r
      | None => []
      end
  end.

(** "Candidate lists are presented sorted by display label,
    case-insensitive." *)
Definition sorted_case_insensitive (l : list Leveling.FeatureOptionChoice) : Prop :=
  Sorted
    (fun a b =>
       String.leb (PyStr.lower (Leveling.label a)) (PyStr.lower (Leveling.label b)) = true)
    l.

(** "The Computed Sheet carries the decision record's equipment list": item
    for item, whatever relation [R] says that a sheet item is the copy of a
    decision item. *)
Definition carries_equipment (R : list (string * Prim) -> Model.EquipmentItem -> Prop)
    (d : Schema.CharacterData) (s : Model.CharacterSheet) : Prop :=
  Forall2 R (Schema.equipment d) (Model.equipment s).

End Spec.

(** ** Views of the world used in the statements and proofs below *)

Module Views.
Import RulesEngine.

(** What a method of the engine may not touch: its two inputs. *)
Definition inputs (w : World) : Compendium * Schema.CharacterData :=
  (compendium w, data w).

(** Everything but the skill map. *)
Definition but_skills (w : World) :=
  (Model.identity (sheet w), Model.abilities (sheet w), sheet_armor w,
   sheet_weapons w, sheet_tools w, Model.equipment (sheet w)).

(** Everything but the tool list. *)
Definition but_tools (w : World) :=
  (Model.identity (sheet w), Model.abilities (sheet w), sheet_skills w,
   sheet_armor w, sheet_weapons w, Model.equipment (sheet w)).

(** Everything but the ability blocks. *)
Definition but_abilities (w : World) :=
  (Model.identity (sheet w), Model.proficiencies (sheet w),
   Model.equipment (sheet w)).

(** Everything but the identity. *)
Definition but_identity (w : World) :=
  (Model.abilities (sheet w), Model.proficiencies (sheet w),
   Model.equipment (sheet w)).

(** Everything but armor, weapons and ability blocks. *)
Definition but_class_base (w : World) :=
  (Model.identity (sheet w), sheet_skills w, sheet_tools w,
   Model.equipment (sheet w)).

(** The world in which [_apply_classes] starts. *)
Definition before_classes (self : Compendium) (d : Schema.CharacterData) : World :=
  _apply_background
    (with_sheet (set_proficiencies Model.ProficiencySet_new)
       (_apply_base_stats
          (_apply_identity
             {| compendium := self; data := d; sheet := Model.CharacterSheet_new |}))).

(** The class keys consolidated so far. *)
Definition seen (w : World) : list string := map Model.name (sheet_classes w).

(** What one decision entry adds to a list of the proficiency set. *)
Definition step_grant (proj : ProfTable -> list string) (rules : Compendium)
    (before : list string) (e : Schema.ClassLevelData) : list string :=
  if decide (Schema.class_name e ∈ before) then []
  else match before with
       | [] => Spec.full_grant proj rules e
       | _ => Spec.multiclass_grant proj rules e
       end.

(** The flag of ability [a] on the sheet of [w], if the sheet has [a]. *)
Definition flag (w : World) (a : string) : option bool :=
  Model.save_proficient <$> (Model.abilities (sheet w) !! a).

(** The world in which [_apply_background] starts. *)
Definition before_background (self : Compendium) (d : Schema.CharacterData) : World :=
  with_sheet (set_proficiencies Model.ProficiencySet_new)
    (_apply_base_stats
       (_apply_identity
          {| compendium := self; data := d; sheet := Model.CharacterSheet_new |})).

(** The order [list.sort] leaves the labels in: code point by code point. *)
Definition label_le (a b : Leveling.FeatureOptionChoice) : Prop :=
  String.leb (Leveling.label a) (Leveling.label b) = true.

End Views.

(** ** Reading a decision record *)

Module Reading.
Import RulesEngine.

(** The same world with another decision record in place of [data]. *)
Definition redata (d : Schema.CharacterData) (w : World) : World :=
  {| compendium := compendium w; data := d; sheet := sheet w |}.

(** [stats.get(a)] on the items of the mapping [base_stats]: the value of
    the last item with key [a]. *)
Fixpoint stat_lookup (a : string) (stats : list (string * Z)) : option Z :=
  match stats with
  | [] => None
  | (k, v) :: rest =>
      match stat_lookup a rest with
      | Some x => Some x
      | None => if decide (k = a) then Some v else None
      end
  end.

(** Some class entry of [d] holds the feature choice [key -> s], a skill
    choice with a value. *)
Definition skill_choice (d : Schema.CharacterData) (key s : string) : Prop :=
  exists e, e ∈ Schema.classes d /\ (key, s) ∈ Schema.feature_choices e
            /\ PyStr.contains "_skill_" key = true /\ s <> "".

(** Some skill choice of [d] gives expertise in [s]. *)
Definition expert (d : Schema.CharacterData) (s : string) : Prop :=
  exists key, skill_choice d key s /\ PyStr.contains "_expertise" key = true.

(** Some skill choice of [d] selects [s]. *)
Definition chosen (d : Schema.CharacterData) (s : string) : Prop :=
  exists key, skill_choice d key s.

(** The background of [d] resolves to a record that lists the skill [s]. *)
Definition background_skill (rules : Compendium) (d : Schema.CharacterData)
    (s : string) : Prop :=
  Schema.background (Schema.identity d) <> ""
  /\ exists record,
       background_record rules (Schema.background (Schema.identity d)) = Some record
       /\ s ∈ pt_skills (br_proficiencies record).

(** The level of [c] is the maximum of the levels of the entries of [l] of
    its class. *)
Definition level_is_max (l : list Schema.ClassLevelData) (c : Model.ClassProgression) : Prop :=
  (exists e, e ∈ l /\ Schema.class_name e = Model.name c
             /\ Schema.level e = Model.level c)
  /\ forall e, e ∈ l -> Schema.class_name e = Model.name c ->
               Schema.level e <= Model.level c.

(** Every level of the map is 1 or 2. *)
Definition in_range (m : gmap string Z) : Prop :=
  forall s v, m !! s = Some v -> v = 1 \/ v = 2.

(** The identity fields [_apply_identity] assigns. *)
Definition identity_fields (i : Model.CharacterIdentity) :=
  (Model.i_name i, Model.ancestry i, Model.ancestry_subtype i, Model.background i,
   Model.alignment i, Model.player i, Model.portrait_path i, Model.experience i,
   Model.level_cap i).

(** The base score of ability [a] on the sheet of [w], if the sheet has [a]. *)
Definition score_of (w : World) (a : string) : option Z :=
  Model.score <$> (Model.abilities (sheet w) !! a).

End Reading.

(** ** [leveling.py]: the tab's decision record and the handlers that edit it *)

Module LevelingTab.

(** The state of a [LevelingTab] that matters to its handlers: the decision
    record [self._data] (absent in legacy mode), the engine's compendium and
    the sheet last hydrated.  The tab is the one the builder dialog
    constructs, with an engine. *)
Record Tab := {
  _data : option Schema.CharacterData;
  _engine : Compendium;
  _sheet : Model.CharacterSheet
}.

(** The loop of [_find_data_index]: [i] is the index [enumerate] has
    reached, [count] the matching entries seen before it. *)
Fixpoint find_data_index_from (classes : list Schema.ClassLevelData)
    (class_name : string) (class_level : Z) (i count : Z) : Z :=
  match classes with
  | [] => -1
  | entry :: rest =>
      if String.eqb (Schema.class_name entry) class_name then
        let count := count + 1 in
        if Z.eqb count class_level then i
        else find_data_index_from rest class_name class_level (i + 1) count
      else find_data_index_from rest class_name class_level (i + 1) count
  end.

(** [_find_data_index] *)
Definition _find_data_index (self : Tab) (class_name : string) (class_level : Z) : Z :=
  match _data self with
  | None => -1
  | Some d => find_data_index_from (Schema.classes d) class_name class_level 0 0
  end.

(** [sum(1 for c in classes if c.class_name == class_name)] *)
Definition occurrences (class_name : string) (classes : list Schema.ClassLevelData) : Z :=
  Z.of_nat (length (filter (fun c => Schema.class_name c = class_name) classes)).

(** [_get_next_class_level] *)
Definition _get_next_class_level (self : Tab) (class_name : string) : Z :=
  match _data self with
  | Some d => occurrences class_name (Schema.classes d) + 1
  | None => 1
  end.

(** [self._sheet = self._engine.hydrate(self._data)] after the classes of
    the record were replaced by [classes]. *)
Definition rehydrated (self : Tab) (d : Schema.CharacterData)
    (classes : list Schema.ClassLevelData) : Tab :=
  let d' := Schema.with_classes d classes in
  {| _data := Some d'; _engine := _engine self;
     _sheet := RulesEngine.hydrate (_engine self) d' |}.

(** [_on_add_level_clicked], from the class the dialog returned
    ([None] when it was cancelled or nothing was selected). *)
Definition _on_add_level_clicked (self : Tab) (selected_class : option string) : Tab :=
  match selected_class with
  | None => self
  | Some selected_class =>
      if negb (PyStr.truthy selected_class) then self
      else
        match _data self with
        | Some d =>
            let new_level :=
              {| Schema.class_name := selected_class;
                 Schema.level := _get_next_class_level self selected_class;
                 Schema.subclass := None; Schema.feature_choices := [] |} in
            rehydrated self d (Schema.classes d ++ [new_level])
        | None => self
        end
  end.

(** [_on_remove_entry_clicked], from the class name and level of the entry
    widget. *)
Definition _on_remove_entry_clicked (self : Tab) (class_name : string) (level : Z) : Tab :=
  let data_idx := _find_data_index self class_name level in
  match _data self with
  | Some d =>
      if negb (Z.eqb data_idx (-1))
      then rehydrated self d (delete (Z.to_nat data_idx) (Schema.classes d))
      else self
  | None => self
  end.

(** [choices[key] = value] on the items of a mapping: the value of an
    existing key is replaced in place, a new key comes last. *)
Fixpoint dict_set (key value : string) (items : list (string * string))
  : list (string * string) :=
  match items with
  | [] => [(key, value)]
  | (k, v) :: rest =>
      if String.eqb k key then (k, value) :: rest
      else (k, v) :: dict_set key value rest
  end.

(** [if key in choices: del choices[key]] *)
Fixpoint dict_del (key : string) (items : list (string * string))
  : list (string * string) :=
  match items with
  | [] => []
  | (k, v) :: rest =>
      if String.eqb k key then rest else (k, v) :: dict_del key rest
  end.

Definition with_feature_choices (e : Schema.ClassLevelData)
    (choices : list (string * string)) : Schema.ClassLevelData :=
  {| Schema.class_name := Schema.class_name e; Schema.level := Schema.level e;
     Schema.subclass := Schema.subclass e; Schema.feature_choices := choices |}.

(** [_on_feature_changed] *)
Definition _on_feature_changed (self : Tab) (index : Z) (key value : string) : Tab :=
  match _data self with
  | None => self
  | Some d =>
      if (Z.ltb index 0 || Z.leb (Z.of_nat (length (Schema.classes d))) index)%bool
      then self
      else
        match Schema.classes d !! Z.to_nat index with
        | None => self
        | Some e =>
            let choices :=
              if PyStr.truthy value
              then dict_set key value (Schema.feature_choices e)
              else dict_del key (Schema.feature_choices e) in
            rehydrated self d
              (<[Z.to_nat index := with_feature_choices e choices]> (Schema.classes d))
        end
  end.

(** The invariant of the decision record: the level of every entry is its
    rank among the entries of its class. *)
Definition well_numbered (classes : list Schema.ClassLevelData) : Prop :=
  forall pre e post,
    classes = pre ++ e :: post ->
    Schema.level e = occurrences (Schema.class_name e) pre + 1.

End LevelingTab.

(** ** [compendium/service.py]: merging and matching *)

Module Service.

(** One step of [_ingest] inside [_merge_named_records]: [name_of] gives the
    [name] of an entry, [None] for an entry that is not a mapping or whose
    name is not a string.  The state is [combined] and [ordered_keys]. *)
Definition ingest_step {R : Type} (name_of : R -> option string)
    (state : gmap string R * list string) (entry : R)
  : gmap string R * list string :=
  let '(combined, ordered_keys) := state in
  match name_of entry with
  | None => state
  | Some name =>
      let key := _key name in
      let ordered_keys :=
        if decide (is_Some (combined !! key)) then ordered_keys
        else ordered_keys ++ [key] in
      (<[key := entry]> combined, ordered_keys)
  end.

(** [_ingest(items)] *)
Definition _ingest {R : Type} (name_of : R -> option string)
    (state : gmap string R * list string) (items : list R)
  : gmap string R * list string :=
  foldl (ingest_step name_of) state items.

(** [_merge_named_records]; an absent list is the empty one.  The result is
    [None] if [combined[key]] were to raise [KeyError]. *)
Definition _merge_named_records {R : Type} (name_of : R -> option string)
    (existing additions : list R) : option (list R) :=
  let state := _ingest name_of (∅, []) existing in
  let '(combined, ordered_keys) := _ingest name_of state additions in
  mapM (fun key => combined !! key) ordered_keys.

(** The key under which a named entry is merged. *)
Definition merge_key {R : Type} (name_of : R -> option string) (entry : R)
  : option string :=
  _key <$> name_of entry.

(** The last entry of [items] merged under [key]. *)
Fixpoint last_named {R : Type} (name_of : R -> option string) (key : string)
    (items : list R) : option R :=
  match items with
  | [] => None
  | entry :: rest =>
      match last_named name_of key rest with
      | Some r => Some r
      | None => if decide (merge_key name_of entry = Some key) then Some entry else None
      end
  end.

(** The keys of [items] in the order of their first occurrence, after those
    of [seen]. *)
Fixpoint first_keys {R : Type} (name_of : R -> option string)
    (seen : list string) (items : list R) : list string :=
  match items with
  | [] => []
  | entry :: rest =>
      match merge_key name_of entry with
      | Some key =>
          if decide (key ∈ seen) then first_keys name_of seen rest
          else key :: first_keys name_of (seen ++ [key]) rest
      | None => first_keys name_of seen rest
      end
  end.

(** A prerequisite of an invocation record: its [type] and [value] as
    strings and its [level], absent when the key is missing or null. *)
Record Requirement := {
  req_type : string;
  req_value : string;
  req_level : option Z
}.

(** An entry of [prerequisites]: a mapping, or something else. *)
Inductive Prerequisite :=
| Mapping (r : Requirement)
| NotMapping.

(** [int(requirement.get("level", 1) or 1)] *)
Definition required_level (r : Requirement) : Z :=
  match req_level r with
  | Some n => if Z.eqb n 0 then 1 else n
  | None => 1
  end.

(** The body of the loop of [_invocation_matches]: [false] is [return
    False]. *)
Definition requirement_met (class_key : string) (class_level : Z)
    (known_spells known_features : gset string) (p : Prerequisite) : bool :=
  match p with
  | NotMapping => false
  | Mapping requirement =>
      let req_type := _key (req_type requirement) in
      let value := _key (req_value requirement) in
      if String.eqb req_type "class" then
        if (PyStr.truthy value && negb (String.eqb value class_key))%bool then false
        else if Z.ltb class_level (required_level requirement) then false
        else true
      else if String.eqb req_type "spell" then bool_decide (value ∈ known_spells)
      else if String.eqb req_type "feature" then bool_decide (value ∈ known_features)
      else false
  end.

(** [_invocation_matches], on the record's [prerequisites]. *)
Definition _invocation_matches (prereqs : list Prerequisite) (class_key : string)
    (class_level : Z) (known_spells known_features : gset string) : bool :=
  forallb (requirement_met class_key class_level known_spells known_features) prereqs.

(** [_lowered_set] *)
Definition _lowered_set (values : list string) : gset string :=
  list_to_set (map _key (filter (fun v => PyStr.truthy v = true) values)).

(** [Compendium.invocations_for_class], over the records of the invocation
    index in its order; a record is its name and its prerequisites. *)
Definition invocations_for_class (records : list (string * list Prerequisite))
    (class_name : string) (class_level : Z) (known_spells known_features : list string)
  : list (string * list Prerequisite) :=
  let class_key := _key class_name in
  let spell_keys := _lowered_set known_spells in
  let feature_keys := _lowered_set known_features in
  let level := Z.max 0 class_level in
  filter
    (fun record =>
       _invocation_matches record.2 class_key level spell_keys feature_keys = true)
    records.

End Service.

(** ** The shape of a key *)

Module KeyShape.

(** A character of the class [[a-z0-9_]]. *)
Definition key_char_or_underscore (c : ascii) : Prop :=
  PyStr.is_key_char c = true \/ c = "_"%char.

(** No underscore is followed by an underscore. *)
Fixpoint no_double_underscore (l : list ascii) : Prop :=
  match l with
  | c1 :: rest =>
      match rest with
      | c2 :: _ => (c1 = "_"%char -> c2 <> "_"%char) /\ no_double_underscore rest
      | [] => True
      end
  | [] => True
  end.

(** Lower-case letters, digits and single underscores between them. *)
Definition key_shaped (s : string) : Prop :=
  let l := list_ascii_of_string s in
  Forall key_char_or_underscore l
  /\ head l <> Some "_"%char /\ last l <> Some "_"%char
  /\ no_double_underscore l.

(** [rstrip]: what [strip_by] does at the end of the list. *)
Definition rstrip_by (p : ascii -> bool) (l : list ascii) : list ascii :=
  rev (PyStr.lstrip_by p (rev l)).

(** [_key] on the characters of the name. *)
Definition key_chars (l : list ascii) : list ascii :=
  PyStr.strip_by (Ascii.eqb "_"%char)
    (PyStr.sub_runs false (map PyStr.lower_ascii (PyStr.strip_by PyStr.is_space l))).

End KeyShape.

(** ** [services/library.py]: the in-memory registry

    The registry is modelled without its storage: [save] and [load] move
    the same state to and from disk and are left out.  A method that can
    raise [KeyError] returns [None] for it. *)

Module Library.

Record CharacterRecord := {
  identifier : string;
  sheet : Model.CharacterSheet;
  modifiers : gmap string bool;
  data : option Schema.CharacterData
}.

Record CharacterLibrary := {
  _records : gmap string CharacterRecord;
  _order : list string;
  _active_id : option string
}.

(** Truthiness of an [Optional[str]] identifier. *)
Definition id_truthy (identifier : option string) : bool :=
  match identifier with Some s => PyStr.truthy s | None => false end.

(** [active_id if active_id in records else (order[0] if order else None)] *)
Definition pick_active (records : gmap string CharacterRecord) (order : list string)
    (active_id : option string) : option string :=
  match active_id with
  | Some a => if decide (is_Some (records !! a)) then Some a else head order
  | None => head order
  end.

(** [__init__] and [replace_all]: the loop over [records]. *)
Definition register (state : gmap string CharacterRecord * list string)
    (record : CharacterRecord) : gmap string CharacterRecord * list string :=
  (<[identifier record := record]> state.1, state.2 ++ [identifier record]).

Definition init (records : list CharacterRecord) (active_id : option string)
  : CharacterLibrary :=
  let '(by_id, order) := foldl register (∅, []) records in
  {| _records := by_id; _order := order;
     _active_id := pick_active by_id order active_id |}.

(** [replace_all] *)
Definition replace_all (self : CharacterLibrary) (records : list CharacterRecord)
    (active_id : option string) : CharacterLibrary :=
  init records active_id.

(** [list_records] *)
Definition list_records (self : CharacterLibrary) : option (list CharacterRecord) :=
  mapM (fun identifier => _records self !! identifier) (_order self).

(** [get] *)
Definition get (self : CharacterLibrary) (identifier : option string)
  : option CharacterRecord :=
  match identifier with
  | Some s => if PyStr.truthy s then _records self !! s else None
  | None => None
  end.

(** [ensure_active]: the record returned and the library afterwards. *)
Definition ensure_active (self : CharacterLibrary)
  : option (option CharacterRecord * CharacterLibrary) :=
  match _active_id self with
  | Some a =>
      if (PyStr.truthy a && bool_decide (is_Some (_records self !! a)))%bool
      then (fun r => (Some r, self)) <$> _records self !! a
      else
        match _order self with
        | first :: _ =>
            (fun r => (Some r,
                       {| _records := _records self; _order := _order self;
                          _active_id := Some first |}))
              <$> _records self !! first
        | [] => Some (None, self)
        end
  | None =>
      match _order self with
      | first :: _ =>
          (fun r => (Some r,
                     {| _records := _records self; _order := _order self;
                        _active_id := Some first |}))
            <$> _records self !! first
      | [] => Some (None, self)
      end
  end.

(** [set_active] *)
Definition set_active (self : CharacterLibrary) (identifier : option string)
  : CharacterLibrary :=
  let active :=
    match identifier with
    | Some s =>
        if (PyStr.truthy s && bool_decide (is_Some (_records self !! s)))%bool
        then Some s
        else head (_order self)
    | None => head (_order self)
    end in
  {| _records := _records self; _order := _order self; _active_id := active |}.

(** [create_record], with the identifier [uuid4] produced; [modifiers] left
    out is the empty dict. *)
Definition create_record (self : CharacterLibrary) (uuid : string)
    (sheet : option Model.CharacterSheet) (modifiers : gmap string bool)
    (data : option Schema.CharacterData) : CharacterRecord * CharacterLibrary :=
  let record :=
    {| identifier := uuid; sheet := default Model.CharacterSheet_new sheet;
       modifiers := modifiers; data := data |} in
  (record,
   {| _records := <[uuid := record]> (_records self);
      _order := _order self ++ [uuid];
      _active_id := if id_truthy (_active_id self) then _active_id self else Some uuid |}).

(** [update_record]; [data] is the keyword argument, [None] when omitted. *)
Definition update_record (self : CharacterLibrary) (identifier : string)
    (sheet : Model.CharacterSheet) (modifiers : gmap string bool)
    (data : option Schema.CharacterData) : option CharacterLibrary :=
  match _records self !! identifier with
  | None => None
  | Some record =>
      Some {| _records :=
                <[identifier :=
                    {| identifier := Library.identifier record; sheet := sheet;
                       modifiers := modifiers; data := data |}]> (_records self);
              _order := _order self; _active_id := _active_id self |}
  end.

(** [list.remove(x)]: the first occurrence goes. *)
Fixpoint list_remove (x : string) (l : list string) : list string :=
  match l with
  | [] => []
  | y :: rest => if String.eqb y x then rest else y :: list_remove x rest
  end.

(** [delete_record] *)
Definition delete_record (self : CharacterLibrary) (identifier : string)
  : CharacterLibrary :=
  match _records self !! identifier with
  | None => self
  | Some _ =>
      let order := list_remove identifier (_order self) in
      {| _records := delete identifier (_records self);
         _order := order;
         _active_id :=
           if decide (_active_id self = Some identifier) then head order
           else _active_id self |}
  end.

(** [clone]: each record is rebuilt from its identifier, sheet and
    modifiers. *)
Definition clone (self : CharacterLibrary) : option CharacterLibrary :=
  (fun records =>
     init
       (map (fun record =>
               {| identifier := identifier record; sheet := sheet record;
                  modifiers := modifiers record; data := None |})
          records)
       (_active_id self))
    <$> list_records self.

(** An index of records and its order list agree: the order lists each
    identifier once, the identifiers listed are those registered, and each
    record is registered under its own identifier. *)
Definition indexed (records : gmap string CharacterRecord) (order : list string) : Prop :=
  NoDup order
  /\ (forall id, id ∈ order <-> is_Some (records !! id))
  /\ (forall id r, records !! id = Some r -> identifier r = id).

(** The registry is consistent: index and order agree, and the active
    identifier is a registered one whenever there is a record. *)
Definition consistent (self : CharacterLibrary) : Prop :=
  indexed (_records self) (_order self)
  /\ match _active_id self with
     | Some a => is_Some (_records self !! a)
     | None => _order self = []
     end.

(** [load]: the records read from the directory are put in the order the
    meta file recorded; [record_map] is the dict comprehension over the
    records. *)
Definition record_map (records : list CharacterRecord) : gmap string CharacterRecord :=
  foldl (fun m r => <[identifier r := r]> m) ∅ records.

Definition reorder (records : list CharacterRecord) (order : list string)
  : list CharacterRecord :=
  match order with
  | [] => records
  | _ :: _ =>
      omap (fun uid => record_map records !! uid) order
      ++ filter (fun r => identifier r ∉ order) records
  end.

End Library.

Module LibraryExamples.

Definition mira : Library.CharacterRecord :=
  {| Library.identifier := "c1"; Library.sheet := Model.CharacterSheet_new;
     Library.modifiers := ∅; Library.data := Some Examples.blank |}.

Definition toben : Library.CharacterRecord :=
  {| Library.identifier := "c2"; Library.sheet := Model.CharacterSheet_new;
     Library.modifiers := ∅; Library.data := None |}.

Definition shelf : Library.CharacterLibrary := Library.init [mira; toben] None.

End LibraryExamples.

(** ** [model/schema.py]: decoding a persisted record

    A decoded JSON document.  A dict is the list of its items, keys
    distinct, in insertion order.  Numbers are integers: a float is carried
    through the decoder like any other value and is left out. *)

#[local] Set Warnings "-register-all".

Inductive PyVal :=
| VNone
| VBool (b : bool)
| VInt (n : Z)
| VStr (s : string)
| VList (items : list PyVal)
| VDict (items : list (string * PyVal)).

Module Payload.

(** [data.get(key)] on the items of a dict. *)
Fixpoint dict_get (items : list (string * PyVal)) (key : string) : option PyVal :=
  match items with
  | [] => None
  | (k, v) :: rest => if String.eqb k key then Some v else dict_get rest key
  end.

(** [for c in value]: a list gives its elements, a dict its keys, a string
    its characters; anything else raises [TypeError]. *)
Definition py_iter (value : PyVal) : option (list PyVal) :=
  match value with
  | VList items => Some items
  | VDict items => Some (map (fun kv => VStr kv.1) items)
  | VStr s => Some (map (fun c => VStr (String c "")) (list_ascii_of_string s))
  | _ => None
  end.

Definition of_prim (p : Prim) : PyVal :=
  match p with PStr s => VStr s | PInt n => VInt n | PBool b => VBool b end.

Definition of_str_dict (d : list (string * string)) : PyVal :=
  VDict (map (fun kv => (kv.1, VStr kv.2)) d).

Definition of_int_dict (d : list (string * Z)) : PyVal :=
  VDict (map (fun kv => (kv.1, VInt kv.2)) d).

Definition of_optional (s : option string) : PyVal :=
  match s with Some s => VStr s | None => VNone end.

Definition of_equipment (items : list (list (string * Prim))) : PyVal :=
  VList (map (fun item => VDict (map (fun kv => (kv.1, of_prim kv.2)) item)) items).

(** [dataclasses.asdict] on the three dataclasses: the fields by name, in
    the order of their declaration. *)
Definition asdict_identity (i : Schema.IdentityData) : PyVal :=
  VDict [("name", VStr (Schema.name i));
         ("ancestry", VStr (Schema.ancestry i));
         ("ancestry_subtype", VStr (Schema.ancestry_subtype i));
         ("background", VStr (Schema.background i));
         ("alignment", VStr (Schema.alignment i));
         ("player_name", VStr (Schema.player_name i));
         ("portrait_path", VStr (Schema.portrait_path i));
         ("xp", VInt (Schema.xp i));
         ("level_cap", VInt (Schema.level_cap i))].

Definition asdict_class (c : Schema.ClassLevelData) : PyVal :=
  VDict [("class_name", VStr (Schema.class_name c));
         ("level", VInt (Schema.level c));
         ("subclass", of_optional (Schema.subclass c));
         ("feature_choices", of_str_dict (Schema.feature_choices c))].

Definition asdict (d : Schema.CharacterData) : PyVal :=
  VDict [("version", VStr (Schema.version d));
         ("id", VStr (Schema.id d));
         ("identity", asdict_identity (Schema.identity d));
         ("base_stats", of_int_dict (Schema.base_stats d));
         ("classes", VList (map asdict_class (Schema.classes d)));
         ("background_choices", of_str_dict (Schema.background_choices d));
         ("equipment", of_equipment (Schema.equipment d));
         ("notes", of_str_dict (Schema.notes d))].

(** A payload with some of its top-level keys taken out. *)
Definition only (keep : string -> bool) (payload : PyVal) : PyVal :=
  match payload with
  | VDict items => VDict (filter (fun kv => keep kv.1 = true) items)
  | _ => payload
  end.

End Payload.

(** The dataclasses as [from_dict] builds them: it checks no type, so a
    field holds whatever value the payload gave for it. *)
Module Raw.
Import Payload.

Record IdentityData := {
  name : PyVal;
  ancestry : PyVal;
  ancestry_subtype : PyVal;
  background : PyVal;
  alignment : PyVal;
  player_name : PyVal;
  portrait_path : PyVal;
  xp : PyVal;
  level_cap : PyVal
}.

Record ClassLevelData := {
  class_name : PyVal;
  level : PyVal;
  subclass : PyVal;
  feature_choices : PyVal
}.

Record CharacterData := {
  version : PyVal;
  id : PyVal;
  identity : IdentityData;
  base_stats : PyVal;
  classes : list ClassLevelData;
  background_choices : PyVal;
  equipment : PyVal;
  notes : PyVal
}.

(** [IdentityData.__annotations__] *)
Definition identity_annotations : list string :=
  ["name"; "ancestry"; "ancestry_subtype"; "background"; "alignment";
   "player_name"; "portrait_path"; "xp"; "level_cap"].

(** [IdentityData.from_dict]: [None] when [data.items()] raises.  The
    keyword arguments are the items with an annotated key; a field without
    one takes its dataclass default. *)
Definition IdentityData_from_dict (data : PyVal) : option IdentityData :=
  match data with
  | VDict items =>
      let kwargs := filter (fun kv => kv.1 ∈ identity_annotations) items in
      Some {| name := default (VStr "") (dict_get kwargs "name");
              ancestry := default (VStr "") (dict_get kwargs "ancestry");
              ancestry_subtype := default (VStr "") (dict_get kwargs "ancestry_subtype");
              background := default (VStr "") (dict_get kwargs "background");
              alignment := default (VStr "") (dict_get kwargs "alignment");
              player_name := default (VStr "") (dict_get kwargs "player_name");
              portrait_path := default (VStr "") (dict_get kwargs "portrait_path");
              xp := default (VInt 0) (dict_get kwargs "xp");
              level_cap := default (VInt 20) (dict_get kwargs "level_cap") |}
  | _ => None
  end.

(** [ClassLevelData.from_dict]: [None] when [data.get] raises. *)
Definition ClassLevelData_from_dict (data : PyVal) : option ClassLevelData :=
  match data with
  | VDict items =>
      Some {| class_name := default (VStr "") (dict_get items "class_name");
              level := default (VInt 1) (dict_get items "level");
              subclass := default VNone (dict_get items "subclass");
              feature_choices := default (VDict []) (dict_get items "feature_choices") |}
  | _ => None
  end.

(** [CharacterData.from_dict], with the identifier [uuid4] produced. *)
Definition CharacterData_from_dict (data : PyVal) (uuid : string)
  : option CharacterData :=
  match data with
  | VDict items =>
      identity ← IdentityData_from_dict (default (VDict []) (dict_get items "identity"));
      entries ← py_iter (default (VList []) (dict_get items "classes"));
      classes ← mapM ClassLevelData_from_dict entries;
      Some {| version := default (VStr "1.0") (dict_get items "version");
              id := default (VStr uuid) (dict_get items "id");
              identity := identity;
              base_stats :=
                default
                  (VDict [("STR", VInt 10); ("DEX", VInt 10); ("CON", VInt 10);
                          ("INT", VInt 10); ("WIS", VInt 10); ("CHA", VInt 10)])
                  (dict_get items "base_stats");
              classes := classes;
              background_choices := default (VDict []) (dict_get items "background_choices");
              equipment := default (VList []) (dict_get items "equipment");
              notes := default (VDict []) (dict_get items "notes") |}
  | _ => None
  end.

(** A typed record as the untyped one holding the same values. *)
Definition of_identity (i : Schema.IdentityData) : IdentityData :=
  {| name := VStr (Schema.name i);
     ancestry := VStr (Schema.ancestry i);
     ancestry_subtype := VStr (Schema.ancestry_subtype i);
     background := VStr (Schema.background i);
     alignment := VStr (Schema.alignment i);
     player_name := VStr (Schema.player_name i);
     portrait_path := VStr (Schema.portrait_path i);
     xp := VInt (Schema.xp i);
     level_cap := VInt (Schema.level_cap i) |}.

Definition of_class (c : Schema.ClassLevelData) : ClassLevelData :=
  {| class_name := VStr (Schema.class_name c);
     level := VInt (Schema.level c);
     subclass := of_optional (Schema.subclass c);
     feature_choices := of_str_dict (Schema.feature_choices c) |}.

Definition of_data (d : Schema.CharacterData) : CharacterData :=
  {| version := VStr (Schema.version d);
     id := VStr (Schema.id d);
     identity := of_identity (Schema.identity d);
     base_stats := of_int_dict (Schema.base_stats d);
     classes := map of_class (Schema.classes d);
     background_choices := of_str_dict (Schema.background_choices d);
     equipment := of_equipment (Schema.equipment d);
     notes := of_str_dict (Schema.notes d) |}.

(** The record with the fields outside [keep] put back to the defaults of
    [CharacterData()]. *)
Definition defaulted (keep : string -> bool) (uuid : string) (d : Schema.CharacterData)
  : Schema.CharacterData :=
  let fresh := Schema.CharacterData_default uuid in
  {| Schema.version := if keep "version" then Schema.version d else Schema.version fresh;
     Schema.id := if keep "id" then Schema.id d else Schema.id fresh;
     Schema.identity :=
       if keep "identity" then Schema.identity d else Schema.identity fresh;
     Schema.base_stats :=
       if keep "base_stats" then Schema.base_stats d else Schema.base_stats fresh;
     Schema.classes := if keep "classes" then Schema.classes d else Schema.classes fresh;
     Schema.background_choices :=
       if keep "background_choices" then Schema.background_choices d
       else Schema.background_choices fresh;
     Schema.equipment :=
       if keep "equipment" then Schema.equipment d else Schema.equipment fresh;
     Schema.notes := if keep "notes" then Schema.notes d else Schema.notes fresh |}.

End Raw.
(** * Properties *)

(** ** The model at work *)

Example _key_criminal : _key "  Criminal " = "criminal".
Proof. reflexivity. Qed.

Example _key_spaces : _key "High--Elf (PHB)!" = "high_elf_phb".
Proof. reflexivity. Qed.

Lemma truthy_true (s : string) : PyStr.truthy s = true <-> s <> "".
Proof. destruct s; simpl; split; intros; congruence. Qed.

(** ** Loops and what they leave alone *)

Section Loops.
Context {S B X : Type} (step : S -> B -> S) (proj : S -> X).
Hypothesis step_keeps : forall s b, proj (step s b) = proj s.

Lemma foldl_keeps (l : list B) (s : S) : proj (foldl step s l) = proj s.
Proof.
  revert s; induction l as [|b l IH]; intros s; simpl; [reflexivity|].
  rewrite IH. apply step_keeps.
Qed.

End Loops.

Module Frame.
Import RulesEngine Views.

Lemma with_sheet_inputs f w : inputs (with_sheet f w) = inputs w.
Proof. reflexivity. Qed.

Ltac keeps :=
  repeat first
    [ reflexivity
    | rewrite with_sheet_inputs
    | match goal with
      | |- context [match ?x with _ => _ end] => destruct x
      end ].

Lemma base_stat_step_inputs w item : inputs (base_stat_step w item) = inputs w.
Proof. unfold base_stat_step. keeps. Qed.

Lemma background_skill_step_inputs w skill :
  inputs (background_skill_step w skill) = inputs w.
Proof. reflexivity. Qed.

Lemma background_tool_step_inputs w tool :
  inputs (background_tool_step w tool) = inputs w.
Proof. unfold background_tool_step. keeps. Qed.

Lemma save_step_inputs w save : inputs (save_step w save) = inputs w.
Proof. unfold save_step. keeps. Qed.

Lemma feature_choice_step_inputs w item :
  inputs (feature_choice_step w item) = inputs w.
Proof. unfold feature_choice_step. keeps. Qed.

Lemma _apply_identity_inputs w : inputs (_apply_identity w) = inputs w.
Proof. reflexivity. Qed.

Lemma _apply_base_stats_inputs w : inputs (_apply_base_stats w) = inputs w.
Proof. apply foldl_keeps, base_stat_step_inputs. Qed.

Lemma _apply_background_inputs w : inputs (_apply_background w) = inputs w.
Proof.
  unfold _apply_background.
  destruct (negb _); [reflexivity|].
  destruct (background_record _ _); [|reflexivity].
  rewrite (foldl_keeps _ inputs background_tool_step_inputs).
  apply foldl_keeps, background_skill_step_inputs.
Qed.

Lemma apply_class_base_inputs w cls_data entry :
  inputs (apply_class_base w cls_data entry) = inputs w.
Proof.
  unfold apply_class_base.
  destruct (class_record _ _) as [r|]; [|reflexivity].
  destruct (match sheet_classes w with [] => _ | _ => _ end).
  - rewrite (foldl_keeps _ inputs save_step_inputs). reflexivity.
  - destruct (cr_multiclassing_proficiencies r); reflexivity.
Qed.

Lemma consolidate_step_inputs w cls_data :
  inputs (consolidate_step w cls_data).1.1 = inputs w.
Proof.
  unfold consolidate_step.
  destruct (list_find _ _) as [[i existing]|]; reflexivity.
Qed.

Lemma class_step_inputs w cls_data : inputs (class_step w cls_data) = inputs w.
Proof.
  unfold class_step.
  pose proof (consolidate_step_inputs w cls_data) as Hc.
  destruct (consolidate_step w cls_data) as [[w1 is_new] entry]; simpl in Hc.
  rewrite (foldl_keeps _ inputs feature_choice_step_inputs).
  destruct is_new; [rewrite apply_class_base_inputs|]; exact Hc.
Qed.

Lemma _apply_classes_inputs w : inputs (_apply_classes w) = inputs w.
Proof. apply foldl_keeps, class_step_inputs. Qed.

Lemma hydrate_world_inputs self d : inputs (hydrate_world self d) = (self, d).
Proof.
  unfold hydrate_world.
  rewrite _apply_classes_inputs, _apply_background_inputs, with_sheet_inputs,
    _apply_base_stats_inputs, _apply_identity_inputs.
  reflexivity.
Qed.

End Frame.

(** C10. Hydration does not mutate its input: in the world in which
    [hydrate] returns, the [CharacterData] argument (identity, base stats,
    the class entries with their levels, subclasses and feature choices,
    background choices, equipment and notes) is the one that was passed in,
    and so is the engine's compendium; the sheet was built from a fresh
    [CharacterSheet()]. *)
Theorem hydrate_leaves_data_unchanged (self : Compendium) (d : Schema.CharacterData) :
  RulesEngine.data (RulesEngine.hydrate_world self d) = d
  /\ RulesEngine.compendium (RulesEngine.hydrate_world self d) = self.
Proof.
  pose proof (Frame.hydrate_world_inputs self d) as H.
  unfold Views.inputs in H. split; congruence.
Qed.


(** ** What each step of the engine writes *)

Module Keeps.
Import RulesEngine Views.

Ltac cases :=
  repeat first
    [ reflexivity
    | match goal with
      | |- context [match ?x with _ => _ end] => destruct x
      end ].

Lemma feature_choice_step_rest w item :
  but_skills (feature_choice_step w item) = but_skills w.
Proof. unfold feature_choice_step. cases. Qed.

Lemma feature_choices_rest w items :
  but_skills (foldl feature_choice_step w items) = but_skills w.
Proof. apply foldl_keeps, feature_choice_step_rest. Qed.

Lemma background_skill_step_rest w skill :
  but_skills (background_skill_step w skill) = but_skills w.
Proof. reflexivity. Qed.

Lemma background_tool_step_rest w tool :
  but_tools (background_tool_step w tool) = but_tools w.
Proof. unfold background_tool_step. cases. Qed.

Lemma base_stat_step_rest w item :
  but_abilities (base_stat_step w item) = but_abilities w.
Proof. unfold base_stat_step. cases. Qed.

Lemma _apply_base_stats_rest w :
  but_abilities (_apply_base_stats w) = but_abilities w.
Proof. apply foldl_keeps, base_stat_step_rest. Qed.

Lemma save_step_rest w save : but_abilities (save_step w save) = but_abilities w.
Proof. unfold save_step. cases. Qed.

Lemma save_steps_rest w saves :
  but_abilities (foldl save_step w saves) = but_abilities w.
Proof. apply foldl_keeps, save_step_rest. Qed.

Lemma consolidate_step_rest w cls_data :
  but_identity (consolidate_step w cls_data).1.1 = but_identity w.
Proof. unfold consolidate_step. cases. Qed.

Lemma apply_class_base_rest w cls_data entry :
  but_class_base (apply_class_base w cls_data entry) = but_class_base w.
Proof.
  unfold apply_class_base.
  destruct (class_record _ _) as [r|]; [|reflexivity].
  destruct (match sheet_classes w with [] => _ | _ => _ end).
  - pose proof (save_steps_rest
      (with_sheet (fun s => set_weapons (Model.weapons (Model.proficiencies s) ++ pt_weapons (cr_proficiencies r)) s)
         (with_sheet (fun s => set_armor (Model.armor (Model.proficiencies s) ++ pt_armor (cr_proficiencies r)) s) w))
      (cr_saves r)) as H.
    unfold but_abilities in H. unfold but_class_base, sheet_skills, sheet_tools.
    injection H as Hi Hp He. rewrite Hi, Hp, He. reflexivity.
  - destruct (cr_multiclassing_proficiencies r); reflexivity.
Qed.

(** Two steps write neither the consolidated class list nor the equipment. *)
Lemma _apply_background_rest w :
  (Model.identity (sheet (_apply_background w)),
   Model.abilities (sheet (_apply_background w)),
   sheet_armor (_apply_background w), sheet_weapons (_apply_background w),
   Model.equipment (sheet (_apply_background w)))
  = (Model.identity (sheet w), Model.abilities (sheet w), sheet_armor w,
     sheet_weapons w, Model.equipment (sheet w)).
Proof.
  unfold _apply_background.
  destruct (negb _); [reflexivity|].
  destruct (background_record _ _) as [b|]; [|reflexivity].
  pose proof (foldl_keeps _ but_tools background_tool_step_rest
                (pt_tools (br_proficiencies b))
                (foldl background_skill_step w (pt_skills (br_proficiencies b)))) as Ht.
  pose proof (foldl_keeps _ but_skills background_skill_step_rest
                (pt_skills (br_proficiencies b)) w) as Hs.
  unfold but_tools in Ht. unfold but_skills in Hs.
  injection Ht as -> -> _ -> -> ->. injection Hs as -> -> -> -> _ ->.
  reflexivity.
Qed.

End Keeps.

(** ** Class progression consolidation *)

Module Consolidation.
Import RulesEngine Views.

(** The entry the code writes over an existing one is the specification's
    [raise]. *)
Lemma updated_entry_is_raise (existing : Model.ClassProgression)
    (cls_data : Schema.ClassLevelData) :
  {| Model.name := Model.name existing;
     Model.level := Z.max (Model.level existing) (Schema.level cls_data);
     Model.subclass :=
       if opt_truthy (Schema.subclass cls_data) then Schema.subclass cls_data
       else Model.subclass existing |}
  = Spec.raise existing cls_data.
Proof.
  unfold Spec.raise. f_equal.
  destruct (Schema.subclass cls_data) as [key|]; simpl; [|reflexivity].
  destruct key; simpl; reflexivity.
Qed.

(** Looking the class up and writing at the index found is the recursive
    find-or-create of the specification. *)
Lemma find_or_create (l : list Model.ClassProgression) (e : Schema.ClassLevelData) :
  match list_find (fun c => Model.name c = Schema.class_name e) l with
  | Some (i, existing) => <[i := Spec.raise existing e]> l
  | None => l ++ [Spec.introduce e]
  end = Spec.merge_entry l e.
Proof.
  induction l as [|c l IH]; simpl; [reflexivity|].
  destruct (decide (Model.name c = Schema.class_name e)) as [Heq|Hne]; simpl.
  - reflexivity.
  - rewrite <- IH.
    destruct (list_find _ l) as [[i existing]|]; simpl; reflexivity.
Qed.

Lemma consolidate_step_classes w e :
  sheet_classes (consolidate_step w e).1.1 = Spec.merge_entry (sheet_classes w) e.
Proof.
  rewrite <- find_or_create. unfold consolidate_step.
  destruct (list_find _ (sheet_classes w)) as [[i existing]|]; simpl.
  - rewrite updated_entry_is_raise. reflexivity.
  - reflexivity.
Qed.

Lemma identity_classes w w' :
  Model.identity (sheet w') = Model.identity (sheet w) ->
  sheet_classes w' = sheet_classes w.
Proof. unfold sheet_classes. intros ->. reflexivity. Qed.

Lemma apply_class_base_classes w e entry :
  sheet_classes (apply_class_base w e entry) = sheet_classes w.
Proof.
  apply identity_classes.
  pose proof (Keeps.apply_class_base_rest w e entry) as H.
  unfold Views.but_class_base in H. congruence.
Qed.

Lemma feature_choices_classes w items :
  sheet_classes (foldl feature_choice_step w items) = sheet_classes w.
Proof.
  apply identity_classes.
  pose proof (Keeps.feature_choices_rest w items) as H.
  unfold Views.but_skills in H. congruence.
Qed.

Lemma class_step_classes w e :
  sheet_classes (class_step w e) = Spec.merge_entry (sheet_classes w) e.
Proof.
  unfold class_step.
  pose proof (consolidate_step_classes w e) as Hc.
  destruct (consolidate_step w e) as [[w1 is_new] entry]; simpl in Hc.
  rewrite feature_choices_classes.
  destruct is_new; [rewrite apply_class_base_classes|]; exact Hc.
Qed.

Lemma class_steps_classes (l : list Schema.ClassLevelData) w :
  sheet_classes (foldl class_step w l) = foldl Spec.merge_entry (sheet_classes w) l.
Proof.
  revert w; induction l as [|e l IH]; intros w; simpl; [reflexivity|].
  rewrite IH, class_step_classes. reflexivity.
Qed.

Lemma hydrate_world_unfold self d :
  hydrate_world self d = foldl class_step (before_classes self d) (Schema.classes d).
Proof.
  unfold hydrate_world, _apply_classes, before_classes.
  f_equal.
  pose proof (Frame._apply_background_inputs
    (with_sheet (set_proficiencies Model.ProficiencySet_new)
       (_apply_base_stats
          (_apply_identity
             {| compendium := self; data := d; sheet := Model.CharacterSheet_new |})))) as H.
  rewrite Frame.with_sheet_inputs, Frame._apply_base_stats_inputs in H.
  unfold Views.inputs in H. simpl in H. congruence.
Qed.

Lemma before_classes_inputs self d :
  compendium (before_classes self d) = self /\ data (before_classes self d) = d.
Proof.
  pose proof (Frame._apply_background_inputs
    (with_sheet (set_proficiencies Model.ProficiencySet_new)
       (_apply_base_stats
          (_apply_identity
             {| compendium := self; data := d; sheet := Model.CharacterSheet_new |})))) as H.
  rewrite Frame.with_sheet_inputs, Frame._apply_base_stats_inputs in H.
  unfold Views.inputs in H. simpl in H. fold (before_classes self d) in H.
  split; congruence.
Qed.

Lemma before_classes_classes self d : sheet_classes (before_classes self d) = [].
Proof.
  unfold before_classes.
  match goal with |- sheet_classes (_apply_background ?w) = _ =>
    pose proof (Keeps._apply_background_rest w) as Hb;
    rewrite (identity_classes w (_apply_background w)) by congruence
  end.
  unfold sheet_classes. simpl.
  match goal with |- context [_apply_base_stats ?w] =>
    pose proof (Keeps._apply_base_stats_rest w) as Hs
  end.
  unfold Views.but_abilities in Hs. injection Hs as -> _ _. reflexivity.
Qed.

End Consolidation.

(** C2. Class progression consolidation: the consolidated class list of the
    hydrated sheet is obtained by walking the decision entries in order,
    matching on the class name as stored, raising the level to the maximum,
    overwriting the subclass only when the entry gives one and appending on
    first occurrence; rogue 1, rogue 2, wizard 1, rogue 3 consolidate to
    rogue at level 3 followed by wizard at level 1. *)
Theorem hydrate_consolidates_classes :
  (forall (self : Compendium) (d : Schema.CharacterData),
      Model.classes (Model.identity (RulesEngine.hydrate self d))
      = Spec.consolidated (Schema.classes d))
  /\ (forall (self : Compendium) (d : Schema.CharacterData)
        (fc1 fc2 fc3 fc4 : list (string * string)),
        Model.classes
          (Model.identity
             (RulesEngine.hydrate self
                (Schema.with_classes d
                   [ Examples.entry "rogue" 1 fc1; Examples.entry "rogue" 2 fc2;
                     Examples.entry "wizard" 1 fc3; Examples.entry "rogue" 3 fc4 ])))
        = [ {| Model.name := "rogue"; Model.level := 3; Model.subclass := None |};
            {| Model.name := "wizard"; Model.level := 1; Model.subclass := None |} ]).
Proof.
  assert (forall self d,
             Model.classes (Model.identity (RulesEngine.hydrate self d))
             = Spec.consolidated (Schema.classes d)) as H.
  { intros self d. unfold RulesEngine.hydrate.
    rewrite Consolidation.hydrate_world_unfold.
    change (RulesEngine.sheet_classes
              (foldl RulesEngine.class_step (Views.before_classes self d)
                 (Schema.classes d)) = Spec.consolidated (Schema.classes d)).
    rewrite Consolidation.class_steps_classes, Consolidation.before_classes_classes.
    reflexivity. }
  split; [exact H|].
  intros self d fc1 fc2 fc3 fc4. rewrite H. reflexivity.
Qed.

(** ** Primacy *)

Module Primacy.
Import RulesEngine Views.

Lemma consolidate_step_new w e :
  Schema.class_name e ∉ seen w ->
  consolidate_step w e
  = (with_sheet
       (fun s => set_classes (Model.classes (Model.identity s) ++ [Spec.introduce e]) s) w,
     true, Spec.introduce e).
Proof.
  intros Hnew. unfold consolidate_step.
  destruct (list_find _ (sheet_classes w)) as [[i existing]|] eqn:Hfind; [|reflexivity].
  apply list_find_Some in Hfind as (Hi & Hname & _).
  exfalso. apply Hnew. unfold seen. rewrite <- Hname.
  apply list_elem_of_fmap. exists existing. split; [reflexivity|].
  eapply list_elem_of_lookup_2, Hi.
Qed.

Lemma consolidate_step_old w e :
  Schema.class_name e ∈ seen w -> (consolidate_step w e).1.2 = false.
Proof.
  intros Hold. unfold consolidate_step.
  destruct (list_find _ (sheet_classes w)) as [[i existing]|] eqn:Hfind; [reflexivity|].
  exfalso. apply list_find_None in Hfind.
  unfold seen in Hold. apply list_elem_of_fmap in Hold as (c & Hc & Hin).
  rewrite Forall_forall in Hfind. apply (Hfind c); [exact Hin|congruence].
Qed.

Lemma seen_merge (acc : list Model.ClassProgression) (e : Schema.ClassLevelData) :
  map Model.name (Spec.merge_entry acc e)
  = if decide (Schema.class_name e ∈ map Model.name acc) then map Model.name acc
    else map Model.name acc ++ [Schema.class_name e].
Proof.
  induction acc as [|c acc IH]; simpl.
  - reflexivity.
  - destruct (decide (Model.name c = Schema.class_name e)) as [Heq|Hne]; simpl.
    + rewrite decide_True by (rewrite Heq; left). reflexivity.
    + rewrite IH. destruct (decide (_ ∈ map Model.name acc)) as [Hin|Hout].
      * rewrite decide_True by (right; exact Hin). reflexivity.
      * rewrite decide_False; [reflexivity|].
        intros Hin. apply elem_of_cons in Hin as [Heq|Hin]; [|tauto].
        apply Hne. symmetry. exact Heq.
Qed.

Lemma seen_class_step w e :
  seen (class_step w e)
  = if decide (Schema.class_name e ∈ seen w) then seen w
    else seen w ++ [Schema.class_name e].
Proof.
  unfold seen. rewrite Consolidation.class_step_classes. apply seen_merge.
Qed.

(** [sheet.identity.classes[0] == entry], evaluated just after the append:
    true exactly when nothing had been consolidated before. *)
Lemma is_primary_iff_first (old : list Model.ClassProgression)
    (e : Schema.ClassLevelData) :
  Schema.class_name e ∉ map Model.name old ->
  match old ++ [Spec.introduce e] with
  | first :: _ => bool_decide (first = Spec.introduce e)
  | [] => false
  end = bool_decide (old = []).
Proof.
  intros Hnew. destruct old as [|c old]; simpl.
  - rewrite !bool_decide_eq_true_2; reflexivity.
  - apply bool_decide_eq_false_2. intros ->. apply Hnew. simpl. left.
Qed.

Lemma feature_choices_armor_weapons w items :
  sheet_armor (foldl feature_choice_step w items) = sheet_armor w
  /\ sheet_weapons (foldl feature_choice_step w items) = sheet_weapons w
  /\ Model.abilities (sheet (foldl feature_choice_step w items))
     = Model.abilities (sheet w).
Proof.
  pose proof (Keeps.feature_choices_rest w items) as H.
  unfold Views.but_skills in H. injection H as _ Hab Ha Hw _ _. auto.
Qed.

Lemma apply_class_base_grants w e entry :
  let is_primary :=
    match sheet_classes w with
    | first :: _ => bool_decide (first = entry)
    | [] => false
    end in
  sheet_armor (apply_class_base w e entry)
  = sheet_armor w
    ++ (if is_primary then Spec.full_grant pt_armor (compendium w) e
        else Spec.multiclass_grant pt_armor (compendium w) e)
  /\ sheet_weapons (apply_class_base w e entry)
     = sheet_weapons w
       ++ (if is_primary then Spec.full_grant pt_weapons (compendium w) e
           else Spec.multiclass_grant pt_weapons (compendium w) e).
Proof.
  intros is_primary. unfold apply_class_base. fold is_primary.
  unfold Spec.full_grant, Spec.multiclass_grant.
  destruct (class_record _ _) as [r|].
  2:{ destruct is_primary; rewrite !app_nil_r; auto. }
  destruct is_primary.
  - match goal with |- context [foldl save_step ?w0 ?l] =>
      pose proof (Keeps.save_steps_rest w0 l) as H
    end.
    unfold Views.but_abilities in H. injection H as _ Hp _.
    unfold sheet_armor, sheet_weapons. rewrite Hp. simpl. auto.
  - destruct (cr_multiclassing_proficiencies r); simpl; rewrite ?app_nil_r; auto.
Qed.

Lemma class_step_grants w e :
  sheet_armor (class_step w e)
  = sheet_armor w ++ step_grant pt_armor (compendium w) (seen w) e
  /\ sheet_weapons (class_step w e)
     = sheet_weapons w ++ step_grant pt_weapons (compendium w) (seen w) e.
Proof.
  unfold class_step, step_grant.
  destruct (decide (Schema.class_name e ∈ seen w)) as [Hold|Hnew].
  - pose proof (consolidate_step_old w e Hold) as Hflag.
    pose proof (Keeps.consolidate_step_rest w e) as Hrest.
    destruct (consolidate_step w e) as [[w1 is_new] entry]; simpl in *. subst is_new.
    destruct (feature_choices_armor_weapons w1 (Schema.feature_choices e)) as (-> & -> & _).
    unfold Views.but_identity in Hrest. injection Hrest as _ Hp _.
    unfold sheet_armor, sheet_weapons. rewrite Hp, !app_nil_r. auto.
  - rewrite (consolidate_step_new w e Hnew).
    match goal with |- context [apply_class_base ?w1 e ?entry] =>
      destruct (feature_choices_armor_weapons (apply_class_base w1 e entry)
                  (Schema.feature_choices e)) as (-> & -> & _);
      pose proof (apply_class_base_grants w1 e entry) as Hg
    end.
    cbv zeta in Hg.
    change (sheet_classes (with_sheet _ w)) with (sheet_classes w ++ [Spec.introduce e]) in Hg.
    rewrite (is_primary_iff_first (sheet_classes w) e Hnew) in Hg.
    destruct Hg as [-> ->]. simpl.
    unfold seen. destruct (sheet_classes w); simpl; auto.
Qed.

(** The grants of a whole decision list, starting with [before] consolidated. *)
Lemma class_steps_grants_later (l : list Schema.ClassLevelData) w :
  seen w <> [] ->
  sheet_armor (foldl class_step w l)
  = sheet_armor w
    ++ concat (map (Spec.multiclass_grant pt_armor (compendium w))
                 (Spec.introductions (seen w) l))
  /\ sheet_weapons (foldl class_step w l)
     = sheet_weapons w
       ++ concat (map (Spec.multiclass_grant pt_weapons (compendium w))
                    (Spec.introductions (seen w) l)).
Proof.
  revert w; induction l as [|e l IH]; intros w Hne; simpl.
  - rewrite !app_nil_r. auto.
  - assert (seen (class_step w e) <> []) as Hne'.
    { rewrite seen_class_step. destruct (decide _); [exact Hne|].
      intros H. apply app_eq_nil in H as [_ H]. discriminate. }
    destruct (IH (class_step w e) Hne') as [-> ->].
    destruct (class_step_grants w e) as [-> ->].
    pose proof (Frame.class_step_inputs w e) as Hin. unfold Views.inputs in Hin.
    injection Hin as -> _.
    rewrite seen_class_step. unfold step_grant.
    destruct (decide (Schema.class_name e ∈ seen w)).
    + rewrite !app_nil_r. auto.
    + destruct (seen w) eqn:Hs; [congruence|]. simpl. rewrite <- !app_assoc. auto.
Qed.

Lemma class_steps_grants (l : list Schema.ClassLevelData) w :
  seen w = [] ->
  sheet_armor (foldl class_step w l)
  = sheet_armor w ++ Spec.class_grants pt_armor (compendium w) l
  /\ sheet_weapons (foldl class_step w l)
     = sheet_weapons w ++ Spec.class_grants pt_weapons (compendium w) l.
Proof.
  intros Hs. destruct l as [|e l]; simpl.
  - rewrite !app_nil_r. auto.
  - assert (seen (class_step w e) = [Schema.class_name e]) as Hs'.
    { rewrite seen_class_step, Hs. rewrite decide_False by (intros H; inversion H).
      reflexivity. }
    destruct (class_steps_grants_later l (class_step w e)) as [-> ->].
    { rewrite Hs'. discriminate. }
    destruct (class_step_grants w e) as [-> ->].
    pose proof (Frame.class_step_inputs w e) as Hin. unfold Views.inputs in Hin.
    injection Hin as -> _.
    rewrite Hs', Hs. unfold Spec.class_grants, step_grant. simpl.
    rewrite <- !app_assoc. auto.
Qed.

End Primacy.

(** ** Save-proficiency flags *)

Module Saves.
Import RulesEngine Views.

Lemma flag_same_abilities w w' a :
  Model.abilities (sheet w') = Model.abilities (sheet w) -> flag w' a = flag w a.
Proof. unfold flag. intros ->. reflexivity. Qed.

Lemma save_step_flag w save a :
  flag (save_step w save) a = (fun f => f || bool_decide (a = save)) <$> flag w a.
Proof.
  unfold flag, save_step.
  destruct (Model.abilities (sheet w) !! save) as [block|] eqn:Hsave; simpl.
  - destruct (decide (a = save)) as [->|Hne].
    + rewrite lookup_insert_eq, Hsave. simpl.
      rewrite bool_decide_eq_true_2 by reflexivity. rewrite orb_true_r. reflexivity.
    + rewrite lookup_insert_ne by congruence.
      destruct (Model.abilities (sheet w) !! a); simpl; [|reflexivity].
      rewrite bool_decide_eq_false_2 by exact Hne. rewrite orb_false_r. reflexivity.
  - destruct (decide (a = save)) as [->|Hne].
    + rewrite Hsave. reflexivity.
    + destruct (Model.abilities (sheet w) !! a); simpl; [|reflexivity].
      rewrite bool_decide_eq_false_2 by exact Hne. rewrite orb_false_r. reflexivity.
Qed.

Lemma save_steps_flag (saves : list string) w a :
  flag (foldl save_step w saves) a
  = (fun f => f || bool_decide (a ∈ saves)) <$> flag w a.
Proof.
  revert w; induction saves as [|save saves IH]; intros w; simpl.
  - destruct (flag w a); simpl; [|reflexivity]. rewrite orb_false_r. reflexivity.
  - rewrite IH, save_step_flag. destruct (flag w a) as [f|]; simpl; [|reflexivity].
    f_equal. rewrite <- orb_assoc. f_equal.
    destruct (decide (a = save)) as [->|Hne].
    + rewrite (bool_decide_eq_true_2 (save = save)) by reflexivity. simpl.
      symmetry. apply bool_decide_eq_true_2. left.
    + rewrite (bool_decide_eq_false_2 (a = save)) by exact Hne. simpl.
      apply bool_decide_ext. rewrite elem_of_cons. tauto.
Qed.

Lemma base_stat_step_flag w item a : flag (base_stat_step w item) a = flag w a.
Proof.
  unfold flag, base_stat_step. destruct item as [ability score].
  destruct (Model.abilities (sheet w) !! ability) as [block|] eqn:Hab; [|reflexivity].
  simpl. destruct (decide (a = ability)) as [->|Hne].
  - rewrite lookup_insert_eq, Hab. reflexivity.
  - rewrite lookup_insert_ne by congruence. reflexivity.
Qed.

Lemma _apply_base_stats_flag w a : flag (_apply_base_stats w) a = flag w a.
Proof.
  unfold _apply_base_stats.
  apply (foldl_keeps base_stat_step (fun w => flag w a)).
  intros s b. apply base_stat_step_flag.
Qed.

Lemma uniform_map_lookup {V : Type} (v : V) (codes : list string) (a : string) :
  (list_to_map (map (fun code => (code, v)) codes) : gmap string V) !! a
  = if decide (a ∈ codes) then Some v else None.
Proof.
  induction codes as [|c codes IH]; simpl.
  - rewrite lookup_empty. reflexivity.
  - destruct (decide (a = c)) as [->|Hne].
    + rewrite lookup_insert_eq. rewrite decide_True by left. reflexivity.
    + rewrite lookup_insert_ne by congruence. rewrite IH.
      destruct (decide (a ∈ codes)) as [Hin|Hout].
      * rewrite decide_True by (right; exact Hin). reflexivity.
      * rewrite decide_False; [reflexivity|].
        rewrite elem_of_cons. tauto.
Qed.

Lemma before_classes_flag self d a :
  flag (Views.before_classes self d) a
  = if decide (a ∈ Model.ability_codes) then Some false else None.
Proof.
  unfold Views.before_classes.
  match goal with |- flag (_apply_background ?w) a = _ =>
    pose proof (Keeps._apply_background_rest w) as Hb;
    rewrite (flag_same_abilities w (_apply_background w)) by congruence
  end.
  match goal with |- flag (with_sheet ?f ?w) a = _ =>
    change (flag (with_sheet f w) a) with (flag w a)
  end.
  rewrite _apply_base_stats_flag.
  change (Model.save_proficient
            <$> (list_to_map
                   (map (fun code => (code, Model.AbilityBlock_new)) Model.ability_codes)
                 : gmap string Model.AbilityBlock) !! a
          = if decide (a ∈ Model.ability_codes) then Some false else None).
  rewrite uniform_map_lookup.
  destruct (decide _); reflexivity.
Qed.

(** A class consolidated after another one sets no flag. *)
Lemma class_step_flag_later w e a :
  Views.seen w <> [] -> flag (class_step w e) a = flag w a.
Proof.
  intros Hne. apply flag_same_abilities. unfold class_step.
  destruct (decide (Schema.class_name e ∈ Views.seen w)) as [Hold|Hnew].
  - pose proof (Primacy.consolidate_step_old w e Hold) as Hflag.
    pose proof (Keeps.consolidate_step_rest w e) as Hrest.
    destruct (consolidate_step w e) as [[w1 is_new] entry]; simpl in *. subst is_new.
    destruct (Primacy.feature_choices_armor_weapons w1 (Schema.feature_choices e))
      as (_ & _ & ->).
    unfold Views.but_identity in Hrest. congruence.
  - rewrite (Primacy.consolidate_step_new w e Hnew).
    match goal with |- context [apply_class_base ?w1 e ?entry] =>
      destruct (Primacy.feature_choices_armor_weapons (apply_class_base w1 e entry)
                  (Schema.feature_choices e)) as (_ & _ & ->)
    end.
    unfold apply_class_base.
    change (sheet_classes (with_sheet _ w)) with (sheet_classes w ++ [Spec.introduce e]).
    rewrite (Primacy.is_primary_iff_first (sheet_classes w) e Hnew).
    rewrite bool_decide_eq_false_2.
    2:{ intros H. apply Hne. unfold Views.seen. rewrite H. reflexivity. }
    destruct (class_record _ _) as [r|]; [|reflexivity].
    destruct (cr_multiclassing_proficiencies r); reflexivity.
Qed.

(** The class consolidated first sets the flags of its saving throws. *)
Lemma class_step_flag_first w e a :
  Views.seen w = [] ->
  flag (class_step w e) a
  = (fun f => f || bool_decide (a ∈ Spec.primary_saves (compendium w) [e])) <$> flag w a.
Proof.
  intros Hs. unfold class_step.
  assert (Schema.class_name e ∉ Views.seen w) as Hnew.
  { rewrite Hs. intros H. inversion H. }
  rewrite (Primacy.consolidate_step_new w e Hnew).
  match goal with |- context [apply_class_base ?w1 e ?entry] =>
    destruct (Primacy.feature_choices_armor_weapons (apply_class_base w1 e entry)
                (Schema.feature_choices e)) as (_ & _ & Hab);
    rewrite (flag_same_abilities _ _ a Hab)
  end.
  unfold apply_class_base.
  change (sheet_classes (with_sheet _ w)) with (sheet_classes w ++ [Spec.introduce e]).
  rewrite (Primacy.is_primary_iff_first (sheet_classes w) e Hnew).
  rewrite bool_decide_eq_true_2.
  2:{ unfold Views.seen in Hs. destruct (sheet_classes w); [reflexivity|discriminate]. }
  unfold Spec.primary_saves.
  change (compendium (with_sheet _ w)) with (compendium w).
  destruct (class_record _ _) as [r|].
  - rewrite save_steps_flag. reflexivity.
  - match goal with |- flag ?w1 a = _ => change (flag w1 a) with (flag w a) end.
    destruct (flag w a); simpl; [|reflexivity].
    rewrite ?orb_false_r. reflexivity.
Qed.

Lemma class_steps_flag_later (l : list Schema.ClassLevelData) w a :
  Views.seen w <> [] -> flag (foldl class_step w l) a = flag w a.
Proof.
  revert w; induction l as [|e l IH]; intros w Hne; simpl; [reflexivity|].
  rewrite IH, class_step_flag_later; [reflexivity|exact Hne|].
  rewrite Primacy.seen_class_step. destruct (decide _); [exact Hne|].
  intros H. apply app_eq_nil in H as [_ H]. discriminate.
Qed.

Lemma class_steps_flag (l : list Schema.ClassLevelData) w a :
  Views.seen w = [] ->
  flag (foldl class_step w l) a
  = (fun f => f || bool_decide (a ∈ Spec.primary_saves (compendium w) l)) <$> flag w a.
Proof.
  intros Hs. destruct l as [|e l]; simpl.
  - destruct (flag w a); simpl; [|reflexivity].
    rewrite ?orb_false_r. reflexivity.
  - rewrite class_steps_flag_later.
    + apply class_step_flag_first, Hs.
    + rewrite Primacy.seen_class_step, Hs. simpl. discriminate.
Qed.

End Saves.

(** C3. Primacy stability: whatever the levels, the armor and weapon lists
    of the hydrated sheet are the full lists of the class record of the class
    introduced first, followed, for every class introduced later and in
    order of introduction, by the lists of that record's multiclassing
    proficiency table when it has one; and an ability of the sheet has its
    save-proficiency flag set exactly when it is a saving throw of the class
    introduced first, so that no later class sets a flag. *)
Theorem hydrate_primacy (self : Compendium) (d : Schema.CharacterData) :
  let s := RulesEngine.hydrate self d in
  Model.armor (Model.proficiencies s)
  = Spec.class_grants pt_armor self (Schema.classes d)
  /\ Model.weapons (Model.proficiencies s)
     = Spec.class_grants pt_weapons self (Schema.classes d)
  /\ forall a : string,
       Model.save_proficient <$> (Model.abilities s !! a)
       = if decide (a ∈ Model.ability_codes)
         then Some (bool_decide (a ∈ Spec.primary_saves self (Schema.classes d)))
         else None.
Proof.
  intros s. subst s. unfold RulesEngine.hydrate.
  rewrite Consolidation.hydrate_world_unfold.
  pose proof (Consolidation.before_classes_classes self d) as Hc.
  assert (Views.seen (Views.before_classes self d) = []) as Hs.
  { unfold Views.seen. rewrite Hc. reflexivity. }
  destruct (Consolidation.before_classes_inputs self d) as [Hself _].
  destruct (Primacy.class_steps_grants (Schema.classes d) _ Hs) as [Ha Hw].
  rewrite Hself in Ha, Hw.
  assert (RulesEngine.sheet_armor (Views.before_classes self d) = []
          /\ RulesEngine.sheet_weapons (Views.before_classes self d) = [])
    as [Ha0 Hw0].
  { unfold Views.before_classes.
    match goal with |- RulesEngine.sheet_armor (RulesEngine._apply_background ?w) = _ /\ _ =>
      pose proof (Keeps._apply_background_rest w) as Hb
    end.
    injection Hb as _ _ -> -> _. split; reflexivity. }
  rewrite Ha0 in Ha. rewrite Hw0 in Hw.
  split; [exact Ha|]. split; [exact Hw|].
  intros a.
  change (Views.flag (foldl RulesEngine.class_step (Views.before_classes self d)
                        (Schema.classes d)) a
          = if decide (a ∈ Model.ability_codes)
            then Some (bool_decide (a ∈ Spec.primary_saves self (Schema.classes d)))
            else None).
  rewrite (Saves.class_steps_flag (Schema.classes d) _ a Hs), Hself.
  rewrite Saves.before_classes_flag.
  destruct (decide _); reflexivity.
Qed.

(** ** Skills, tools and equipment through the class loop *)

Module Skills.
Import RulesEngine Views.

(** The class loop writes tools and equipment nowhere, and skills only in
    its feature-choice part. *)
Lemma around_feature_choices w e :
  exists w1,
    class_step w e = foldl feature_choice_step w1 (Schema.feature_choices e)
    /\ sheet_skills w1 = sheet_skills w
    /\ sheet_tools w1 = sheet_tools w
    /\ Model.equipment (sheet w1) = Model.equipment (sheet w).
Proof.
  unfold class_step.
  pose proof (Keeps.consolidate_step_rest w e) as Hrest.
  destruct (consolidate_step w e) as [[w1 is_new] entry]; simpl in Hrest.
  unfold Views.but_identity in Hrest. injection Hrest as _ Hp He.
  destruct is_new.
  - exists (apply_class_base w1 e entry). split; [reflexivity|].
    pose proof (Keeps.apply_class_base_rest w1 e entry) as Hb.
    unfold Views.but_class_base in Hb. injection Hb as _ -> -> ->.
    unfold sheet_skills, sheet_tools. rewrite Hp, He. auto.
  - exists w1. split; [reflexivity|].
    unfold sheet_skills, sheet_tools. rewrite Hp, He. auto.
Qed.

Lemma class_step_tools_equipment w e :
  sheet_tools (class_step w e) = sheet_tools w
  /\ Model.equipment (sheet (class_step w e)) = Model.equipment (sheet w).
Proof.
  destruct (around_feature_choices w e) as (w1 & -> & _ & <- & <-).
  pose proof (Keeps.feature_choices_rest w1 (Schema.feature_choices e)) as H.
  unfold Views.but_skills in H. injection H as _ _ _ _ Ht He. auto.
Qed.

Lemma class_steps_tools_equipment (l : list Schema.ClassLevelData) w :
  sheet_tools (foldl class_step w l) = sheet_tools w
  /\ Model.equipment (sheet (foldl class_step w l)) = Model.equipment (sheet w).
Proof.
  revert w; induction l as [|e l IH]; intros w; simpl; [auto|].
  destruct (IH (class_step w e)) as [-> ->]. apply class_step_tools_equipment.
Qed.

(** The four cases of the dispatch on a feature-choice key. *)
Lemma choice_expertise w key sel :
  PyStr.contains "_skill_" key = true -> sel <> "" ->
  PyStr.contains "_expertise" key = true ->
  sheet_skills (feature_choice_step w (key, sel)) = <[sel := 2]> (sheet_skills w).
Proof.
  intros Hk Hs He. apply truthy_true in Hs.
  unfold feature_choice_step. rewrite Hk, Hs, He. reflexivity.
Qed.

Lemma choice_proficiency w key sel :
  PyStr.contains "_skill_" key = true -> sel <> "" ->
  PyStr.contains "_expertise" key = false ->
  default 0 (sheet_skills w !! sel) < 2 ->
  sheet_skills (feature_choice_step w (key, sel)) = <[sel := 1]> (sheet_skills w).
Proof.
  intros Hk Hs He Hlt. apply truthy_true in Hs. apply Z.ltb_lt in Hlt.
  unfold feature_choice_step. rewrite Hk, Hs, He, Hlt. reflexivity.
Qed.

Lemma choice_kept w key sel :
  PyStr.contains "_skill_" key = true -> sel <> "" ->
  PyStr.contains "_expertise" key = false ->
  2 <= default 0 (sheet_skills w !! sel) ->
  feature_choice_step w (key, sel) = w.
Proof.
  intros Hk Hs He Hge. apply truthy_true in Hs. apply Z.ltb_ge in Hge.
  unfold feature_choice_step. rewrite Hk, Hs, He, Hge. reflexivity.
Qed.

Lemma choice_ignored w key sel :
  PyStr.contains "_skill_" key = false \/ sel = "" ->
  feature_choice_step w (key, sel) = w.
Proof.
  intros Hor. unfold feature_choice_step.
  assert ((PyStr.contains "_skill_" key && PyStr.truthy sel) = false) as ->.
  { destruct Hor as [->| ->]; [reflexivity|]. apply andb_false_r. }
  destruct (_ && _); reflexivity.
Qed.

(** Expertise survives one feature choice... *)
Lemma feature_choice_step_keeps_expertise w item s :
  sheet_skills w !! s = Some 2 ->
  sheet_skills (feature_choice_step w item) !! s = Some 2.
Proof.
  intros H2. destruct item as [key sel]. unfold feature_choice_step.
  destruct (PyStr.contains "_skill_" key && PyStr.truthy sel).
  - destruct (PyStr.contains "_expertise" key).
    + change (<[sel := 2]> (sheet_skills w) !! s = Some 2).
      destruct (decide (sel = s)) as [->|Hne].
      * apply lookup_insert_eq.
      * rewrite lookup_insert_ne by exact Hne. exact H2.
    + destruct (Z.ltb _ 2) eqn:Hlt; [|exact H2].
      change (<[sel := 1]> (sheet_skills w) !! s = Some 2).
      destruct (decide (sel = s)) as [->|Hne].
      * rewrite H2 in Hlt. discriminate.
      * rewrite lookup_insert_ne by exact Hne. exact H2.
  - destruct (_ && _); exact H2.
Qed.

(** ... any list of them ... *)
Lemma feature_choices_keep_expertise (items : list (string * string)) w s :
  sheet_skills w !! s = Some 2 ->
  sheet_skills (foldl feature_choice_step w items) !! s = Some 2.
Proof.
  revert w; induction items as [|item items IH]; intros w H2; simpl; [exact H2|].
  apply IH, feature_choice_step_keeps_expertise, H2.
Qed.

(** ... and the rest of the class loop. *)
Lemma class_steps_keep_expertise (l : list Schema.ClassLevelData) w s :
  sheet_skills w !! s = Some 2 ->
  sheet_skills (foldl class_step w l) !! s = Some 2.
Proof.
  revert w; induction l as [|e l IH]; intros w H2; simpl; [exact H2|].
  apply IH. destruct (around_feature_choices w e) as (w1 & -> & Hs & _).
  apply feature_choices_keep_expertise. rewrite Hs. exact H2.
Qed.

(** An expertise choice among the items of one entry wins. *)
Lemma feature_choices_reach_expertise (items : list (string * string)) w key s :
  (key, s) ∈ items ->
  PyStr.contains "_skill_" key = true -> PyStr.contains "_expertise" key = true ->
  s <> "" ->
  sheet_skills (foldl feature_choice_step w items) !! s = Some 2.
Proof.
  intros Hin Hk He Hs.
  apply list_elem_of_split in Hin as (pre & post & ->).
  rewrite foldl_app. cbn [foldl].
  apply feature_choices_keep_expertise.
  rewrite choice_expertise by assumption. apply lookup_insert_eq.
Qed.

(** Where a skill of the final map comes from. *)
Lemma feature_choice_step_origin w item s :
  is_Some (sheet_skills (feature_choice_step w item) !! s) ->
  is_Some (sheet_skills w !! s)
  \/ (item.2 = s /\ PyStr.contains "_skill_" item.1 = true /\ s <> "").
Proof.
  destruct item as [key sel]. simpl. unfold feature_choice_step.
  destruct (PyStr.contains "_skill_" key) eqn:Hk; simpl.
  2:{ destruct (_ && _); auto. }
  destruct (PyStr.truthy sel) eqn:Hs.
  2:{ destruct (_ && _); auto. }
  apply truthy_true in Hs.
  assert (forall v : Z, is_Some (<[sel := v]> (sheet_skills w) !! s) ->
            is_Some (sheet_skills w !! s) \/ (sel = s /\ true = true /\ s <> "")) as Hins.
  { intros v H. destruct (decide (sel = s)) as [->|Hne]; [right; auto|].
    rewrite lookup_insert_ne in H by exact Hne. left; exact H. }
  destruct (PyStr.contains "_expertise" key).
  - apply Hins.
  - destruct (Z.ltb _ 2); [apply Hins|auto].
Qed.

Lemma feature_choices_origin (items : list (string * string)) w s :
  is_Some (sheet_skills (foldl feature_choice_step w items) !! s) ->
  is_Some (sheet_skills w !! s)
  \/ exists key, (key, s) ∈ items /\ PyStr.contains "_skill_" key = true /\ s <> "".
Proof.
  revert w; induction items as [|item items IH]; intros w H; simpl in H; [auto|].
  apply IH in H as [H|(key & Hin & Hk)].
  - apply feature_choice_step_origin in H as [H|(Hsel & Hk & Hs)]; [auto|].
    right. exists item.1. destruct item as [key sel]; simpl in *. subst sel.
    split; [left|auto].
  - right. exists key. split; [right; exact Hin|exact Hk].
Qed.

Lemma class_steps_origin (l : list Schema.ClassLevelData) w s :
  is_Some (sheet_skills (foldl class_step w l) !! s) ->
  is_Some (sheet_skills w !! s)
  \/ exists e key,
       e ∈ l /\ (key, s) ∈ Schema.feature_choices e
       /\ PyStr.contains "_skill_" key = true /\ s <> "".
Proof.
  revert w; induction l as [|e l IH]; intros w H; simpl in H; [auto|].
  apply IH in H as [H|(e' & key & Hin & Hk)].
  - destruct (around_feature_choices w e) as (w1 & Heq & Hs & _).
    rewrite Heq in H. apply feature_choices_origin in H as [H|(key & Hin & Hk)].
    + left. rewrite <- Hs. exact H.
    + right. exists e, key. split; [left|auto].
  - right. exists e', key. split; [right; exact Hin|exact Hk].
Qed.

End Skills.

(** C4. Feature-choice skill dispatch and expertise monotonicity.  A choice
    whose key contains [_skill_] and whose value is non-empty sets the skill
    to 2 when the key also contains [_expertise], whatever its level was;
    otherwise it sets it to 1 when its level is below 2 and changes nothing
    when it is not; any other choice changes nothing.  A skill at level 2
    stays at level 2 through every later feature choice and class entry of
    the hydration, so a skill some feature choice sets to expertise is at
    level 2 on the hydrated sheet. *)
Theorem feature_choice_dispatch_monotone :
  (forall (w : RulesEngine.World) (key sel : string),
      PyStr.contains "_skill_" key = true -> sel <> "" ->
      (PyStr.contains "_expertise" key = true ->
       RulesEngine.sheet_skills (RulesEngine.feature_choice_step w (key, sel))
       = <[sel := 2]> (RulesEngine.sheet_skills w))
      /\ (PyStr.contains "_expertise" key = false ->
          default 0 (RulesEngine.sheet_skills w !! sel) < 2 ->
          RulesEngine.sheet_skills (RulesEngine.feature_choice_step w (key, sel))
          = <[sel := 1]> (RulesEngine.sheet_skills w))
      /\ (PyStr.contains "_expertise" key = false ->
          2 <= default 0 (RulesEngine.sheet_skills w !! sel) ->
          RulesEngine.feature_choice_step w (key, sel) = w))
  /\ (forall (w : RulesEngine.World) (key sel : string),
        PyStr.contains "_skill_" key = false \/ sel = "" ->
        RulesEngine.feature_choice_step w (key, sel) = w)
  /\ (forall (w : RulesEngine.World) (later : list Schema.ClassLevelData)
        (items : list (string * string)) (s : string),
        RulesEngine.sheet_skills w !! s = Some 2 ->
        RulesEngine.sheet_skills
          (foldl RulesEngine.class_step
             (foldl RulesEngine.feature_choice_step w items) later) !! s = Some 2)
  /\ (forall (self : Compendium) (d : Schema.CharacterData)
        (e : Schema.ClassLevelData) (key s : string),
        e ∈ Schema.classes d -> (key, s) ∈ Schema.feature_choices e ->
        PyStr.contains "_skill_" key = true ->
        PyStr.contains "_expertise" key = true -> s <> "" ->
        Model.skills (Model.proficiencies (RulesEngine.hydrate self d)) !! s = Some 2).
Proof.
  split; [|split; [|split]].
  - intros w key sel Hk Hs. split; [|split]; intros.
    + apply Skills.choice_expertise; assumption.
    + apply Skills.choice_proficiency; assumption.
    + apply Skills.choice_kept; assumption.
  - intros w key sel Hor. apply Skills.choice_ignored, Hor.
  - intros w later items s H2.
    apply Skills.class_steps_keep_expertise, Skills.feature_choices_keep_expertise, H2.
  - intros self d e key s He Hin Hk Hx Hs.
    unfold RulesEngine.hydrate. rewrite Consolidation.hydrate_world_unfold.
    apply list_elem_of_split in He as (pre & post & ->).
    rewrite foldl_app. cbn [foldl].
    apply Skills.class_steps_keep_expertise.
    destruct (Skills.around_feature_choices
                (foldl RulesEngine.class_step (Views.before_classes self d) pre) e)
      as (w1 & -> & _).
    eapply Skills.feature_choices_reach_expertise; eassumption.
Qed.

(** ** The background stage *)

Module Background.
Import RulesEngine Views.

Lemma before_classes_unfold self d :
  Views.before_classes self d = _apply_background (before_background self d).
Proof. reflexivity. Qed.

Lemma before_background_inputs self d :
  compendium (before_background self d) = self /\ data (before_background self d) = d.
Proof.
  unfold before_background.
  match goal with |- context [_apply_base_stats ?w] =>
    pose proof (Frame._apply_base_stats_inputs w) as H
  end.
  unfold Views.inputs in H. simpl in H. injection H as Hc Hd. auto.
Qed.

Lemma before_background_sheet self d :
  Model.proficiencies (sheet (before_background self d)) = Model.ProficiencySet_new
  /\ Model.equipment (sheet (before_background self d)) = [].
Proof.
  unfold before_background. split; [reflexivity|]. simpl.
  match goal with |- context [_apply_base_stats ?w] =>
    pose proof (Keeps._apply_base_stats_rest w) as H
  end.
  unfold Views.but_abilities in H. injection H as _ _ He. rewrite He. reflexivity.
Qed.

Lemma skill_steps_lookup (l : list string) w s :
  sheet_skills (foldl background_skill_step w l) !! s
  = if decide (s ∈ l) then Some 1 else sheet_skills w !! s.
Proof.
  revert w; induction l as [|skill l IH]; intros w; simpl; [reflexivity|].
  rewrite IH. destruct (decide (s ∈ l)) as [Hin|Hout].
  - rewrite decide_True by (right; exact Hin). reflexivity.
  - change (sheet_skills (background_skill_step w skill))
      with (<[skill := 1]> (sheet_skills w)).
    destruct (decide (s = skill)) as [->|Hne].
    + rewrite lookup_insert_eq, decide_True by left. reflexivity.
    + rewrite lookup_insert_ne by congruence.
      rewrite decide_False; [reflexivity|]. rewrite elem_of_cons. tauto.
Qed.

Lemma tool_step_tools w tool :
  sheet_tools (background_tool_step w tool)
  = if decide (tool ∈ sheet_tools w) then sheet_tools w else sheet_tools w ++ [tool].
Proof.
  unfold background_tool_step.
  destruct (decide (tool ∈ sheet_tools w)) as [Hin|Hout].
  - rewrite bool_decide_eq_true_2 by exact Hin. reflexivity.
  - rewrite bool_decide_eq_false_2 by exact Hout. reflexivity.
Qed.

Lemma tool_steps_tools (l : list string) w :
  (forall t, t ∈ sheet_tools (foldl background_tool_step w l)
             <-> t ∈ sheet_tools w \/ t ∈ l)
  /\ (NoDup (sheet_tools w) -> NoDup (sheet_tools (foldl background_tool_step w l)))
  /\ sheet_tools w `prefix_of` sheet_tools (foldl background_tool_step w l).
Proof.
  revert w; induction l as [|tool l IH]; intros w; simpl.
  - split; [|split]; [|auto|reflexivity].
    intros t. split; [auto|]. intros [H|H]; [exact H|inversion H].
  - destruct (IH (background_tool_step w tool)) as (Hmem & Hnd & Hpre).
    rewrite tool_step_tools in Hmem, Hnd, Hpre.
    destruct (decide (tool ∈ sheet_tools w)) as [Hin|Hout].
    + split; [|split]; [|exact Hnd|exact Hpre].
      intros t. rewrite Hmem, elem_of_cons. split; [tauto|].
      intros [H|[->|H]]; auto.
    + split; [|split].
      * intros t. rewrite Hmem, elem_of_app, list_elem_of_singleton, elem_of_cons. tauto.
      * intros Hw. apply Hnd. apply NoDup_app. split; [exact Hw|].
        split; [|apply NoDup_singleton].
        intros x Hx Hx'. apply list_elem_of_singleton in Hx'. subst x. tauto.
      * etransitivity; [|exact Hpre]. apply prefix_app_r. reflexivity.
Qed.

Lemma _apply_background_resolved w (record : BackgroundRecord) :
  Schema.background (Schema.identity (data w)) <> "" ->
  background_record (compendium w) (Schema.background (Schema.identity (data w)))
  = Some record ->
  _apply_background w
  = foldl background_tool_step
      (foldl background_skill_step w (pt_skills (br_proficiencies record)))
      (pt_tools (br_proficiencies record)).
Proof.
  intros Hbg Hrec. apply truthy_true in Hbg.
  unfold _apply_background. rewrite Hbg, Hrec. reflexivity.
Qed.

Lemma _apply_background_missed w :
  Schema.background (Schema.identity (data w)) = ""
  \/ background_record (compendium w) (Schema.background (Schema.identity (data w)))
     = None ->
  _apply_background w = w.
Proof.
  intros [Hbg|Hrec]; unfold _apply_background.
  - rewrite Hbg. reflexivity.
  - rewrite Hrec. destruct (negb _); reflexivity.
Qed.

(** The effect of the stage on skills, tools and equipment. *)
Lemma _apply_background_effect w (record : BackgroundRecord) :
  Schema.background (Schema.identity (data w)) <> "" ->
  background_record (compendium w) (Schema.background (Schema.identity (data w)))
  = Some record ->
  let w' := _apply_background w in
  (forall s, sheet_skills w' !! s
             = if decide (s ∈ pt_skills (br_proficiencies record)) then Some 1
               else sheet_skills w !! s)
  /\ (forall t, t ∈ sheet_tools w'
                <-> t ∈ sheet_tools w \/ t ∈ pt_tools (br_proficiencies record))
  /\ (NoDup (sheet_tools w) -> NoDup (sheet_tools w'))
  /\ sheet_tools w `prefix_of` sheet_tools w'
  /\ Model.equipment (sheet w') = Model.equipment (sheet w).
Proof.
  intros Hbg Hrec w'.
  pose proof (Keeps._apply_background_rest w) as Hrest.
  injection Hrest as _ _ _ _ He. fold w' in He.
  subst w'. rewrite (_apply_background_resolved w record Hbg Hrec) in *.
  set (ws := foldl background_skill_step w (pt_skills (br_proficiencies record))).
  pose proof (foldl_keeps _ Views.but_tools Keeps.background_tool_step_rest
                (pt_tools (br_proficiencies record)) ws) as Ht.
  pose proof (foldl_keeps _ Views.but_skills Keeps.background_skill_step_rest
                (pt_skills (br_proficiencies record)) w) as Hs.
  fold ws in Hs, He.
  unfold Views.but_tools in Ht. unfold Views.but_skills in Hs.
  injection Ht as _ _ Hsk _ _ _. injection Hs as _ _ _ _ Htl _.
  destruct (tool_steps_tools (pt_tools (br_proficiencies record)) ws) as (Hmem & Hnd & Hpre).
  rewrite Htl in Hmem, Hnd, Hpre.
  split; [|split; [|split; [|split]]]; try assumption.
  intros s. rewrite Hsk. apply skill_steps_lookup.
Qed.

(** A skill that is proficient or expert stays so through the class loop. *)
Lemma feature_choice_step_keeps_proficient w item s :
  sheet_skills w !! s = Some 1 \/ sheet_skills w !! s = Some 2 ->
  sheet_skills (feature_choice_step w item) !! s = Some 1
  \/ sheet_skills (feature_choice_step w item) !! s = Some 2.
Proof.
  intros [H1|H2]; [|right; apply Skills.feature_choice_step_keeps_expertise, H2].
  destruct item as [key sel]. unfold feature_choice_step.
  destruct (PyStr.contains "_skill_" key && PyStr.truthy sel).
  - destruct (PyStr.contains "_expertise" key).
    + change (<[sel := 2]> (sheet_skills w) !! s = Some 1
              \/ <[sel := 2]> (sheet_skills w) !! s = Some 2).
      destruct (decide (sel = s)) as [->|Hne].
      * right. apply lookup_insert_eq.
      * left. rewrite lookup_insert_ne by exact Hne. exact H1.
    + destruct (Z.ltb _ 2); [|left; exact H1].
      change (<[sel := 1]> (sheet_skills w) !! s = Some 1
              \/ <[sel := 1]> (sheet_skills w) !! s = Some 2).
      left. destruct (decide (sel = s)) as [->|Hne].
      * apply lookup_insert_eq.
      * rewrite lookup_insert_ne by exact Hne. exact H1.
  - destruct (_ && _); left; exact H1.
Qed.

Lemma class_steps_keep_proficient (l : list Schema.ClassLevelData) w s :
  sheet_skills w !! s = Some 1 \/ sheet_skills w !! s = Some 2 ->
  sheet_skills (foldl class_step w l) !! s = Some 1
  \/ sheet_skills (foldl class_step w l) !! s = Some 2.
Proof.
  revert w; induction l as [|e l IH]; intros w H; simpl; [exact H|].
  apply IH. destruct (Skills.around_feature_choices w e) as (w1 & -> & Hs & _).
  rewrite <- Hs in H. clear Hs. revert w1 H.
  induction (Schema.feature_choices e) as [|item items IHi]; intros w1 H; simpl;
    [exact H|].
  apply IHi, feature_choice_step_keeps_proficient, H.
Qed.

End Background.

(** From the state before the background stage to the returned sheet. *)
Lemma hydrate_after_background (self : Compendium) (d : Schema.CharacterData) :
  let w := RulesEngine._apply_background (Views.before_background self d) in
  Model.tools (Model.proficiencies (RulesEngine.hydrate self d))
  = RulesEngine.sheet_tools w
  /\ Model.equipment (RulesEngine.hydrate self d)
     = Model.equipment (RulesEngine.sheet w)
  /\ RulesEngine.hydrate self d
     = RulesEngine.sheet (foldl RulesEngine.class_step w (Schema.classes d)).
Proof.
  intros w. unfold RulesEngine.hydrate.
  rewrite Consolidation.hydrate_world_unfold, Background.before_classes_unfold.
  fold w.
  destruct (Skills.class_steps_tools_equipment (Schema.classes d) w) as [Ht He].
  split; [exact Ht|]. split; [exact He|reflexivity].
Qed.

(** C5. Background lookup-miss is a silent no-op: when [identity.background]
    is empty or resolves to no background record, the background stage
    returns the world it was given; the hydrated sheet, which [hydrate]
    returns all the same, has no tool, and each of its skills is the value
    of a [_skill_] feature choice of some class entry. *)
Theorem background_miss_is_noop (self : Compendium) (d : Schema.CharacterData) :
  Schema.background (Schema.identity d) = ""
  \/ background_record self (Schema.background (Schema.identity d)) = None ->
  (forall w : RulesEngine.World,
      RulesEngine.compendium w = self -> RulesEngine.data w = d ->
      RulesEngine._apply_background w = w)
  /\ Model.tools (Model.proficiencies (RulesEngine.hydrate self d)) = []
  /\ (forall s : string,
        is_Some (Model.skills (Model.proficiencies (RulesEngine.hydrate self d)) !! s) ->
        exists (e : Schema.ClassLevelData) (key : string),
          e ∈ Schema.classes d /\ (key, s) ∈ Schema.feature_choices e
          /\ PyStr.contains "_skill_" key = true /\ s <> "").
Proof.
  intros Hmiss.
  assert (forall w : RulesEngine.World,
             RulesEngine.compendium w = self -> RulesEngine.data w = d ->
             RulesEngine._apply_background w = w) as Hnoop.
  { intros w Hc Hd. apply Background._apply_background_missed.
    rewrite Hc, Hd. exact Hmiss. }
  split; [exact Hnoop|].
  destruct (Background.before_background_inputs self d) as [Hc Hd].
  destruct (Background.before_background_sheet self d) as [Hp _].
  destruct (hydrate_after_background self d) as (Ht & _ & Hh).
  cbv zeta in Ht, Hh. rewrite (Hnoop _ Hc Hd) in Ht, Hh.
  split.
  - rewrite Ht. unfold RulesEngine.sheet_tools. rewrite Hp. reflexivity.
  - intros s Hs. rewrite Hh in Hs.
    apply Skills.class_steps_origin in Hs as [Hs|Hs]; [|exact Hs].
    unfold RulesEngine.sheet_skills in Hs. rewrite Hp in Hs.
    simpl in Hs. rewrite lookup_empty in Hs. destruct Hs as [? Hs]. discriminate.
Qed.

(** C6. Background application: when [identity.background] resolves to a
    record, the background stage sets every skill listed under the record's
    [proficiencies.skills] to 1 and no other skill, appends the listed tools
    that are not yet present, so that the tool list gains no duplicate and
    keeps what it had in front, and leaves the equipment alone; on the
    hydrated sheet the listed skills are proficient (or expert, by a later
    feature choice), the tools are the listed ones without duplicates, and
    the equipment is that of a fresh sheet. *)
Theorem background_application (self : Compendium) (d : Schema.CharacterData)
    (record : BackgroundRecord) :
  Schema.background (Schema.identity d) <> "" ->
  background_record self (Schema.background (Schema.identity d)) = Some record ->
  (forall w : RulesEngine.World,
      RulesEngine.compendium w = self -> RulesEngine.data w = d ->
      let w' := RulesEngine._apply_background w in
      (forall s, RulesEngine.sheet_skills w' !! s
                 = if decide (s ∈ pt_skills (br_proficiencies record)) then Some 1
                   else RulesEngine.sheet_skills w !! s)
      /\ (forall t, t ∈ RulesEngine.sheet_tools w'
                    <-> t ∈ RulesEngine.sheet_tools w
                        \/ t ∈ pt_tools (br_proficiencies record))
      /\ (NoDup (RulesEngine.sheet_tools w) -> NoDup (RulesEngine.sheet_tools w'))
      /\ RulesEngine.sheet_tools w `prefix_of` RulesEngine.sheet_tools w'
      /\ Model.equipment (RulesEngine.sheet w') = Model.equipment (RulesEngine.sheet w))
  /\ (let s' := RulesEngine.hydrate self d in
      (forall s, s ∈ pt_skills (br_proficiencies record) ->
                 Model.skills (Model.proficiencies s') !! s = Some 1
                 \/ Model.skills (Model.proficiencies s') !! s = Some 2)
      /\ NoDup (Model.tools (Model.proficiencies s'))
      /\ (forall t, t ∈ Model.tools (Model.proficiencies s')
                    <-> t ∈ pt_tools (br_proficiencies record))
      /\ Model.equipment s' = []).
Proof.
  intros Hbg Hrec.
  assert (forall w : RulesEngine.World,
      RulesEngine.compendium w = self -> RulesEngine.data w = d ->
      let w' := RulesEngine._apply_background w in
      (forall s, RulesEngine.sheet_skills w' !! s
                 = if decide (s ∈ pt_skills (br_proficiencies record)) then Some 1
                   else RulesEngine.sheet_skills w !! s)
      /\ (forall t, t ∈ RulesEngine.sheet_tools w'
                    <-> t ∈ RulesEngine.sheet_tools w
                        \/ t ∈ pt_tools (br_proficiencies record))
      /\ (NoDup (RulesEngine.sheet_tools w) -> NoDup (RulesEngine.sheet_tools w'))
      /\ RulesEngine.sheet_tools w `prefix_of` RulesEngine.sheet_tools w'
      /\ Model.equipment (RulesEngine.sheet w') = Model.equipment (RulesEngine.sheet w))
    as Hstage.
  { intros w Hc Hd. subst self d.
    apply Background._apply_background_effect; assumption. }
  split; [exact Hstage|].
  destruct (Background.before_background_inputs self d) as [Hc Hd].
  destruct (Background.before_background_sheet self d) as [Hp He0].
  destruct (Hstage _ Hc Hd) as (Hsk & Hmem & Hnd & _ & He).
  destruct (hydrate_after_background self d) as (Ht & Heq & Hh).
  cbv zeta in *.
  assert (RulesEngine.sheet_tools (Views.before_background self d) = []) as Ht0.
  { unfold RulesEngine.sheet_tools. rewrite Hp. reflexivity. }
  rewrite Ht0 in Hmem, Hnd.
  split; [|split; [|split]].
  - intros s Hs. rewrite Hh.
    apply Background.class_steps_keep_proficient. left.
    rewrite Hsk, decide_True by exact Hs. reflexivity.
  - rewrite Ht. apply Hnd. constructor.
  - intros t. rewrite Ht, Hmem. split; [|auto].
    intros [H|H]; [inversion H|exact H].
  - rewrite Heq, He. exact He0.
Qed.

(** C7, as the code has it.  [hydrate] never assigns the sheet's equipment:
    the returned sheet has the empty equipment list of a fresh
    [CharacterSheet()], whatever inventory the decision record holds. *)
Theorem hydrate_equipment_of_fresh_sheet (self : Compendium) (d : Schema.CharacterData) :
  Model.equipment (RulesEngine.hydrate self d)
  = Model.equipment Model.CharacterSheet_new
  /\ forall inventory : list (list (string * Prim)),
       Model.equipment (RulesEngine.hydrate self (Schema.with_equipment d inventory))
       = Model.equipment (RulesEngine.hydrate self d).
Proof.
  assert (forall d', Model.equipment (RulesEngine.hydrate self d') = []) as H.
  { intros d'. destruct (hydrate_after_background self d') as (_ & -> & _).
    pose proof (Keeps._apply_background_rest (Views.before_background self d')) as Hb.
    injection Hb as _ _ _ _ ->.
    apply Background.before_background_sheet. }
  split; [apply H|]. intros inventory. rewrite !H. reflexivity.
Qed.

(** C7 fails as stated: a decision record holding one dagger hydrates to a
    sheet without equipment, so the sheet does not carry the record's
    equipment list under any correspondence of items. *)
Lemma equipment_not_copied_through :
  let d := Schema.with_equipment Examples.blank
             [[("name", PStr "Dagger"); ("quantity", PInt 1)]] in
  Model.equipment (RulesEngine.hydrate Examples.rules d) = []
  /\ ~ exists R, Spec.carries_equipment R d (RulesEngine.hydrate Examples.rules d).
Proof.
  split; [reflexivity|].
  intros [R H]. unfold Spec.carries_equipment in H.
  vm_compute in H. inversion H.
Qed.

(** ** Candidate lists *)

Module Dropdowns.
Import Leveling Views.

Lemma not_ltb_leb (s1 s2 : string) : String.ltb s2 s1 = false -> String.leb s1 s2 = true.
Proof.
  unfold String.ltb, String.leb. rewrite (String.compare_antisym s1 s2).
  destruct (String.compare s2 s1); simpl; congruence.
Qed.

Lemma ltb_leb (s1 s2 : string) : String.ltb s1 s2 = true -> String.leb s1 s2 = true.
Proof.
  unfold String.ltb, String.leb. destruct (String.compare s1 s2); congruence.
Qed.

Lemma insert_by_label_perm x l : Permutation (insert_by_label x l) (x :: l).
Proof.
  induction l as [|y l IH]; simpl; [reflexivity|].
  destruct (String.ltb (label y) (label x)); [|reflexivity].
  rewrite IH. apply perm_swap.
Qed.

Lemma sort_by_label_perm l : Permutation (sort_by_label l) l.
Proof.
  induction l as [|x l IH]; simpl; [reflexivity|].
  rewrite insert_by_label_perm. constructor. exact IH.
Qed.

Lemma insert_by_label_hd x y l :
  label_le y x -> HdRel label_le y l -> HdRel label_le y (insert_by_label x l).
Proof.
  intros Hyx Hl. destruct l as [|z l]; simpl.
  - constructor. exact Hyx.
  - destruct (String.ltb (label z) (label x)); constructor.
    + inversion Hl; assumption.
    + exact Hyx.
Qed.

Lemma insert_by_label_sorted x l :
  Sorted label_le l -> Sorted label_le (insert_by_label x l).
Proof.
  induction 1 as [|y l Hs IH Hhd]; simpl.
  - repeat constructor.
  - destruct (String.ltb (label y) (label x)) eqn:Hlt.
    + constructor; [exact IH|].
      apply insert_by_label_hd; [|exact Hhd]. apply ltb_leb, Hlt.
    + constructor; [constructor; assumption|].
      constructor. apply not_ltb_leb, Hlt.
Qed.

Lemma sort_by_label_sorted l : Sorted label_le (sort_by_label l).
Proof.
  induction l as [|x l IH]; simpl; [constructor|].
  apply insert_by_label_sorted, IH.
Qed.

Lemma value_elem_of (l : list FeatureOptionChoice) (v : string) :
  v ∈ map value l <-> exists opt, opt ∈ l /\ value opt = v.
Proof.
  rewrite list_elem_of_fmap. split; intros (opt & H1 & H2); exists opt; auto.
Qed.

(** The re-admission in a class slot. *)
Lemma skill_slot_keeps_current (available_all : list FeatureOptionChoice)
    (skill_list : list string) (current_val : string) :
  current_val <> "" -> current_val ∈ skill_list ->
  current_val ∈ map value (skill_slot_options available_all skill_list current_val).
Proof.
  intros Hne Hin. apply truthy_true in Hne.
  unfold skill_slot_options. rewrite Hne.
  rewrite (bool_decide_eq_true_2 (current_val ∈ skill_list)) by exact Hin.
  apply value_elem_of.
  assert (PyStr.lower current_val ∈ map PyStr.lower skill_list) as Hlow.
  { apply list_elem_of_fmap. exists current_val. auto. }
  destruct (decide (current_val ∈ map value available_all)) as [Hav|Hav].
  - rewrite (bool_decide_eq_true_2 _ Hav). simpl.
    apply value_elem_of in Hav as (opt & Hopt & Hval).
    exists opt. split; [|exact Hval].
    rewrite sort_by_label_perm. apply list_elem_of_filter.
    split; [rewrite Hval; exact Hlow|exact Hopt].
  - rewrite (bool_decide_eq_false_2 _ Hav). simpl.
    exists (choice_of current_val). split; [|reflexivity].
    rewrite sort_by_label_perm. apply list_elem_of_filter.
    split; [exact Hlow|]. apply elem_of_app. right. left.
Qed.

(** The re-admission in a feat slot. *)
Lemma feat_slot_keeps_current (available_skills : list FeatureOptionChoice)
    (skills : list string) (current_skill : string) :
  current_skill <> "" -> "any" ∈ skills \/ current_skill ∈ skills ->
  current_skill ∈ map value (feat_skill_options available_skills skills current_skill).
Proof.
  intros Hne Hallowed. apply truthy_true in Hne.
  unfold feat_skill_options. rewrite Hne.
  set (any := (bool_decide (skills = ["any"]) || bool_decide ("any" ∈ skills))%bool).
  assert ((any || bool_decide (current_skill ∈ skills))%bool = true) as Hguard.
  { destruct Hallowed as [H|H].
    - unfold any. rewrite (bool_decide_eq_true_2 _ H), orb_true_r. reflexivity.
    - rewrite (bool_decide_eq_true_2 _ H), orb_true_r. reflexivity. }
  rewrite Hguard.
  assert (any = false -> current_skill ∈ skills) as Hfilter.
  { intros Hany. destruct Hallowed as [H|H]; [|exact H].
    unfold any in Hany. rewrite (bool_decide_eq_true_2 _ H), orb_true_r in Hany.
    discriminate. }
  apply value_elem_of.
  destruct (decide (current_skill ∈ map value available_skills)) as [Hav|Hav].
  - rewrite (bool_decide_eq_true_2 _ Hav). simpl.
    apply value_elem_of in Hav as (opt & Hopt & Hval).
    exists opt. split; [|exact Hval].
    destruct any; [exact Hopt|].
    apply list_elem_of_filter. split; [rewrite Hval; auto|exact Hopt].
  - rewrite (bool_decide_eq_false_2 _ Hav). simpl.
    exists (choice_of current_skill). split; [|reflexivity].
    destruct any.
    + apply elem_of_app. right. left.
    + apply list_elem_of_filter. split; [simpl; auto|].
      apply elem_of_app. right. left.
Qed.

(** A feat slot keeps the order of the available options, a re-admitted
    current value coming last. *)
Lemma feat_skill_options_keeps_order (available : list FeatureOptionChoice)
    (allowed : list string) (current : string) :
  feat_skill_options available allowed current
    `sublist_of` available ++ [choice_of current].
Proof.
  unfold feat_skill_options.
  set (any := (bool_decide (allowed = ["any"]) || bool_decide ("any" ∈ allowed))%bool).
  set (readmit :=
         (PyStr.truthy current
          && negb (bool_decide (current ∈ map value available)))%bool).
  assert ((if readmit
           then if (any || bool_decide (current ∈ allowed))%bool
                then available ++ [choice_of current]
                else available
           else available)
          `sublist_of` available ++ [choice_of current]) as Hd.
  { destruct readmit; [destruct (any || _)%bool|];
      try reflexivity; apply sublist_inserts_r; reflexivity. }
  destruct any; [exact Hd|].
  etransitivity; [apply sublist_filter|exact Hd].
Qed.

End Dropdowns.

(** C8, as the code has it.  The candidate list of a skill slot contains the
    slot's stored value whenever that value is non-empty and permitted for
    the slot: in the class record's [skill_list] for a class skill slot; in
    the feat's skill list, or that list admits [any], for a feat slot.  This
    holds whatever the sheet already marks proficient, that is, for every
    list of still-available skills. *)
Theorem stored_choice_is_offered :
  (forall (available_all : list Leveling.FeatureOptionChoice) (class_name : string)
      (class_record : ClassRecord) (current_choices : list (string * string))
      (key current_val : string) (options : list Leveling.FeatureOptionChoice),
      (key, current_val, options)
        ∈ Leveling.primary_skill_dropdowns available_all class_name class_record
            current_choices ->
      current_val <> "" ->
      current_val ∈ pt_skill_list (cr_proficiencies class_record) ->
      current_val ∈ map Leveling.value options)
  /\ (forall (available_skills : list Leveling.FeatureOptionChoice)
        (skills : list string) (current_skill : string),
        current_skill <> "" -> "any" ∈ skills \/ current_skill ∈ skills ->
        current_skill
          ∈ map Leveling.value
              (Leveling.feat_skill_options available_skills skills current_skill)).
Proof.
  split.
  - intros available_all class_name class_record current_choices key current_val
      options Hslot Hne Hin.
    unfold Leveling.primary_skill_dropdowns in Hslot.
    destruct (_ && _)%bool; [|inversion Hslot].
    apply list_elem_of_fmap in Hslot as (i & Heq & _).
    injection Heq as _ Hcur ->. rewrite <- Hcur.
    apply Dropdowns.skill_slot_keeps_current; assumption.
  - apply Dropdowns.feat_slot_keeps_current.
Qed.

(** C8 fails as stated: the slot [rogue_skill_1] holds "Arcana", the hydrated
    sheet marks Arcana proficient, and the candidate list built for that slot
    does not contain it, Arcana not being in the rogue's skill list. *)
Lemma stored_choice_outside_class_list_is_dropped :
  let choices := [("rogue_skill_1", "Arcana")] in
  let d := Schema.with_classes Examples.blank [Examples.entry "rogue" 1 choices] in
  let s := RulesEngine.hydrate Examples.rules d in
  let available :=
    Leveling.get_available_skill_proficiencies Examples.skills_list s [] in
  Model.skills (Model.proficiencies s) !! "Arcana" = Some 1
  /\ (exists options,
        Leveling.primary_skill_dropdowns available "rogue" Examples.rogue choices !! 0%nat
        = Some ("rogue_skill_1", "Arcana", options)
        /\ "Arcana" ∉ map Leveling.value options)
  /\ (forall offered : list Leveling.FeatureOptionChoice,
        "Arcana"
          ∉ map Leveling.value
              (Leveling.skill_slot_options offered
                 (pt_skill_list (cr_proficiencies Examples.rogue)) "Arcana")).
Proof.
  split; [reflexivity|]. split.
  - exists [Leveling.choice_of "Acrobatics"; Leveling.choice_of "Deception";
            Leveling.choice_of "Stealth"].
    split; [vm_compute; reflexivity|].
    intros H. simpl in H.
    repeat (apply elem_of_cons in H as [H|H]; [discriminate|]).
    inversion H.
  - intros offered H.
    apply Dropdowns.value_elem_of in H as (opt & Hopt & Hval).
    unfold Leveling.skill_slot_options in Hopt.
    rewrite Dropdowns.sort_by_label_perm in Hopt.
    apply list_elem_of_filter in Hopt as [Hlow _].
    rewrite Hval in Hlow. vm_compute in Hlow.
    repeat (apply elem_of_cons in Hlow as [Hlow|Hlow]; [discriminate|]).
    inversion Hlow.
Qed.

(** A stored value that matches the class list only up to letter case is not
    re-admitted either: the guard compares exactly, the filter after it does
    not. *)
Example stored_choice_in_other_case :
  Leveling.skill_slot_options [Leveling.choice_of "Acrobatics"]
    ["acrobatics"; "stealth"] "Stealth"
  = [Leveling.choice_of "Acrobatics"].
Proof. reflexivity. Qed.

(** C9, as the code has it.  The candidate list of a class skill slot is
    sorted by display label in code-point order, capitals before small
    letters, and consists of options that were available or of the slot's
    current value. *)
Theorem skill_slot_options_order
    (available : list Leveling.FeatureOptionChoice) (allowed : list string)
    (current : string) :
  Sorted (fun a b => String.leb (Leveling.label a) (Leveling.label b) = true)
    (Leveling.skill_slot_options available allowed current)
  /\ (forall opt, opt ∈ Leveling.skill_slot_options available allowed current ->
                  opt ∈ available ++ [Leveling.choice_of current]).
Proof.
  split.
  - apply Dropdowns.sort_by_label_sorted.
  - intros opt. unfold Leveling.skill_slot_options.
    rewrite Dropdowns.sort_by_label_perm, list_elem_of_filter.
    intros [_ H]. destruct (_ && _)%bool; [destruct (bool_decide _)|];
      try exact H; apply elem_of_app; left; exact H.
Qed.

(** C9 fails as stated: with "Stealth" available and "arcana" the stored
    value of the slot, the class slot lists "Stealth" before "arcana", which
    is not the case-insensitive order; and a feat slot that re-admits the
    stored "Arcana" lists it after "Stealth". *)
Lemma candidate_list_not_sorted_case_insensitively :
  let class_slot :=
    Leveling.skill_slot_options [Leveling.choice_of "Stealth"]
      ["Stealth"; "arcana"] "arcana" in
  let feat_slot :=
    Leveling.feat_skill_options [Leveling.choice_of "Stealth"] ["any"] "Arcana" in
  class_slot = [Leveling.choice_of "Stealth"; Leveling.choice_of "arcana"]
  /\ ~ Spec.sorted_case_insensitive class_slot
  /\ feat_slot = [Leveling.choice_of "Stealth"; Leveling.choice_of "Arcana"]
  /\ ~ Spec.sorted_case_insensitive feat_slot.
Proof.
  assert (forall a b : string,
             String.leb (PyStr.lower a) (PyStr.lower b) = false ->
             ~ Spec.sorted_case_insensitive [Leveling.choice_of a; Leveling.choice_of b])
    as Hbad.
  { intros a b Hab Hs. inversion Hs as [|x l _ Hhd]; subst.
    inversion Hhd as [|y l' Hle]; subst. simpl in Hle. congruence. }
  split; [reflexivity|]. split; [apply Hbad; reflexivity|].
  split; [reflexivity|]. apply Hbad. reflexivity.
Qed.

(** ** The theorems at concrete inputs *)

(** A level-1 rogue taken first and nine wizard levels after it: the rogue's
    full lists and saving throws are granted, the wizard's are not. *)
Example rogue_first_wizard_ninth :
  let d :=
    Schema.with_classes Examples.blank
      ([Examples.entry "rogue" 1 []]
       ++ map (fun l => Examples.entry "wizard" l []) [1; 2; 3; 4; 5; 6; 7; 8; 9]) in
  let s := RulesEngine.hydrate Examples.rules d in
  Model.classes (Model.identity s)
  = [ {| Model.name := "rogue"; Model.level := 1; Model.subclass := None |};
      {| Model.name := "wizard"; Model.level := 9; Model.subclass := None |} ]
  /\ Model.armor (Model.proficiencies s) = ["Light armor"]
  /\ Model.weapons (Model.proficiencies s)
     = ["Simple weapons"; "Martial finesse weapons"]
  /\ map (fun a => Model.save_proficient <$> (Model.abilities s !! a))
       ["STR"; "DEX"; "CON"; "INT"; "WIS"; "CHA"]
     = [Some false; Some true; Some false; Some true; Some false; Some false].
Proof. vm_compute. repeat split. Qed.

(** Hydrating a default-constructed decision record. *)
Example hydrate_blank :
  let s := RulesEngine.hydrate Examples.rules Examples.blank in
  Model.classes (Model.identity s) = []
  /\ Model.proficiencies s = Model.ProficiencySet_new
  /\ map (fun a => Model.score <$> (Model.abilities s !! a)) Model.ability_codes
     = [Some 10; Some 10; Some 10; Some 10; Some 10; Some 10].
Proof. vm_compute. repeat split. Qed.

Lemma feature_choice_dispatch_monotone_witness :
  let first := Examples.entry "rogue" 1 [("rogue_skill_expertise_1", "Stealth")] in
  let second := Examples.entry "rogue" 2 [("rogue_skill_1", "Stealth")] in
  let d := Schema.with_classes Examples.blank [first; second] in
  let w := Views.before_classes Examples.rules d in
  RulesEngine.sheet_skills
    (RulesEngine.feature_choice_step w ("rogue_skill_expertise_1", "Stealth"))
  = <[ "Stealth" := 2 ]> (RulesEngine.sheet_skills w)
  /\ RulesEngine.sheet_skills (RulesEngine.feature_choice_step w ("rogue_skill_1", "Stealth"))
     = <[ "Stealth" := 1 ]> (RulesEngine.sheet_skills w)
  /\ RulesEngine.feature_choice_step w ("rogue_asi_4", "feat:Actor") = w
  /\ Model.skills (Model.proficiencies (RulesEngine.hydrate Examples.rules d)) !! "Stealth"
     = Some 2.
Proof.
  intros first second d w.
  split; [|split; [|split]].
  - apply (proj1 feature_choice_dispatch_monotone w "rogue_skill_expertise_1" "Stealth");
      [reflexivity|discriminate|reflexivity].
  - apply (proj1 feature_choice_dispatch_monotone w "rogue_skill_1" "Stealth");
      [reflexivity|discriminate|reflexivity|vm_compute; reflexivity].
  - apply (proj1 (proj2 feature_choice_dispatch_monotone) w "rogue_asi_4" "feat:Actor").
    left. reflexivity.
  - apply (proj2 (proj2 (proj2 feature_choice_dispatch_monotone))
             Examples.rules d first "rogue_skill_expertise_1" "Stealth");
      [left|left|reflexivity|reflexivity|discriminate].
Defined.

Lemma background_miss_is_noop_witness :
  let d := Schema.with_background
             (Schema.with_classes Examples.blank
                [Examples.entry "rogue" 1 [("rogue_skill_1", "Stealth")]])
             "nonexistent_key" in
  background_record Examples.rules "nonexistent_key" = None
  /\ Model.tools (Model.proficiencies (RulesEngine.hydrate Examples.rules d)) = [].
Proof.
  intros d. split; [reflexivity|].
  apply (background_miss_is_noop Examples.rules d). right. reflexivity.
Defined.

Lemma background_application_witness :
  let d := Schema.with_background Examples.blank "Criminal" in
  let s := RulesEngine.hydrate Examples.rules d in
  background_record Examples.rules "Criminal" = Some Examples.criminal
  /\ NoDup (Model.tools (Model.proficiencies s))
  /\ Model.equipment s = [].
Proof.
  intros d s. split; [reflexivity|].
  assert (Schema.background (Schema.identity d) <> "") as Hbg by discriminate.
  assert (background_record Examples.rules (Schema.background (Schema.identity d))
          = Some Examples.criminal) as Hrec by reflexivity.
  pose proof (proj2 (background_application Examples.rules d Examples.criminal Hbg Hrec))
    as (_ & Hnd & _ & He).
  split; [exact Hnd|exact He].
Defined.

Lemma stored_choice_is_offered_witness :
  let choices := [("rogue_skill_1", "Stealth")] in
  let d := Schema.with_classes Examples.blank [Examples.entry "rogue" 1 choices] in
  let s := RulesEngine.hydrate Examples.rules d in
  let available :=
    Leveling.get_available_skill_proficiencies Examples.skills_list s [] in
  let options :=
    Leveling.skill_slot_options available
      (pt_skill_list (cr_proficiencies Examples.rogue)) "Stealth" in
  Model.skills (Model.proficiencies s) !! "Stealth" = Some 1
  /\ ("Stealth" ∉ map Leveling.value available)
  /\ "Stealth" ∈ map Leveling.value options
  /\ "Stealth"
       ∈ map Leveling.value (Leveling.feat_skill_options available ["any"] "Stealth").
Proof.
  intros choices d s available options.
  split; [reflexivity|]. split.
  { intros H. vm_compute in H.
    repeat (apply elem_of_cons in H as [H|H]; [discriminate|]). inversion H. }
  split.
  - apply (proj1 stored_choice_is_offered available "rogue" Examples.rogue choices
             "rogue_skill_1" "Stealth" options).
    + left.
    + discriminate.
    + right. right. left.
  - apply (proj2 stored_choice_is_offered available ["any"] "Stealth").
    + discriminate.
    + left. left.
Defined.

Lemma skill_slot_options_order_witness :
  let available := [Leveling.choice_of "Stealth"; Leveling.choice_of "Acrobatics"] in
  let allowed := ["Acrobatics"; "Deception"; "Stealth"] in
  Leveling.skill_slot_options available allowed "Deception"
  = [Leveling.choice_of "Acrobatics"; Leveling.choice_of "Deception";
     Leveling.choice_of "Stealth"]
  /\ Sorted (fun a b => String.leb (Leveling.label a) (Leveling.label b) = true)
       (Leveling.skill_slot_options available allowed "Deception")
  /\ Leveling.choice_of "Deception" ∈ available ++ [Leveling.choice_of "Deception"].
Proof.
  intros available allowed. split; [reflexivity|].
  pose proof (skill_slot_options_order available allowed "Deception") as (Hs & Hm).
  split; [exact Hs|].
  apply Hm. right. left.
Defined.

(** * Further properties of the engine *)

(** ** The consolidated class list *)

Module Classes.
Import RulesEngine Views Reading.

Lemma hydrate_classes self d :
  Model.classes (Model.identity (hydrate self d)) = Spec.consolidated (Schema.classes d).
Proof.
  unfold hydrate. rewrite Consolidation.hydrate_world_unfold.
  change (sheet_classes (foldl class_step (before_classes self d) (Schema.classes d))
          = Spec.consolidated (Schema.classes d)).
  rewrite Consolidation.class_steps_classes, Consolidation.before_classes_classes.
  reflexivity.
Qed.

Lemma introductions_fresh (l : list Schema.ClassLevelData) (before : list string) :
  NoDup before ->
  NoDup (before ++ map Schema.class_name (Spec.introductions before l)).
Proof.
  revert before; induction l as [|e l IH]; intros before Hnd; simpl.
  - rewrite app_nil_r. exact Hnd.
  - destruct (decide (Schema.class_name e ∈ before)) as [Hin|Hout]; [apply IH, Hnd|].
    simpl. rewrite cons_middle, app_assoc. apply IH.
    apply NoDup_app. split; [exact Hnd|]. split; [|apply NoDup_singleton].
    intros x Hx Hx'. apply list_elem_of_singleton in Hx'. subst x. tauto.
Qed.

Lemma names_of_fold (l : list Schema.ClassLevelData) (acc : list Model.ClassProgression) :
  map Model.name (foldl Spec.merge_entry acc l)
  = map Model.name acc
    ++ map Schema.class_name (Spec.introductions (map Model.name acc) l).
Proof.
  revert acc; induction l as [|e l IH]; intros acc; simpl.
  - rewrite app_nil_r. reflexivity.
  - rewrite IH, Primacy.seen_merge.
    destruct (decide (Schema.class_name e ∈ map Model.name acc)); [reflexivity|].
    simpl. rewrite <- app_assoc. reflexivity.
Qed.

Lemma introductions_names (l : list Schema.ClassLevelData) (before : list string) (c : string) :
  c ∈ map Schema.class_name (Spec.introductions before l)
  <-> (c ∉ before) /\ c ∈ map Schema.class_name l.
Proof.
  revert before; induction l as [|e l IH]; intros before; simpl.
  - split; [intros H; inversion H|intros [_ H]; inversion H].
  - destruct (decide (Schema.class_name e ∈ before)) as [Hin|Hout].
    + rewrite IH, elem_of_cons. split; [tauto|].
      intros [Hc [->|H]]; tauto.
    + simpl. rewrite !elem_of_cons, IH, elem_of_app, list_elem_of_singleton.
      split.
      * intros [->|[Hc H]]; [tauto|]. split; [tauto|tauto].
      * intros [Hc [->|H]]; [tauto|].
        destruct (decide (c = Schema.class_name e)); [tauto|]. right. tauto.
Qed.

Lemma merge_entry_elem (acc : list Model.ClassProgression) (e : Schema.ClassLevelData)
    (c' : Model.ClassProgression) :
  NoDup (map Model.name acc) ->
  c' ∈ Spec.merge_entry acc e ->
  (c' ∈ acc /\ Model.name c' <> Schema.class_name e)
  \/ (exists c, c ∈ acc /\ Model.name c = Schema.class_name e /\ c' = Spec.raise c e)
  \/ ((Schema.class_name e ∉ map Model.name acc) /\ c' = Spec.introduce e).
Proof.
  induction acc as [|c acc IH]; simpl; intros Hnd Hin.
  - apply list_elem_of_singleton in Hin. right. right. split; [|exact Hin].
    intros H. inversion H.
  - apply NoDup_cons in Hnd as [Hc Hnd].
    destruct (decide (Model.name c = Schema.class_name e)) as [Heq|Hne].
    + apply elem_of_cons in Hin as [->|Hin].
      * right. left. exists c. split; [left|auto].
      * left. split; [right; exact Hin|].
        intros Hn. apply Hc. rewrite Heq, <- Hn.
        apply list_elem_of_fmap. exists c'. auto.
    + apply elem_of_cons in Hin as [->|Hin].
      * left. split; [left|exact Hne].
      * destruct (IH Hnd Hin) as [[H1 H2]|[(c0 & H1 & H2 & H3)|[H1 H2]]].
        -- left. split; [right; exact H1|exact H2].
        -- right. left. exists c0. split; [right; exact H1|auto].
        -- right. right. split; [|exact H2].
           rewrite elem_of_cons. intros [H|H]; [congruence|tauto].
Qed.

Lemma fold_levels (l : list Schema.ClassLevelData) :
  NoDup (map Model.name (Spec.consolidated l))
  /\ forall c, c ∈ Spec.consolidated l -> level_is_max l c.
Proof.
  unfold Spec.consolidated.
  induction l as [|e l [IHnd IH]] using rev_ind; simpl.
  - split; [constructor|]. intros c H. inversion H.
  - rewrite foldl_app. simpl.
    assert (NoDup (map Model.name (Spec.merge_entry (foldl Spec.merge_entry [] l) e)))
      as Hnd'.
    { rewrite Primacy.seen_merge. destruct (decide _) as [Hin|Hout]; [exact IHnd|].
      apply NoDup_app. split; [exact IHnd|]. split; [|apply NoDup_singleton].
      intros x Hx Hx'. apply list_elem_of_singleton in Hx'. subst x. tauto. }
    split; [exact Hnd'|].
    intros c' Hin.
    destruct (merge_entry_elem _ e c' IHnd Hin)
      as [[H1 H2]|[(c0 & H1 & H2 & ->)|[H1 ->]]].
    + destruct (IH c' H1) as [(e0 & He0 & Hn0 & Hl0) Hmax]. split.
      * exists e0. rewrite elem_of_app. auto.
      * intros e1 He1 Hn1. apply elem_of_app in He1 as [He1|He1]; [auto|].
        apply list_elem_of_singleton in He1. subst e1. congruence.
    + destruct (IH c0 H1) as [(e0 & He0 & Hn0 & Hl0) Hmax].
      unfold Spec.raise. cbn [Model.level Model.name]. split.
      * destruct (Z.max_spec (Model.level c0) (Schema.level e)) as [[_ Hm]|[_ Hm]].
        -- exists e. rewrite elem_of_app, list_elem_of_singleton. rewrite Hm. auto.
        -- exists e0. rewrite elem_of_app. rewrite Hm. auto.
      * intros e1 He1 Hn1.
        change (Schema.level e1 <= Z.max (Model.level c0) (Schema.level e)).
        apply elem_of_app in He1 as [He1|He1].
        -- specialize (Hmax e1 He1 Hn1). lia.
        -- apply list_elem_of_singleton in He1. subst e1. lia.
    + simpl. split.
      * exists e. rewrite elem_of_app, list_elem_of_singleton. auto.
      * intros e1 He1 Hn1. simpl in Hn1.
        apply elem_of_app in He1 as [He1|He1].
        -- exfalso. apply H1. rewrite names_of_fold. simpl.
           apply introductions_names. split; [intros H; inversion H|].
           rewrite <- Hn1. apply list_elem_of_fmap. exists e1. auto.
        -- apply list_elem_of_singleton in He1. subst e1. apply Z.le_refl.
Qed.

End Classes.

(** X1. The consolidated class list of a hydrated sheet names each class of
    the decision record exactly once, in the order in which the classes
    first occur in the record. *)
Theorem consolidated_names_distinct (self : Compendium) (d : Schema.CharacterData) :
  let names := map Model.name (Model.classes (Model.identity (RulesEngine.hydrate self d))) in
  NoDup names
  /\ names = map Schema.class_name (Spec.introductions [] (Schema.classes d))
  /\ forall c : string, c ∈ names <-> c ∈ map Schema.class_name (Schema.classes d).
Proof.
  intros names. subst names. rewrite Classes.hydrate_classes.
  unfold Spec.consolidated. rewrite Classes.names_of_fold. simpl.
  split; [apply (Classes.introductions_fresh (Schema.classes d) []); constructor|].
  split; [reflexivity|].
  intros c. rewrite Classes.introductions_names. split; [tauto|].
  intros H. split; [intros H'; inversion H'|exact H].
Qed.

(** X2. The level of a consolidated class is the largest level among the
    decision entries of that class: some entry of the class has that level
    and none has a larger one. *)
Theorem consolidated_level_is_max (self : Compendium) (d : Schema.CharacterData)
    (c : Model.ClassProgression) :
  c ∈ Model.classes (Model.identity (RulesEngine.hydrate self d)) ->
  (exists e, e ∈ Schema.classes d /\ Schema.class_name e = Model.name c
             /\ Schema.level e = Model.level c)
  /\ forall e, e ∈ Schema.classes d -> Schema.class_name e = Model.name c ->
               Schema.level e <= Model.level c.
Proof.
  rewrite Classes.hydrate_classes. intros Hc.
  apply (proj2 (Classes.fold_levels (Schema.classes d)) c Hc).
Qed.

Lemma consolidated_level_is_max_witness :
  let d := Schema.with_classes Examples.blank
             [Examples.entry "rogue" 1 []; Examples.entry "rogue" 5 [];
              Examples.entry "rogue" 2 []] in
  let c := {| Model.name := "rogue"; Model.level := 5; Model.subclass := None |} in
  c ∈ Model.classes (Model.identity (RulesEngine.hydrate Examples.rules d))
  /\ forall e, e ∈ Schema.classes d -> Schema.class_name e = "rogue" ->
               Schema.level e <= 5.
Proof.
  intros d c.
  assert (c ∈ Model.classes (Model.identity (RulesEngine.hydrate Examples.rules d)))
    as Hc by (vm_compute; left).
  split; [exact Hc|].
  exact (proj2 (consolidated_level_is_max Examples.rules d c Hc)).
Defined.

(** ** The skill map *)

Module SkillMap.
Import RulesEngine Views Reading.

Lemma in_range_insert (m : gmap string Z) (s : string) (v : Z) :
  v = 1 \/ v = 2 -> in_range m -> in_range (<[s := v]> m).
Proof.
  intros Hv Hm s' v' H. destruct (decide (s = s')) as [->|Hne].
  - rewrite lookup_insert_eq in H. congruence.
  - rewrite lookup_insert_ne in H by exact Hne. eapply Hm, H.
Qed.

Lemma feature_choice_step_in_range w item :
  in_range (sheet_skills w) -> in_range (sheet_skills (feature_choice_step w item)).
Proof.
  intros Hm. destruct item as [key sel]. unfold feature_choice_step.
  destruct (PyStr.contains "_skill_" key && PyStr.truthy sel).
  - destruct (PyStr.contains "_expertise" key).
    + apply (in_range_insert (sheet_skills w) sel 2); auto.
    + destruct (Z.ltb _ 2); [|exact Hm].
      apply (in_range_insert (sheet_skills w) sel 1); auto.
  - destruct (_ && _); exact Hm.
Qed.

Lemma class_steps_in_range (l : list Schema.ClassLevelData) w :
  in_range (sheet_skills w) -> in_range (sheet_skills (foldl class_step w l)).
Proof.
  revert w; induction l as [|e l IH]; intros w Hm; simpl; [exact Hm|].
  apply IH. destruct (Skills.around_feature_choices w e) as (w1 & -> & Hs & _).
  rewrite <- Hs in Hm. clear Hs. revert w1 Hm.
  induction (Schema.feature_choices e) as [|item items IHi]; intros w1 Hm; simpl;
    [exact Hm|].
  apply IHi, feature_choice_step_in_range, Hm.
Qed.

(** Keys are never removed. *)
Lemma feature_choice_step_keeps_keys w item s :
  is_Some (sheet_skills w !! s) ->
  is_Some (sheet_skills (feature_choice_step w item) !! s).
Proof.
  intros Hs. destruct item as [key sel]. unfold feature_choice_step.
  assert (forall v : Z, is_Some (<[sel := v]> (sheet_skills w) !! s)) as Hins.
  { intros v. destruct (decide (sel = s)) as [->|Hne].
    - rewrite lookup_insert_eq. eauto.
    - rewrite lookup_insert_ne by exact Hne. exact Hs. }
  destruct (PyStr.contains "_skill_" key && PyStr.truthy sel).
  - destruct (PyStr.contains "_expertise" key); [apply Hins|].
    destruct (Z.ltb _ 2); [apply Hins|exact Hs].
  - destruct (_ && _); exact Hs.
Qed.

Lemma feature_choices_keep_keys (items : list (string * string)) w s :
  is_Some (sheet_skills w !! s) ->
  is_Some (sheet_skills (foldl feature_choice_step w items) !! s).
Proof.
  revert w; induction items as [|item items IH]; intros w Hs; simpl; [exact Hs|].
  apply IH, feature_choice_step_keeps_keys, Hs.
Qed.

Lemma class_steps_keep_keys (l : list Schema.ClassLevelData) w s :
  is_Some (sheet_skills w !! s) ->
  is_Some (sheet_skills (foldl class_step w l) !! s).
Proof.
  revert w; induction l as [|e l IH]; intros w Hs; simpl; [exact Hs|].
  apply IH. destruct (Skills.around_feature_choices w e) as (w1 & -> & Heq & _).
  apply feature_choices_keep_keys. rewrite Heq. exact Hs.
Qed.

(** A skill choice with a value puts its skill on the map. *)
Lemma feature_choice_step_adds w key s :
  PyStr.contains "_skill_" key = true -> s <> "" ->
  is_Some (sheet_skills (feature_choice_step w (key, s)) !! s).
Proof.
  intros Hk Hs. apply truthy_true in Hs.
  unfold feature_choice_step. rewrite Hk, Hs. simpl.
  destruct (PyStr.contains "_expertise" key).
  - change (is_Some (<[s := 2]> (sheet_skills w) !! s)). rewrite lookup_insert_eq. eauto.
  - destruct (Z.ltb _ 2) eqn:Hlt.
    + change (is_Some (<[s := 1]> (sheet_skills w) !! s)). rewrite lookup_insert_eq. eauto.
    + destruct (sheet_skills w !! s) as [v|] eqn:Hv; [eauto|].
      simpl in Hlt. discriminate.
Qed.

Lemma class_steps_add (l : list Schema.ClassLevelData) w e key s :
  e ∈ l -> (key, s) ∈ Schema.feature_choices e ->
  PyStr.contains "_skill_" key = true -> s <> "" ->
  is_Some (sheet_skills (foldl class_step w l) !! s).
Proof.
  intros He Hin Hk Hs.
  apply list_elem_of_split in He as (pre & post & ->).
  rewrite foldl_app. cbn [foldl]. apply class_steps_keep_keys.
  destruct (Skills.around_feature_choices (foldl class_step w pre) e) as (w1 & -> & _).
  apply list_elem_of_split in Hin as (ipre & ipost & ->).
  rewrite foldl_app. cbn [foldl]. apply feature_choices_keep_keys.
  apply feature_choice_step_adds; assumption.
Qed.

(** Level 2 comes from an expertise choice. *)
Lemma feature_choice_step_expert_origin w item s :
  sheet_skills (feature_choice_step w item) !! s = Some 2 ->
  sheet_skills w !! s = Some 2
  \/ (item.2 = s /\ PyStr.contains "_skill_" item.1 = true
      /\ PyStr.contains "_expertise" item.1 = true /\ s <> "").
Proof.
  destruct item as [key sel]. simpl. unfold feature_choice_step.
  destruct (PyStr.contains "_skill_" key) eqn:Hk; simpl.
  2:{ destruct (_ && _); auto. }
  destruct (PyStr.truthy sel) eqn:Hs.
  2:{ destruct (_ && _); auto. }
  apply truthy_true in Hs.
  destruct (PyStr.contains "_expertise" key).
  - intros H. change (<[sel := 2]> (sheet_skills w) !! s = Some 2) in H.
    destruct (decide (sel = s)) as [->|Hne]; [auto|].
    rewrite lookup_insert_ne in H by exact Hne. auto.
  - destruct (Z.ltb _ 2); [|auto].
    intros H. change (<[sel := 1]> (sheet_skills w) !! s = Some 2) in H.
    destruct (decide (sel = s)) as [->|Hne].
    + rewrite lookup_insert_eq in H. discriminate.
    + rewrite lookup_insert_ne in H by exact Hne. auto.
Qed.

Lemma feature_choices_expert_origin (items : list (string * string)) w s :
  sheet_skills (foldl feature_choice_step w items) !! s = Some 2 ->
  sheet_skills w !! s = Some 2
  \/ exists key, (key, s) ∈ items /\ PyStr.contains "_skill_" key = true
                 /\ PyStr.contains "_expertise" key = true /\ s <> "".
Proof.
  revert w; induction items as [|item items IH]; intros w H; simpl in H; [auto|].
  apply IH in H as [H|(key & Hin & Hk)].
  - apply feature_choice_step_expert_origin in H as [H|(Hsel & Hk)]; [auto|].
    right. exists item.1. destruct item as [key sel]; simpl in *. subst sel.
    split; [left|exact Hk].
  - right. exists key. split; [right; exact Hin|exact Hk].
Qed.

Lemma class_steps_expert_origin (l : list Schema.ClassLevelData) w s :
  sheet_skills (foldl class_step w l) !! s = Some 2 ->
  sheet_skills w !! s = Some 2
  \/ exists e key,
       e ∈ l /\ (key, s) ∈ Schema.feature_choices e
       /\ PyStr.contains "_skill_" key = true
       /\ PyStr.contains "_expertise" key = true /\ s <> "".
Proof.
  revert w; induction l as [|e l IH]; intros w H; simpl in H; [auto|].
  apply IH in H as [H|(e' & key & Hin & Hk)].
  - destruct (Skills.around_feature_choices w e) as (w1 & Heq & Hs & _).
    rewrite Heq in H. apply feature_choices_expert_origin in H as [H|(key & Hin & Hk)].
    + left. rewrite <- Hs. exact H.
    + right. exists e, key. split; [left|auto].
  - right. exists e', key. split; [right; exact Hin|exact Hk].
Qed.

(** The skill map in front of the class loop: the background's skills. *)
Lemma before_classes_skills self d s :
  (forall v, sheet_skills (before_classes self d) !! s = Some v -> v = 1)
  /\ (is_Some (sheet_skills (before_classes self d) !! s) <-> background_skill self d s).
Proof.
  rewrite Background.before_classes_unfold.
  destruct (Background.before_background_inputs self d) as [Hc Hd].
  destruct (Background.before_background_sheet self d) as [Hp _].
  assert (sheet_skills (before_background self d) !! s = None) as H0.
  { unfold sheet_skills. rewrite Hp. apply lookup_empty. }
  unfold background_skill.
  destruct (decide (Schema.background (Schema.identity d) = "")) as [Hbg|Hbg].
  { rewrite Background._apply_background_missed by (rewrite Hd; auto).
    rewrite H0. split; [discriminate|].
    split; [intros [? ?]; discriminate|tauto]. }
  destruct (background_record self (Schema.background (Schema.identity d)))
    as [record|] eqn:Hrec.
  - destruct (Background._apply_background_effect (before_background self d) record)
      as (Hsk & _); [rewrite Hd; exact Hbg|rewrite Hc, Hd; exact Hrec|].
    cbv zeta in Hsk. rewrite Hsk, H0.
    destruct (decide (s ∈ pt_skills (br_proficiencies record))) as [Hin|Hout].
    + split; [congruence|]. split; [eauto|eauto].
    + split; [discriminate|]. split; [intros [? ?]; discriminate|].
      intros (_ & r & Hr & Hin). congruence.
  - rewrite Background._apply_background_missed by (rewrite Hc, Hd; auto).
    rewrite H0. split; [discriminate|].
    split; [intros [? ?]; discriminate|]. intros (_ & r & Hr & _). discriminate.
Qed.

Lemma hydrate_skills self d :
  Model.skills (Model.proficiencies (hydrate self d))
  = sheet_skills (foldl class_step (before_classes self d) (Schema.classes d)).
Proof. unfold hydrate. rewrite Consolidation.hydrate_world_unfold. reflexivity. Qed.

Lemma before_classes_in_range self d : in_range (sheet_skills (before_classes self d)).
Proof. intros s v H. left. eapply before_classes_skills, H. Qed.

End SkillMap.

(** X3. Every level on the skill map of a hydrated sheet is 1 (proficient)
    or 2 (expertise). *)
Theorem hydrated_skill_levels (self : Compendium) (d : Schema.CharacterData)
    (s : string) (v : Z) :
  Model.skills (Model.proficiencies (RulesEngine.hydrate self d)) !! s = Some v ->
  v = 1 \/ v = 2.
Proof.
  rewrite SkillMap.hydrate_skills.
  apply (SkillMap.class_steps_in_range (Schema.classes d)),
    SkillMap.before_classes_in_range.
Qed.

Lemma hydrated_skill_levels_witness :
  let d := Schema.with_background
             (Schema.with_classes Examples.blank
                [Examples.entry "rogue" 1 [("rogue_skill_expertise_1", "Stealth")]])
             "criminal" in
  Model.skills (Model.proficiencies (RulesEngine.hydrate Examples.rules d)) !! "Stealth"
  = Some 2
  /\ (2 = 1 \/ 2 = 2).
Proof.
  intros d.
  assert (Model.skills (Model.proficiencies (RulesEngine.hydrate Examples.rules d))
            !! "Stealth" = Some 2) as H by reflexivity.
  split; [exact H|].
  exact (hydrated_skill_levels Examples.rules d "Stealth" 2 H).
Defined.

(** X4. The skill map of a hydrated sheet does not depend on the order of
    the class entries or of their feature choices: a skill is at level 2
    exactly when some skill choice with [_expertise] in its key selects it;
    at level 1 exactly when no such choice does and it is selected by some
    skill choice or listed by the resolved background; and absent exactly
    when neither selects nor lists it. *)
Theorem hydrated_skill_map (self : Compendium) (d : Schema.CharacterData) (s : string) :
  let skills := Model.skills (Model.proficiencies (RulesEngine.hydrate self d)) in
  (skills !! s = Some 2 <-> Reading.expert d s)
  /\ (skills !! s = Some 1
      <-> ~ Reading.expert d s
          /\ (Reading.chosen d s \/ Reading.background_skill self d s))
  /\ (skills !! s = None
      <-> ~ Reading.chosen d s /\ ~ Reading.background_skill self d s).
Proof.
  intros skills. subst skills. rewrite SkillMap.hydrate_skills.
  set (w0 := Views.before_classes self d).
  set (m := RulesEngine.sheet_skills (foldl RulesEngine.class_step w0 (Schema.classes d))).
  destruct (SkillMap.before_classes_skills self d s) as [H01 H0bg]. fold w0 in H01, H0bg.
  assert (m !! s = Some 2 <-> Reading.expert d s) as Hexp.
  { split.
    - intros H. apply SkillMap.class_steps_expert_origin in H as [H|H].
      + apply H01 in H. discriminate.
      + destruct H as (e & key & He & Hin & Hk & Hx & Hs).
        exists key. split; [exists e; auto|exact Hx].
    - intros (key & (e & He & Hin & Hk & Hs) & Hx).
      apply list_elem_of_split in He as (pre & post & Heq).
      unfold m. rewrite Heq, foldl_app. cbn [foldl].
      apply Skills.class_steps_keep_expertise.
      destruct (Skills.around_feature_choices (foldl RulesEngine.class_step w0 pre) e)
        as (w1 & -> & _).
      eapply Skills.feature_choices_reach_expertise; eassumption. }
  assert (is_Some (m !! s) <-> Reading.chosen d s \/ Reading.background_skill self d s)
    as Hkey.
  { split.
    - intros H. apply Skills.class_steps_origin in H as [H|H].
      + right. apply H0bg, H.
      + left. destruct H as (e & key & He & Hin & Hk & Hs). exists key, e. auto.
    - intros [(key & e & He & Hin & Hk & Hs)|H].
      + eapply SkillMap.class_steps_add; eassumption.
      + apply SkillMap.class_steps_keep_keys, H0bg, H. }
  assert (forall v, m !! s = Some v -> v = 1 \/ v = 2) as Hrange.
  { intros v. apply (SkillMap.class_steps_in_range (Schema.classes d)),
      SkillMap.before_classes_in_range. }
  split; [exact Hexp|]. split.
  - split.
    + intros H1. split.
      * intros Hx. apply Hexp in Hx. congruence.
      * apply Hkey. eauto.
    + intros [Hnx Hsome]. apply Hkey in Hsome as [v Hv].
      destruct (Hrange v Hv) as [->| ->]; [exact Hv|].
      exfalso. apply Hnx, Hexp, Hv.
  - split.
    + intros Hnone. split; intros H.
      * assert (is_Some (m !! s)) as [v Hv] by (apply Hkey; auto). congruence.
      * assert (is_Some (m !! s)) as [v Hv] by (apply Hkey; auto). congruence.
    + intros [Hc Hb].
      assert (~ is_Some (m !! s)) as Hn by (rewrite Hkey; tauto).
      destruct (m !! s) as [v|]; [|reflexivity].
      exfalso. apply Hn. eauto.
Qed.

Lemma hydrated_skill_map_witness :
  let d := Schema.with_background
             (Schema.with_classes Examples.blank
                [Examples.entry "rogue" 1 [("rogue_skill_1", "Stealth")];
                 Examples.entry "rogue" 2 [("rogue_skill_expertise_1", "Stealth")]])
             "criminal" in
  Reading.expert d "Stealth"
  /\ Model.skills (Model.proficiencies (RulesEngine.hydrate Examples.rules d)) !! "Stealth"
     = Some 2.
Proof.
  intros d.
  assert (Reading.expert d "Stealth") as Hx.
  { exists "rogue_skill_expertise_1". split; [|reflexivity].
    exists (Examples.entry "rogue" 2 [("rogue_skill_expertise_1", "Stealth")]).
    split; [right; left|]. split; [left|]. split; [reflexivity|discriminate]. }
  split; [exact Hx|].
  exact (proj2 (proj1 (hydrated_skill_map Examples.rules d "Stealth")) Hx).
Defined.

(** ** Identity and ability scores *)

Module Projection.
Import RulesEngine Views Reading.

Lemma class_step_identity_fields w e :
  identity_fields (Model.identity (sheet (class_step w e)))
  = identity_fields (Model.identity (sheet w)).
Proof.
  unfold class_step.
  assert (identity_fields (Model.identity (sheet (consolidate_step w e).1.1))
          = identity_fields (Model.identity (sheet w))) as Hc.
  { unfold consolidate_step. destruct (list_find _ _) as [[i existing]|]; reflexivity. }
  destruct (consolidate_step w e) as [[w1 is_new] entry]; simpl in Hc.
  pose proof (Keeps.feature_choices_rest
                (if is_new then apply_class_base w1 e entry else w1)
                (Schema.feature_choices e)) as Hf.
  unfold but_skills in Hf. injection Hf as -> _ _ _ _ _.
  destruct is_new; [|exact Hc].
  pose proof (Keeps.apply_class_base_rest w1 e entry) as Hb.
  unfold but_class_base in Hb. injection Hb as -> _ _ _. exact Hc.
Qed.

Lemma save_step_score w save a : score_of (save_step w save) a = score_of w a.
Proof.
  unfold score_of, save_step.
  destruct (Model.abilities (sheet w) !! save) as [block|] eqn:Hs; [|reflexivity].
  simpl. destruct (decide (a = save)) as [->|Hne].
  - rewrite lookup_insert_eq, Hs. reflexivity.
  - rewrite lookup_insert_ne by congruence. reflexivity.
Qed.

Lemma score_same_abilities w w' a :
  Model.abilities (sheet w') = Model.abilities (sheet w) -> score_of w' a = score_of w a.
Proof. unfold score_of. intros ->. reflexivity. Qed.

Lemma apply_class_base_score w e entry a :
  score_of (apply_class_base w e entry) a = score_of w a.
Proof.
  unfold apply_class_base.
  destruct (class_record _ _) as [r|]; [|reflexivity].
  destruct (match sheet_classes w with [] => _ | _ => _ end).
  - rewrite (foldl_keeps save_step (fun w => score_of w a)); [reflexivity|].
    intros s b. apply save_step_score.
  - destruct (cr_multiclassing_proficiencies r); reflexivity.
Qed.

Lemma class_step_score w e a : score_of (class_step w e) a = score_of w a.
Proof.
  unfold class_step.
  pose proof (Keeps.consolidate_step_rest w e) as Hrest.
  destruct (consolidate_step w e) as [[w1 is_new] entry]; simpl in Hrest.
  unfold but_identity in Hrest. injection Hrest as Hab _ _.
  destruct (Primacy.feature_choices_armor_weapons
              (if is_new then apply_class_base w1 e entry else w1)
              (Schema.feature_choices e)) as (_ & _ & Hf).
  rewrite (score_same_abilities _ _ a Hf).
  destruct is_new; [rewrite apply_class_base_score|]; apply score_same_abilities, Hab.
Qed.

Lemma base_stat_steps_score (stats : list (string * Z)) w a :
  score_of (foldl base_stat_step w stats) a
  = (fun old => default old (stat_lookup a stats)) <$> score_of w a.
Proof.
  revert w; induction stats as [|[k v] stats IH]; intros w; cbn [foldl].
  - destruct (score_of w a); reflexivity.
  - rewrite IH.
    assert (score_of (base_stat_step w (k, v)) a
            = (fun old => if decide (k = a) then v else old) <$> score_of w a) as ->.
    { unfold score_of, base_stat_step.
      destruct (Model.abilities (sheet w) !! k) as [block|] eqn:Hk; simpl.
      - destruct (decide (k = a)) as [->|Hne].
        + rewrite lookup_insert_eq, Hk. reflexivity.
        + rewrite lookup_insert_ne by exact Hne.
          destruct (Model.abilities (sheet w) !! a); reflexivity.
      - destruct (decide (k = a)) as [->|Hne].
        + rewrite Hk. reflexivity.
        + destruct (Model.abilities (sheet w) !! a); reflexivity. }
    destruct (score_of w a) as [old|]; simpl; [|reflexivity].
    destruct (stat_lookup a stats); simpl; [reflexivity|].
    destruct (decide (k = a)); reflexivity.
Qed.

End Projection.

(** X5. Identity projection: the hydrated sheet's identity carries the
    decision record's name, ancestry, ancestry subtype, background,
    alignment, player name (as [player]), portrait path, experience points
    (as [experience]) and level cap, verbatim. *)
Theorem hydrate_mirrors_identity (self : Compendium) (d : Schema.CharacterData) :
  let i := Model.identity (RulesEngine.hydrate self d) in
  let src := Schema.identity d in
  Model.i_name i = Schema.name src
  /\ Model.ancestry i = Schema.ancestry src
  /\ Model.ancestry_subtype i = Schema.ancestry_subtype src
  /\ Model.background i = Schema.background src
  /\ Model.alignment i = Schema.alignment src
  /\ Model.player i = Schema.player_name src
  /\ Model.portrait_path i = Schema.portrait_path src
  /\ Model.experience i = Schema.xp src
  /\ Model.level_cap i = Schema.level_cap src.
Proof.
  intros i src.
  assert (Reading.identity_fields i
          = (Schema.name src, Schema.ancestry src, Schema.ancestry_subtype src,
             Schema.background src, Schema.alignment src, Schema.player_name src,
             Schema.portrait_path src, Schema.xp src, Schema.level_cap src)) as H.
  { subst i. unfold RulesEngine.hydrate. rewrite Consolidation.hydrate_world_unfold.
    rewrite (foldl_keeps RulesEngine.class_step
               (fun w => Reading.identity_fields (Model.identity (RulesEngine.sheet w)))
               Projection.class_step_identity_fields).
    unfold Views.before_classes.
    match goal with |- context [RulesEngine._apply_background ?w] =>
      pose proof (Keeps._apply_background_rest w) as Hb
    end.
    injection Hb as -> _ _ _ _. simpl.
    match goal with |- context [RulesEngine._apply_base_stats ?w] =>
      pose proof (Keeps._apply_base_stats_rest w) as Hs
    end.
    unfold Views.but_abilities in Hs. injection Hs as -> _ _. reflexivity. }
  unfold Reading.identity_fields in H.
  injection H as -> -> -> -> -> -> -> -> ->. repeat split.
Qed.

(** X6. Base ability projection: the hydrated sheet has exactly the six
    abilities; the score of each is the value [base_stats] gives for its
    code, or 10 when [base_stats] has no such key; keys of [base_stats] that
    are not ability codes are ignored. *)
Theorem hydrate_ability_scores (self : Compendium) (d : Schema.CharacterData)
    (a : string) :
  Model.score <$> (Model.abilities (RulesEngine.hydrate self d) !! a)
  = if decide (a ∈ Model.ability_codes)
    then Some (default 10 (Reading.stat_lookup a (Schema.base_stats d)))
    else None.
Proof.
  unfold RulesEngine.hydrate. rewrite Consolidation.hydrate_world_unfold.
  change (Reading.score_of
            (foldl RulesEngine.class_step (Views.before_classes self d) (Schema.classes d)) a
          = if decide (a ∈ Model.ability_codes)
            then Some (default 10 (Reading.stat_lookup a (Schema.base_stats d)))
            else None).
  rewrite (foldl_keeps RulesEngine.class_step (fun w => Reading.score_of w a)).
  2:{ intros w e. apply Projection.class_step_score. }
  unfold Views.before_classes.
  match goal with |- Reading.score_of (RulesEngine._apply_background ?w) a = _ =>
    pose proof (Keeps._apply_background_rest w) as Hb;
    rewrite (Projection.score_same_abilities w (RulesEngine._apply_background w))
      by congruence
  end.
  match goal with |- Reading.score_of (RulesEngine.with_sheet ?f ?w) a = _ =>
    change (Reading.score_of (RulesEngine.with_sheet f w) a) with (Reading.score_of w a)
  end.
  unfold RulesEngine._apply_base_stats.
  rewrite Projection.base_stat_steps_score.
  change (Reading.score_of (RulesEngine._apply_identity ?w) a)
    with (Model.score
            <$> (list_to_map
                   (map (fun code => (code, Model.AbilityBlock_new)) Model.ability_codes)
                 : gmap string Model.AbilityBlock) !! a).
  rewrite Saves.uniform_map_lookup.
  destruct (decide _); reflexivity.
Qed.

(** ** What [hydrate] reads *)

Module Independence.
Import RulesEngine Views Reading.

Ltac commute :=
  unfold redata; simpl;
  repeat first
    [ reflexivity
    | match goal with
      | |- context [match ?x with _ => _ end] => destruct x
      end ].

Lemma fold_redata {B : Type} (step : World -> B -> World) (d : Schema.CharacterData) :
  (forall w b, step (redata d w) b = redata d (step w b)) ->
  forall (l : list B) w, foldl step (redata d w) l = redata d (foldl step w l).
Proof.
  intros Hstep l. induction l as [|b l IH]; intros w; simpl; [reflexivity|].
  rewrite Hstep. apply IH.
Qed.

Lemma base_stat_step_redata d w item :
  base_stat_step (redata d w) item = redata d (base_stat_step w item).
Proof. unfold base_stat_step. destruct item. commute. Qed.

Lemma background_skill_step_redata d w skill :
  background_skill_step (redata d w) skill = redata d (background_skill_step w skill).
Proof. reflexivity. Qed.

Lemma background_tool_step_redata d w tool :
  background_tool_step (redata d w) tool = redata d (background_tool_step w tool).
Proof.
  unfold background_tool_step.
  change (sheet_tools (redata d w)) with (sheet_tools w).
  destruct (bool_decide _); reflexivity.
Qed.

Lemma save_step_redata d w save :
  save_step (redata d w) save = redata d (save_step w save).
Proof. unfold save_step. commute. Qed.

Lemma feature_choice_step_redata d w item :
  feature_choice_step (redata d w) item = redata d (feature_choice_step w item).
Proof.
  unfold feature_choice_step. destruct item as [key sel].
  change (sheet_skills (redata d w)) with (sheet_skills w).
  destruct (_ && _)%bool.
  - destruct (PyStr.contains "_expertise" key); [reflexivity|].
    destruct (Z.ltb _ 2); reflexivity.
  - destruct (_ && _)%bool; reflexivity.
Qed.

Lemma apply_class_base_redata d w e entry :
  apply_class_base (redata d w) e entry = redata d (apply_class_base w e entry).
Proof.
  unfold apply_class_base.
  change (compendium (redata d w)) with (compendium w).
  change (sheet_classes (redata d w)) with (sheet_classes w).
  destruct (class_record _ _) as [r|]; [|reflexivity].
  destruct (match sheet_classes w with [] => _ | _ => _ end).
  - rewrite <- (fold_redata save_step d (save_step_redata d)). reflexivity.
  - destruct (cr_multiclassing_proficiencies r); reflexivity.
Qed.

Lemma class_step_redata d w e :
  class_step (redata d w) e = redata d (class_step w e).
Proof.
  unfold class_step, consolidate_step.
  change (sheet_classes (redata d w)) with (sheet_classes w).
  destruct (list_find _ (sheet_classes w)) as [[i existing]|].
  - rewrite <- (fold_redata feature_choice_step d (feature_choice_step_redata d)).
    reflexivity.
  - rewrite <- (fold_redata feature_choice_step d (feature_choice_step_redata d)).
    f_equal. apply (apply_class_base_redata d
      (with_sheet
         (fun s => set_classes (Model.classes (Model.identity s) ++ [_]) s) w)).
Qed.

(** Two records that agree on identity, base stats and classes. *)
Lemma hydrate_world_redata self d d' :
  Schema.identity d' = Schema.identity d ->
  Schema.base_stats d' = Schema.base_stats d ->
  Schema.classes d' = Schema.classes d ->
  hydrate_world self d' = redata d' (hydrate_world self d).
Proof.
  intros Hi Hb Hc. unfold hydrate_world.
  set (w0 := {| compendium := self; data := d; sheet := Model.CharacterSheet_new |}).
  change {| compendium := self; data := d'; sheet := Model.CharacterSheet_new |}
    with (redata d' w0).
  assert (_apply_identity (redata d' w0) = redata d' (_apply_identity w0)) as ->.
  { unfold _apply_identity, redata, with_sheet. simpl. rewrite Hi. reflexivity. }
  set (w1 := _apply_identity w0).
  assert (data w1 = d) as Hd1 by reflexivity.
  assert (_apply_base_stats (redata d' w1) = redata d' (_apply_base_stats w1)) as ->.
  { unfold _apply_base_stats. change (data (redata d' w1)) with d'. rewrite Hd1, Hb.
    apply (fold_redata base_stat_step d' (base_stat_step_redata d')). }
  set (w2 := with_sheet (set_proficiencies Model.ProficiencySet_new) (_apply_base_stats w1)).
  change (with_sheet (set_proficiencies Model.ProficiencySet_new)
            (redata d' (_apply_base_stats w1))) with (redata d' w2).
  assert (data w2 = d) as Hd2.
  { pose proof (Frame._apply_base_stats_inputs w1) as H. unfold inputs in H.
    injection H as _ H. exact H. }
  assert (_apply_background (redata d' w2) = redata d' (_apply_background w2)) as ->.
  { unfold _apply_background. change (data (redata d' w2)) with d'.
    change (compendium (redata d' w2)) with (compendium w2). rewrite Hd2, Hi.
    destruct (negb _); [reflexivity|].
    destruct (background_record _ _) as [b|]; [|reflexivity].
    rewrite <- (fold_redata background_tool_step d' (background_tool_step_redata d')).
    f_equal. apply (fold_redata background_skill_step d' (background_skill_step_redata d')). }
  set (w3 := _apply_background w2).
  assert (data w3 = d) as Hd3.
  { pose proof (Frame._apply_background_inputs w2) as H. unfold inputs in H.
    injection H as _ H. unfold w3. rewrite H. exact Hd2. }
  unfold _apply_classes. change (data (redata d' w3)) with d'. rewrite Hd3, Hc.
  apply (fold_redata class_step d' (class_step_redata d')).
Qed.

End Independence.

(** X7. [hydrate] reads the identity, the base stats and the class entries
    of the decision record and nothing else: two records that agree on these
    three hydrate to the same sheet, whatever their version, id, background
    choices, equipment and notes. *)
Theorem hydrate_reads_three_fields (self : Compendium) (d d' : Schema.CharacterData) :
  Schema.identity d' = Schema.identity d ->
  Schema.base_stats d' = Schema.base_stats d ->
  Schema.classes d' = Schema.classes d ->
  RulesEngine.hydrate self d' = RulesEngine.hydrate self d.
Proof.
  intros Hi Hb Hc. unfold RulesEngine.hydrate.
  rewrite (Independence.hydrate_world_redata self d d' Hi Hb Hc). reflexivity.
Qed.

Lemma hydrate_reads_three_fields_witness :
  let d := Schema.with_classes Examples.blank [Examples.entry "rogue" 1 []] in
  let d' :=
    {| Schema.version := "2.0"; Schema.id := "other";
       Schema.identity := Schema.identity d; Schema.base_stats := Schema.base_stats d;
       Schema.classes := Schema.classes d;
       Schema.background_choices := [("background_skill_1", "Athletics")];
       Schema.equipment := [[("name", PStr "Rope")]];
       Schema.notes := [("bio", "born at sea")] |} in
  RulesEngine.hydrate Examples.rules d' = RulesEngine.hydrate Examples.rules d.
Proof.
  intros d d'.
  apply (hydrate_reads_three_fields Examples.rules d d'); reflexivity.
Defined.

(** * The leveling tab's handlers *)

Module TabFacts.
Import LevelingTab.

Lemma occurrences_nil c : occurrences c [] = 0.
Proof. reflexivity. Qed.

Lemma occurrences_cons c e l :
  occurrences c (e :: l)
  = (if decide (Schema.class_name e = c) then 1 else 0) + occurrences c l.
Proof.
  unfold occurrences. rewrite filter_cons.
  destruct (decide (Schema.class_name e = c)); simpl length; lia.
Qed.

Lemma occurrences_app c l1 l2 :
  occurrences c (l1 ++ l2) = occurrences c l1 + occurrences c l2.
Proof.
  unfold occurrences. rewrite filter_app, length_app. lia.
Qed.

Lemma occurrences_nonneg c l : 0 <= occurrences c l.
Proof. unfold occurrences. lia. Qed.

Lemma occurrences_pos c l :
  0 < occurrences c l <-> c ∈ map Schema.class_name l.
Proof.
  induction l as [|e l IH].
  - rewrite occurrences_nil. split; [lia|intros H; inversion H].
  - rewrite occurrences_cons. simpl. rewrite elem_of_cons.
    pose proof (occurrences_nonneg c l).
    destruct (decide (Schema.class_name e = c)) as [Heq|Hne].
    + split; [auto|lia].
    + split.
      * intros Hp. right. apply IH. lia.
      * intros [Heq|Hin]; [congruence|]. apply IH in Hin. lia.
Qed.

(** The loop, for any starting index and count. *)
Lemma find_from_spec (l : list Schema.ClassLevelData) (c : string) (n i count : Z) :
  0 <= i ->
  let r := find_data_index_from l c n i count in
  (r <> -1 ->
   exists pre e post,
     l = pre ++ e :: post /\ r = i + Z.of_nat (length pre)
     /\ Schema.class_name e = c /\ count + occurrences c pre + 1 = n)
  /\ (count < n <= count + occurrences c l -> r <> -1)
  /\ (n <= count \/ count + occurrences c l < n -> r = -1).
Proof.
  revert i count; induction l as [|e l IH]; intros i count Hi; simpl.
  - rewrite occurrences_nil. split; [congruence|]. split; [lia|auto].
  - rewrite occurrences_cons.
    destruct (String.eqb (Schema.class_name e) c) eqn:Heq.
    + apply String.eqb_eq in Heq. rewrite decide_True by exact Heq.
      destruct (Z.eqb (count + 1) n) eqn:Hn.
      * apply Z.eqb_eq in Hn. split; [|split].
        -- intros _. exists [], e, l. rewrite occurrences_nil. simpl.
           repeat split; auto; lia.
        -- lia.
        -- pose proof (occurrences_nonneg c l). lia.
      * apply Z.eqb_neq in Hn.
        destruct (IH (i + 1) (count + 1)) as (Hfound & Hin & Hout); [lia|].
        split; [|split].
        -- intros Hr. destruct (Hfound Hr) as (pre & e' & post & -> & Hri & Hc & Hcnt).
           exists (e :: pre), e', post. rewrite occurrences_cons, decide_True by exact Heq.
           simpl length. repeat split; auto; lia.
        -- intros Hrange. apply Hin. lia.
        -- intros Hrange. apply Hout. lia.
    + apply String.eqb_neq in Heq. rewrite decide_False by exact Heq.
      destruct (IH (i + 1) count) as (Hfound & Hin & Hout); [lia|].
      split; [|split].
      * intros Hr. destruct (Hfound Hr) as (pre & e' & post & -> & Hri & Hc & Hcnt).
        exists (e :: pre), e', post. rewrite occurrences_cons, decide_False by exact Heq.
        simpl length. repeat split; auto; lia.
      * intros Hrange. apply Hin. lia.
      * intros Hrange. apply Hout. lia.
Qed.

End TabFacts.

(** X8. [_find_data_index] returns the position of the [class_level]-th
    entry of the class: a result other than -1 splits the class list at an
    entry of that class that has [class_level - 1] entries of the class in
    front of it; the result is other than -1 exactly when [class_level] is
    between 1 and the number of entries of the class; and it is 0 exactly
    when the first entry is of that class and [class_level] is 1. *)
Theorem find_data_index_spec (self : LevelingTab.Tab) (d : Schema.CharacterData)
    (class_name : string) (class_level : Z) :
  LevelingTab._data self = Some d ->
  let r := LevelingTab._find_data_index self class_name class_level in
  (r <> -1 ->
   exists pre e post,
     Schema.classes d = pre ++ e :: post /\ r = Z.of_nat (length pre)
     /\ Schema.class_name e = class_name
     /\ LevelingTab.occurrences class_name pre + 1 = class_level)
  /\ (r <> -1
      <-> 1 <= class_level <= LevelingTab.occurrences class_name (Schema.classes d))
  /\ (r = 0
      <-> class_level = 1
          /\ exists e rest, Schema.classes d = e :: rest
                            /\ Schema.class_name e = class_name).
Proof.
  intros Hd r. subst r. unfold LevelingTab._find_data_index. rewrite Hd.
  destruct (TabFacts.find_from_spec (Schema.classes d) class_name class_level 0 0)
    as (Hfound & Hin & Hout); [lia|]. cbv zeta in *.
  set (r := LevelingTab.find_data_index_from (Schema.classes d) class_name class_level 0 0)
    in *.
  split; [|split].
  - intros Hr. destruct (Hfound Hr) as (pre & e & post & H1 & H2 & H3 & H4).
    exists pre, e, post. repeat split; auto; lia.
  - split.
    + intros Hr.
      destruct (decide (1 <= class_level
                        <= LevelingTab.occurrences class_name (Schema.classes d)))
        as [H|H]; [exact H|].
      exfalso. apply Hr, Hout. lia.
    + intros H. apply Hin. lia.
  - split.
    + intros H0. assert (r <> -1) as Hr by lia.
      destruct (Hfound Hr) as (pre & e & post & H1 & H2 & H3 & H4).
      destruct pre as [|e0 pre]; [|simpl in H2; lia].
      rewrite TabFacts.occurrences_nil in H4. split; [lia|].
      exists e, post. auto.
    + intros (-> & e & rest & Hl & Hc). unfold r. rewrite Hl. simpl.
      apply String.eqb_eq in Hc. rewrite Hc. reflexivity.
Qed.

Lemma find_data_index_spec_witness :
  let d := Schema.with_classes Examples.blank
             [Examples.entry "rogue" 1 []; Examples.entry "wizard" 1 [];
              Examples.entry "rogue" 2 []] in
  let self := {| LevelingTab._data := Some d; LevelingTab._engine := Examples.rules;
                 LevelingTab._sheet := RulesEngine.hydrate Examples.rules d |} in
  LevelingTab._find_data_index self "rogue" 2 = 2
  /\ 1 <= 2 <= LevelingTab.occurrences "rogue" (Schema.classes d).
Proof.
  intros d self. split; [reflexivity|].
  apply (proj1 (proj2 (find_data_index_spec self d "rogue" 2 eq_refl))).
  vm_compute. discriminate.
Defined.

Module Numbering.
Import LevelingTab TabFacts.

Lemma well_numbered_prefix l1 l2 : well_numbered (l1 ++ l2) -> well_numbered l1.
Proof.
  intros H pre e post Heq. apply (H pre e (post ++ l2)).
  rewrite Heq, <- app_assoc. reflexivity.
Qed.

Lemma well_numbered_snoc l e :
  well_numbered l ->
  Schema.level e = occurrences (Schema.class_name e) l + 1 ->
  well_numbered (l ++ [e]).
Proof.
  intros Hl He pre x post Heq.
  destruct post as [|y post _] using rev_ind.
  - apply app_inj_tail in Heq as [-> ->]. exact He.
  - rewrite app_comm_cons, app_assoc in Heq.
    apply app_inj_tail in Heq as [-> _]. apply (Hl pre x post). reflexivity.
Qed.

(** The last entry of a class that occurs. *)
Lemma last_occurrence c l :
  0 < occurrences c l ->
  exists pre e post,
    l = pre ++ e :: post /\ Schema.class_name e = c /\ occurrences c post = 0.
Proof.
  induction l as [|x l IH] using rev_ind.
  - rewrite occurrences_nil. lia.
  - rewrite occurrences_app, occurrences_cons, occurrences_nil.
    destruct (decide (Schema.class_name x = c)) as [Hx|Hx].
    + intros _. exists l, x, []. rewrite occurrences_nil. auto.
    + intros Hpos. destruct IH as (pre & e & post & -> & Hc & Hpost); [lia|].
      exists pre, e, (post ++ [x]). rewrite <- app_assoc. split; [reflexivity|].
      split; [exact Hc|].
      rewrite occurrences_app, occurrences_cons, occurrences_nil, decide_False by exact Hx.
      lia.
Qed.

Lemma well_numbered_bounds l e :
  well_numbered l -> e ∈ l ->
  1 <= Schema.level e <= occurrences (Schema.class_name e) l.
Proof.
  intros Hl Hin. apply list_elem_of_split in Hin as (pre & post & ->).
  rewrite (Hl pre e post eq_refl), occurrences_app, occurrences_cons.
  rewrite decide_True by reflexivity.
  pose proof (occurrences_nonneg (Schema.class_name e) pre).
  pose proof (occurrences_nonneg (Schema.class_name e) post). lia.
Qed.

(** Under the invariant a consolidated level counts the entries. *)
Lemma consolidated_level_counts l c :
  well_numbered l -> c ∈ Spec.consolidated l ->
  Model.level c = occurrences (Model.name c) l.
Proof.
  intros Hl Hc.
  destruct (proj2 (Classes.fold_levels l) c Hc) as [(e & He & Hn & Hlv) Hmax].
  pose proof (well_numbered_bounds l e Hl He) as Hb. rewrite Hn, Hlv in Hb.
  destruct (last_occurrence (Model.name c) l) as (pre & x & post & Heq & Hx & Hpost); [lia|].
  assert (Schema.level x <= Model.level c) as Hle.
  { apply Hmax; [|exact Hx]. rewrite Heq. apply elem_of_app. right. left. }
  rewrite (Hl pre x post Heq), Hx in Hle.
  assert (occurrences (Model.name c) l = occurrences (Model.name c) pre + 1) as Hocc.
  { rewrite Heq, occurrences_app, occurrences_cons, decide_True by exact Hx. lia. }
  lia.
Qed.

Lemma no_occurrence c l x :
  occurrences c l = 0 -> x ∈ l -> Schema.class_name x <> c.
Proof.
  intros H0 Hin Hc.
  assert (0 < occurrences c l); [|lia].
  apply occurrences_pos. rewrite <- Hc. apply list_elem_of_fmap. exists x. auto.
Qed.

Lemma removal_keeps_numbering pre e post :
  well_numbered (pre ++ e :: post) ->
  occurrences (Schema.class_name e) post = 0 ->
  well_numbered (pre ++ post).
Proof.
  intros Hl Hpost p x q Heq.
  apply app_eq_app in Heq as [k [[Hpre Hq]|[Hp Hq]]].
  - destruct k as [|y k]; simpl in Hq.
    + subst pre post. rewrite app_nil_r in Hl.
      assert (Schema.class_name x <> Schema.class_name e) as Hne.
      { apply (no_occurrence _ (x :: q)); [exact Hpost|left]. }
      rewrite (Hl (p ++ [e]) x q) by (rewrite <- app_assoc; reflexivity).
      rewrite occurrences_app, occurrences_cons, occurrences_nil.
      rewrite decide_False by auto. lia.
    + injection Hq as <- ->. subst pre.
      apply (Hl p x (k ++ e :: post)). rewrite <- app_assoc. reflexivity.
  - subst p post.
    assert (Schema.class_name x <> Schema.class_name e) as Hne.
    { apply (no_occurrence _ (k ++ x :: q)); [exact Hpost|].
      apply elem_of_app. right. left. }
    rewrite (Hl (pre ++ e :: k) x q) by (rewrite <- app_assoc; reflexivity).
    rewrite !occurrences_app, occurrences_cons.
    rewrite decide_False by auto. lia.
Qed.

End Numbering.

(** X9. When every entry of the decision record is numbered by its rank in
    its class, the level of each consolidated class on the hydrated sheet is
    the number of entries of that class, and every level from 1 up to it is
    backed by a decision entry: [_find_data_index] finds, for that class and
    level, the position of an entry of that class with that level marker. *)
Theorem well_numbered_levels (self : LevelingTab.Tab) (d : Schema.CharacterData)
    (c : Model.ClassProgression) :
  LevelingTab._data self = Some d ->
  LevelingTab.well_numbered (Schema.classes d) ->
  c ∈ Model.classes (Model.identity (RulesEngine.hydrate (LevelingTab._engine self) d)) ->
  Model.level c = LevelingTab.occurrences (Model.name c) (Schema.classes d)
  /\ forall lvl : Z,
       1 <= lvl <= Model.level c ->
       exists (i : nat) (e : Schema.ClassLevelData),
         LevelingTab._find_data_index self (Model.name c) lvl = Z.of_nat i
         /\ Schema.classes d !! i = Some e
         /\ Schema.class_name e = Model.name c /\ Schema.level e = lvl.
Proof.
  intros Hd Hwn Hc. rewrite Classes.hydrate_classes in Hc.
  pose proof (Numbering.consolidated_level_counts _ c Hwn Hc) as Hlevel.
  split; [exact Hlevel|].
  intros lvl Hlvl. unfold LevelingTab._find_data_index. rewrite Hd.
  destruct (TabFacts.find_from_spec (Schema.classes d) (Model.name c) lvl 0 0)
    as (Hfound & Hin & _); [lia|]. cbv zeta in *.
  destruct Hfound as (pre & e & post & Heq & Hr & Hn & Hcount); [apply Hin; lia|].
  exists (length pre), e. split; [lia|]. split.
  - rewrite Heq. apply list_lookup_middle. reflexivity.
  - split; [exact Hn|]. rewrite (Hwn pre e post Heq), Hn. lia.
Qed.

Lemma well_numbered_levels_witness :
  let d := Schema.with_classes Examples.blank
             [Examples.entry "rogue" 1 []; Examples.entry "wizard" 1 [];
              Examples.entry "rogue" 2 []] in
  let self := {| LevelingTab._data := Some d; LevelingTab._engine := Examples.rules;
                 LevelingTab._sheet := RulesEngine.hydrate Examples.rules d |} in
  LevelingTab.well_numbered (Schema.classes d)
  /\ LevelingTab.occurrences "rogue" (Schema.classes d) = 2.
Proof.
  intros d self.
  assert (LevelingTab.well_numbered (Schema.classes d)) as Hwn.
  { intros pre e post Heq. simpl in Heq.
    destruct pre as [|x1 pre]; [injection Heq as <- _; reflexivity|].
    injection Heq as <- Heq.
    destruct pre as [|x2 pre]; [injection Heq as <- _; reflexivity|].
    injection Heq as <- Heq.
    destruct pre as [|x3 pre]; [injection Heq as <- _; reflexivity|].
    injection Heq as <- Heq. destruct pre; discriminate. }
  split; [exact Hwn|].
  pose proof (well_numbered_levels self d
                {| Model.name := "rogue"; Model.level := 2; Model.subclass := None |}
                eq_refl Hwn) as H.
  symmetry. apply H. vm_compute. left.
Defined.

(** X10. Adding a class level keeps the numbering: [_on_add_level_clicked]
    appends one entry to a well-numbered record, the record stays
    well-numbered, and the rehydrated sheet shows the selected class one
    level above the number of entries it had. *)
Theorem add_level_keeps_numbering (self : LevelingTab.Tab) (d : Schema.CharacterData)
    (selected_class : string) :
  LevelingTab._data self = Some d -> selected_class <> "" ->
  LevelingTab.well_numbered (Schema.classes d) ->
  let self' := LevelingTab._on_add_level_clicked self (Some selected_class) in
  exists d',
    LevelingTab._data self' = Some d'
    /\ LevelingTab._sheet self' = RulesEngine.hydrate (LevelingTab._engine self) d'
    /\ LevelingTab.well_numbered (Schema.classes d')
    /\ length (Schema.classes d') = S (length (Schema.classes d))
    /\ exists c,
         c ∈ Model.classes (Model.identity (LevelingTab._sheet self'))
         /\ Model.name c = selected_class
         /\ Model.level c
            = LevelingTab.occurrences selected_class (Schema.classes d) + 1.
Proof.
  intros Hd Hsel Hwn self'. subst self'.
  apply truthy_true in Hsel.
  unfold LevelingTab._on_add_level_clicked, LevelingTab._get_next_class_level.
  rewrite Hsel, Hd. simpl negb. cbv iota.
  set (new_level :=
         {| Schema.class_name := selected_class;
            Schema.level := LevelingTab.occurrences selected_class (Schema.classes d) + 1;
            Schema.subclass := None; Schema.feature_choices := [] |}).
  set (d' := Schema.with_classes d (Schema.classes d ++ [new_level])).
  assert (LevelingTab.well_numbered (Schema.classes d')) as Hwn'.
  { apply Numbering.well_numbered_snoc; [exact Hwn|reflexivity]. }
  exists d'. split; [reflexivity|]. split; [reflexivity|]. split; [exact Hwn'|].
  split; [simpl; rewrite length_app; simpl; lia|].
  cbn [LevelingTab.rehydrated LevelingTab._sheet]. fold d'.
  rewrite Classes.hydrate_classes.
  assert (selected_class ∈ map Model.name (Spec.consolidated (Schema.classes d'))) as Hin.
  { unfold Spec.consolidated. rewrite Classes.names_of_fold. simpl.
    apply Classes.introductions_names. split; [intros H; inversion H|].
    simpl. rewrite map_app. apply elem_of_app. right. left. }
  apply list_elem_of_fmap in Hin as (c & Hname & Hc).
  exists c. split; [exact Hc|]. split; [auto|].
  rewrite (Numbering.consolidated_level_counts _ c Hwn' Hc), <- Hname. simpl.
  rewrite TabFacts.occurrences_app, TabFacts.occurrences_cons, TabFacts.occurrences_nil.
  rewrite decide_True by reflexivity. lia.
Qed.

Lemma add_level_keeps_numbering_witness :
  let d := Schema.with_classes Examples.blank [Examples.entry "rogue" 1 []] in
  let self := {| LevelingTab._data := Some d; LevelingTab._engine := Examples.rules;
                 LevelingTab._sheet := RulesEngine.hydrate Examples.rules d |} in
  LevelingTab.well_numbered (Schema.classes d)
  /\ exists d',
       LevelingTab._data (LevelingTab._on_add_level_clicked self (Some "rogue")) = Some d'
       /\ LevelingTab.well_numbered (Schema.classes d').
Proof.
  intros d self.
  assert (LevelingTab.well_numbered (Schema.classes d)) as Hwn.
  { intros pre e post Heq. simpl in Heq.
    destruct pre as [|x1 pre]; [injection Heq as <- _; reflexivity|].
    injection Heq as <- Heq. destruct pre; discriminate. }
  split; [exact Hwn|].
  assert ("rogue" <> "") as Hne by discriminate.
  destruct (add_level_keeps_numbering self d "rogue" eq_refl Hne Hwn)
    as (d' & H1 & _ & H3 & _).
  exists d'. split; [exact H1|exact H3].
Defined.

Module Choices.
Import LevelingTab.

Lemma get_after_set key value items :
  Leveling.choices_get (dict_set key value items) key = value.
Proof.
  induction items as [|[k v] items IH]; simpl.
  - rewrite String.eqb_refl. reflexivity.
  - destruct (String.eqb k key) eqn:Hk; simpl; rewrite Hk; [reflexivity|exact IH].
Qed.

Lemma get_other_after_set key value items other :
  other <> key ->
  Leveling.choices_get (dict_set key value items) other
  = Leveling.choices_get items other.
Proof.
  intros Hne. induction items as [|[k v] items IH]; simpl.
  - apply String.eqb_neq in Hne. rewrite String.eqb_sym, Hne. reflexivity.
  - destruct (String.eqb k key) eqn:Hk; simpl.
    + apply String.eqb_eq in Hk. subst k.
      apply not_eq_sym in Hne. apply String.eqb_neq in Hne. rewrite Hne. reflexivity.
    + rewrite IH. reflexivity.
Qed.

Lemma set_elem key value items : (key, value) ∈ dict_set key value items.
Proof.
  induction items as [|[k v] items IH]; simpl; [left|].
  destruct (String.eqb k key) eqn:Hk.
  - apply String.eqb_eq in Hk. subst k. left.
  - right. exact IH.
Qed.

Lemma set_keys key value items :
  map fst (dict_set key value items)
  = if decide (key ∈ map fst items) then map fst items else map fst items ++ [key].
Proof.
  induction items as [|[k v] items IH]; simpl; [reflexivity|].
  destruct (String.eqb k key) eqn:Hk; simpl.
  - apply String.eqb_eq in Hk. subst k. rewrite decide_True by left. reflexivity.
  - apply String.eqb_neq in Hk. rewrite IH.
    destruct (decide (key ∈ map fst items)) as [Hin|Hout].
    + rewrite decide_True by (right; exact Hin). reflexivity.
    + rewrite decide_False; [reflexivity|].
      rewrite elem_of_cons. intros [H|H]; [congruence|tauto].
Qed.

Lemma get_absent key items :
  key ∉ map fst items -> Leveling.choices_get items key = "".
Proof.
  induction items as [|[k v] items IH]; simpl; intros Hout; [reflexivity|].
  destruct (String.eqb k key) eqn:Hk.
  - apply String.eqb_eq in Hk. subst k. exfalso. apply Hout. left.
  - apply IH. intros H. apply Hout. right. exact H.
Qed.

Lemma del_keys key items :
  NoDup (map fst items) ->
  (key ∉ map fst (dict_del key items))
  /\ NoDup (map fst (dict_del key items))
  /\ forall other, other <> key ->
       Leveling.choices_get (dict_del key items) other
       = Leveling.choices_get items other.
Proof.
  induction items as [|[k v] items IH]; simpl; intros Hnd.
  - split; [intros H; inversion H|]. split; [constructor|reflexivity].
  - apply NoDup_cons in Hnd as [Hk Hnd].
    destruct (String.eqb k key) eqn:Heq.
    + apply String.eqb_eq in Heq. subst k. split; [exact Hk|]. split; [exact Hnd|].
      intros other Hne. apply not_eq_sym in Hne. apply String.eqb_neq in Hne.
      rewrite Hne. reflexivity.
    + destruct (IH Hnd) as (H1 & H2 & H3). apply String.eqb_neq in Heq.
      simpl. split; [|split].
      * rewrite elem_of_cons. intros [H|H]; [congruence|tauto].
      * apply NoDup_cons. split; [|exact H2].
        intros Hin. apply Hk.
        clear -Hin. induction items as [|[k' v'] items IH]; simpl in *; [inversion Hin|].
        destruct (String.eqb k' key); [right; exact Hin|].
        simpl in Hin. apply elem_of_cons in Hin as [->|Hin]; [left|right; auto].
      * intros other Hne. destruct (String.eqb k other); [reflexivity|]. apply H3, Hne.
Qed.

End Choices.

(** X11. A skill picked in a dropdown is on the next sheet: after
    [_on_feature_changed] stores a non-empty value under a [_skill_] key of
    an existing entry, the entry's choices return that value for the key and
    keep every other key's value, the number of entries is unchanged, and the
    rehydrated sheet has the skill at level 1 or 2; with an index outside the
    class list the handler changes nothing. *)
Theorem feature_change_reaches_sheet (self : LevelingTab.Tab)
    (d : Schema.CharacterData) (index : Z) (key value : string) :
  LevelingTab._data self = Some d ->
  let self' := LevelingTab._on_feature_changed self index key value in
  (index < 0 \/ Z.of_nat (length (Schema.classes d)) <= index -> self' = self)
  /\ (0 <= index < Z.of_nat (length (Schema.classes d)) ->
      PyStr.contains "_skill_" key = true -> value <> "" ->
      exists d' e e',
        LevelingTab._data self' = Some d'
        /\ Schema.classes d !! Z.to_nat index = Some e
        /\ Schema.classes d' !! Z.to_nat index = Some e'
        /\ length (Schema.classes d') = length (Schema.classes d)
        /\ Leveling.choices_get (Schema.feature_choices e') key = value
        /\ (forall other, other <> key ->
              Leveling.choices_get (Schema.feature_choices e') other
              = Leveling.choices_get (Schema.feature_choices e) other)
        /\ (Model.skills (Model.proficiencies (LevelingTab._sheet self')) !! value = Some 1
            \/ Model.skills (Model.proficiencies (LevelingTab._sheet self')) !! value
               = Some 2)).
Proof.
  intros Hd self'. subst self'. unfold LevelingTab._on_feature_changed. rewrite Hd.
  split.
  - intros Hout.
    assert ((Z.ltb index 0 || Z.leb (Z.of_nat (length (Schema.classes d))) index)%bool
            = true) as ->; [|reflexivity].
    apply orb_true_iff. destruct Hout as [H|H]; [left; apply Z.ltb_lt|right; apply Z.leb_le];
      exact H.
  - intros Hin Hk Hv.
    assert ((Z.ltb index 0 || Z.leb (Z.of_nat (length (Schema.classes d))) index)%bool
            = false) as ->.
    { apply orb_false_iff. split; [apply Z.ltb_ge|apply Z.leb_gt]; lia. }
    assert (Z.to_nat index < length (Schema.classes d))%nat as Hlt by lia.
    destruct (lookup_lt_is_Some_2 _ _ Hlt) as [e He]. rewrite He.
    apply truthy_true in Hv as Hv'. rewrite Hv'.
    set (e' := LevelingTab.with_feature_choices e
                 (LevelingTab.dict_set key value (Schema.feature_choices e))).
    set (d' := Schema.with_classes d (<[Z.to_nat index := e']> (Schema.classes d))).
    assert (Schema.classes d' !! Z.to_nat index = Some e') as He'.
    { apply list_lookup_insert_eq. exact Hlt. }
    exists d', e, e'. split; [reflexivity|]. split; [reflexivity|]. split; [exact He'|].
    split; [simpl; apply length_insert|].
    split; [apply Choices.get_after_set|].
    split; [intros other Hne; apply Choices.get_other_after_set, Hne|].
    cbn [LevelingTab.rehydrated LevelingTab._sheet]. fold d'.
    rewrite SkillMap.hydrate_skills.
    assert (is_Some (RulesEngine.sheet_skills
                       (foldl RulesEngine.class_step
                          (Views.before_classes (LevelingTab._engine self) d')
                          (Schema.classes d')) !! value)) as [v Hsome].
    { apply (SkillMap.class_steps_add _ _ e' key value).
      - eapply list_elem_of_lookup_2, He'.
      - apply Choices.set_elem.
      - exact Hk.
      - exact Hv. }
    rewrite Hsome.
    destruct (SkillMap.class_steps_in_range (Schema.classes d') _
                (SkillMap.before_classes_in_range (LevelingTab._engine self) d')
                value v Hsome) as [-> | ->]; auto.
Qed.

Lemma feature_change_reaches_sheet_witness :
  let d := Schema.with_classes Examples.blank [Examples.entry "rogue" 1 []] in
  let self := {| LevelingTab._data := Some d; LevelingTab._engine := Examples.rules;
                 LevelingTab._sheet := RulesEngine.hydrate Examples.rules d |} in
  let self' := LevelingTab._on_feature_changed self 0 "rogue_skill_1" "Stealth" in
  Model.skills (Model.proficiencies (LevelingTab._sheet self')) !! "Stealth" = Some 1
  /\ LevelingTab._on_feature_changed self 5 "rogue_skill_1" "Stealth" = self.
Proof.
  intros d self self'. split; [reflexivity|].
  apply (proj1 (feature_change_reaches_sheet self d 5 "rogue_skill_1" "Stealth" eq_refl)).
  right. simpl. lia.
Defined.

(** X12. Clearing a choice removes it: when the keys of an entry's feature
    choices are distinct, as those of a mapping are, [_on_feature_changed]
    with an empty value leaves the key without a value, keeps the keys
    distinct and keeps every other key's value. *)
Theorem feature_cleared (self : LevelingTab.Tab) (d : Schema.CharacterData)
    (index : nat) (e : Schema.ClassLevelData) (key : string) :
  LevelingTab._data self = Some d ->
  Schema.classes d !! index = Some e ->
  NoDup (map fst (Schema.feature_choices e)) ->
  exists d' e',
    LevelingTab._data (LevelingTab._on_feature_changed self (Z.of_nat index) key "")
    = Some d'
    /\ Schema.classes d' !! index = Some e'
    /\ Leveling.choices_get (Schema.feature_choices e') key = ""
    /\ NoDup (map fst (Schema.feature_choices e'))
    /\ forall other, other <> key ->
         Leveling.choices_get (Schema.feature_choices e') other
         = Leveling.choices_get (Schema.feature_choices e) other.
Proof.
  intros Hd He Hnd. unfold LevelingTab._on_feature_changed. rewrite Hd.
  pose proof (lookup_lt_Some _ _ _ He) as Hlt.
  assert ((Z.ltb (Z.of_nat index) 0
           || Z.leb (Z.of_nat (length (Schema.classes d))) (Z.of_nat index))%bool
          = false) as ->.
  { apply orb_false_iff. split; [apply Z.ltb_ge|apply Z.leb_gt]; lia. }
  rewrite Nat2Z.id, He. simpl PyStr.truthy. cbv iota.
  destruct (Choices.del_keys key (Schema.feature_choices e) Hnd) as (H1 & H2 & H3).
  eexists _, _. split; [reflexivity|]. split.
  { simpl. apply list_lookup_insert_eq. exact Hlt. }
  split; [apply Choices.get_absent, H1|]. split; [exact H2|exact H3].
Qed.

Lemma feature_cleared_witness :
  let e := Examples.entry "rogue" 1 [("rogue_skill_1", "Stealth"); ("rogue_skill_2", "Deception")] in
  let d := Schema.with_classes Examples.blank [e] in
  let self := {| LevelingTab._data := Some d; LevelingTab._engine := Examples.rules;
                 LevelingTab._sheet := RulesEngine.hydrate Examples.rules d |} in
  exists d' e',
    LevelingTab._data (LevelingTab._on_feature_changed self 0 "rogue_skill_1" "") = Some d'
    /\ Schema.classes d' !! 0%nat = Some e'
    /\ Leveling.choices_get (Schema.feature_choices e') "rogue_skill_1" = "".
Proof.
  intros e d self.
  assert (NoDup (map fst (Schema.feature_choices e))) as Hnd.
  { simpl. apply NoDup_cons. split; [|apply NoDup_singleton].
    intros H. apply list_elem_of_singleton in H. discriminate. }
  destruct (feature_cleared self d 0 e "rogue_skill_1" eq_refl eq_refl Hnd)
    as (d' & e' & H1 & H2 & H3 & _).
  exists d', e'. auto.
Defined.

(** X13. Removing a level: [_on_remove_entry_clicked] changes nothing when
    the class has no entry of that rank; otherwise it deletes exactly the
    entry of that rank, leaving the other entries and their level markers as
    they are, and rehydrates; when the rank is the last one of its class, a
    well-numbered record stays well-numbered and the class has one entry
    less. *)
Theorem remove_level_effect (self : LevelingTab.Tab) (d : Schema.CharacterData)
    (class_name : string) (level : Z) :
  LevelingTab._data self = Some d ->
  let self' := LevelingTab._on_remove_entry_clicked self class_name level in
  let total := LevelingTab.occurrences class_name (Schema.classes d) in
  (level < 1 \/ total < level -> self' = self)
  /\ (1 <= level <= total ->
      exists pre e post d',
        Schema.classes d = pre ++ e :: post
        /\ Schema.class_name e = class_name
        /\ LevelingTab.occurrences class_name pre + 1 = level
        /\ LevelingTab._data self' = Some d'
        /\ Schema.classes d' = pre ++ post
        /\ LevelingTab._sheet self' = RulesEngine.hydrate (LevelingTab._engine self) d'
        /\ (level = total -> LevelingTab.well_numbered (Schema.classes d) ->
            LevelingTab.well_numbered (Schema.classes d')
            /\ LevelingTab.occurrences class_name (Schema.classes d') = total - 1)).
Proof.
  intros Hd self' total. subst self'.
  unfold LevelingTab._on_remove_entry_clicked, LevelingTab._find_data_index.
  rewrite Hd.
  destruct (TabFacts.find_from_spec (Schema.classes d) class_name level 0 0)
    as (Hfound & Hin & Hout); [lia|]. cbv zeta in *.
  set (r := LevelingTab.find_data_index_from (Schema.classes d) class_name level 0 0) in *.
  split.
  - intros Hrange. rewrite Hout by (fold total; lia). reflexivity.
  - intros Hrange.
    assert (r <> -1) as Hr by (apply Hin; fold total; lia).
    destruct (Hfound Hr) as (pre & e & post & Heq & Hri & Hc & Hcount).
    apply Z.eqb_neq in Hr as Hr'. rewrite Hr'. simpl negb. cbv iota.
    assert (Z.to_nat r = length pre) as -> by lia.
    rewrite Heq, delete_middle.
    exists pre, e, post, (Schema.with_classes d (pre ++ post)).
    split; [reflexivity|]. split; [exact Hc|]. split; [lia|].
    split; [reflexivity|]. split; [reflexivity|]. split; [reflexivity|].
    intros Hlast Hwn. simpl Schema.classes.
    assert (LevelingTab.occurrences class_name post = 0) as Hpost.
    { unfold total in Hlast. rewrite Heq in Hlast.
      rewrite TabFacts.occurrences_app, TabFacts.occurrences_cons in Hlast.
      rewrite decide_True in Hlast by exact Hc. lia. }
    split.
    + apply (Numbering.removal_keeps_numbering pre e post); [exact Hwn|].
      rewrite Hc. exact Hpost.
    + rewrite TabFacts.occurrences_app. lia.
Qed.

Lemma remove_level_effect_witness :
  let d := Schema.with_classes Examples.blank
             [Examples.entry "rogue" 1 []; Examples.entry "wizard" 1 [];
              Examples.entry "rogue" 2 []] in
  let self := {| LevelingTab._data := Some d; LevelingTab._engine := Examples.rules;
                 LevelingTab._sheet := RulesEngine.hydrate Examples.rules d |} in
  LevelingTab._on_remove_entry_clicked self "rogue" 3 = self
  /\ exists d',
       LevelingTab._data (LevelingTab._on_remove_entry_clicked self "rogue" 2) = Some d'
       /\ Schema.classes d'
          = [Examples.entry "rogue" 1 []; Examples.entry "wizard" 1 []].
Proof.
  intros d self. split.
  - apply (proj1 (remove_level_effect self d "rogue" 3 eq_refl)). right. vm_compute.
    reflexivity.
  - eexists. split; reflexivity.
Defined.

(** * The rule-dataset accessor *)

Module ServiceFacts.
Import Service.

Lemma last_named_none {R : Type} (name_of : R -> option string) (key : string)
    (items : list R) :
  last_named name_of key items = None
  <-> Forall (fun x => merge_key name_of x <> Some key) items.
Proof.
  induction items as [|e items IH]; simpl.
  - split; [constructor|reflexivity].
  - rewrite Forall_cons. destruct (last_named name_of key items) as [r|].
    + split; [discriminate|]. intros [_ H]. apply IH in H. discriminate.
    + destruct (decide (merge_key name_of e = Some key)) as [He|He].
      * split; [discriminate|]. intros [H _]. contradiction.
      * split; [|reflexivity]. intros _. split; [exact He|]. apply IH. reflexivity.
Qed.

Lemma last_named_some {R : Type} (name_of : R -> option string) (key : string)
    (items : list R) (r : R) :
  last_named name_of key items = Some r
  <-> exists pre post,
        items = pre ++ r :: post /\ merge_key name_of r = Some key
        /\ Forall (fun x => merge_key name_of x <> Some key) post.
Proof.
  split.
  - revert r; induction items as [|e items IH]; simpl; intros r H; [discriminate|].
    destruct (last_named name_of key items) as [r'|] eqn:Hlast.
    + injection H as ->. destruct (IH r eq_refl) as (pre & post & -> & Hk & Hpost).
      exists (e :: pre), post. auto.
    + destruct (decide (merge_key name_of e = Some key)) as [He|He]; [|discriminate].
      injection H as ->. exists [], items. split; [reflexivity|]. split; [exact He|].
      apply last_named_none, Hlast.
  - intros (pre & post & -> & Hk & Hpost).
    apply last_named_none in Hpost.
    induction pre as [|x pre IH]; simpl.
    + rewrite Hpost, decide_True by exact Hk. reflexivity.
    + rewrite IH. reflexivity.
Qed.

Lemma index_fold_lookup {R : Type} (name_of : R -> string) (records : list R)
    (index : gmap string R) (key : string) :
  foldl (fun index record => <[_key (name_of record) := record]> index) index records
    !! key
  = match last_named (fun r => Some (name_of r)) key records with
    | Some r => Some r
    | None => index !! key
    end.
Proof.
  revert index; induction records as [|e records IH]; intros index; simpl;
    [reflexivity|].
  rewrite IH. destruct (last_named _ key records); [reflexivity|].
  unfold merge_key. simpl.
  destruct (decide (Some (_key (name_of e)) = Some key)) as [He|He].
  - injection He as <-. apply lookup_insert_eq.
  - apply lookup_insert_ne. congruence.
Qed.

Lemma index_lookup {R : Type} (name_of : R -> string) (records : list R) (key : string) :
  _index_by_name name_of records !! key
  = last_named (fun r => Some (name_of r)) key records.
Proof.
  unfold _index_by_name. rewrite index_fold_lookup, lookup_empty.
  destruct (last_named _ key records); reflexivity.
Qed.

Lemma requirement_met_monotone class_key (l l' : Z) (ks ks' kf kf' : gset string) p :
  l <= l' -> ks ⊆ ks' -> kf ⊆ kf' ->
  requirement_met class_key l ks kf p = true ->
  requirement_met class_key l' ks' kf' p = true.
Proof.
  intros Hl Hs Hf. destruct p as [r|]; simpl; [|auto].
  destruct (String.eqb (_key (req_type r)) "class").
  - destruct (_ && _)%bool; [auto|].
    destruct (Z.ltb l (required_level r)) eqn:H1; [discriminate|].
    apply Z.ltb_ge in H1. intros _.
    destruct (Z.ltb l' (required_level r)) eqn:H2; [|reflexivity].
    apply Z.ltb_lt in H2. lia.
  - destruct (String.eqb (_key (req_type r)) "spell").
    + rewrite !bool_decide_eq_true. set_solver.
    + destruct (String.eqb (_key (req_type r)) "feature"); [|auto].
      rewrite !bool_decide_eq_true. set_solver.
Qed.

Lemma _lowered_set_mono (values values' : list string) :
  values ⊆ values' -> _lowered_set values ⊆ _lowered_set values'.
Proof.
  intros Hsub k. unfold _lowered_set. rewrite !elem_of_list_to_set, !list_elem_of_fmap.
  intros (v & -> & Hv). exists v. split; [reflexivity|].
  apply list_elem_of_filter in Hv as [Ht Hin]. apply list_elem_of_filter. auto.
Qed.

End ServiceFacts.

(** X14. A record of an index built by [_index_by_name] is found under the
    key of any name with the same key, and it is the last record of the list
    with that key: [class_record] returns a record exactly when the class
    list splits at it with no record of the same key after it, and nothing
    exactly when no class has that key. *)
Theorem class_record_is_last_named (classes : list ClassRecord)
    (backgrounds : list BackgroundRecord) (name : string) :
  let rules := Compendium_init classes backgrounds in
  (forall r,
      class_record rules name = Some r
      <-> exists pre post,
            classes = pre ++ r :: post /\ _key (cr_name r) = _key name
            /\ Forall (fun x => _key (cr_name x) <> _key name) post)
  /\ (class_record rules name = None
      <-> Forall (fun x => _key (cr_name x) <> _key name) classes)
  /\ (forall b,
        background_record rules name = Some b
        <-> exists pre post,
              backgrounds = pre ++ b :: post /\ _key (br_name b) = _key name
              /\ Forall (fun x => _key (br_name x) <> _key name) post).
Proof.
  intros rules. subst rules. unfold class_record, background_record. simpl.
  rewrite !ServiceFacts.index_lookup.
  assert (forall (R : Type) (f : R -> string) (l : list R) (k : string),
             Forall (fun x => Service.merge_key (fun r => Some (f r)) x <> Some k) l
             <-> Forall (fun x => _key (f x) <> k) l) as Hforall.
  { intros R f l k. apply Forall_proper; [|reflexivity].
    intros x. unfold Service.merge_key. simpl. split; congruence. }
  split; [|split].
  - intros r. rewrite ServiceFacts.last_named_some.
    split; intros (pre & post & H1 & H2 & H3); exists pre, post;
      (split; [exact H1|]); unfold Service.merge_key in *; simpl in *;
      (split; [congruence|]); apply Hforall; exact H3.
  - rewrite ServiceFacts.last_named_none. apply Hforall.
  - intros b. rewrite ServiceFacts.last_named_some.
    split; intros (pre & post & H1 & H2 & H3); exists pre, post;
      (split; [exact H1|]); unfold Service.merge_key in *; simpl in *;
      (split; [congruence|]); apply Hforall; exact H3.
Qed.

(** X15. Gaining levels or knowledge never loses an invocation: a record
    whose prerequisites are met at some class level with some known spells
    and features still has them met at any higher level and with any larger
    sets, so every invocation offered by [invocations_for_class] at a level
    is offered at every higher level; a record without prerequisites is
    always offered, and one with a prerequisite of another type than class,
    spell or feature never is. *)
Theorem invocations_monotone :
  (forall prereqs class_key (l l' : Z) (ks ks' kf kf' : gset string),
      l <= l' -> ks ⊆ ks' -> kf ⊆ kf' ->
      Service._invocation_matches prereqs class_key l ks kf = true ->
      Service._invocation_matches prereqs class_key l' ks' kf' = true)
  /\ (forall records class_name (l l' : Z) spells spells' features features' record,
        l <= l' -> spells ⊆ spells' -> features ⊆ features' ->
        record ∈ Service.invocations_for_class records class_name l spells features ->
        record ∈ Service.invocations_for_class records class_name l' spells' features')
  /\ (forall class_key l ks kf,
        Service._invocation_matches [] class_key l ks kf = true)
  /\ (forall prereqs r class_key l ks kf,
        Service.Mapping r ∈ prereqs ->
        _key (Service.req_type r) <> "class" -> _key (Service.req_type r) <> "spell" ->
        _key (Service.req_type r) <> "feature" ->
        Service._invocation_matches prereqs class_key l ks kf = false).
Proof.
  assert (forall prereqs class_key (l l' : Z) (ks ks' kf kf' : gset string),
      l <= l' -> ks ⊆ ks' -> kf ⊆ kf' ->
      Service._invocation_matches prereqs class_key l ks kf = true ->
      Service._invocation_matches prereqs class_key l' ks' kf' = true) as Hmono.
  { intros prereqs class_key l l' ks ks' kf kf' Hl Hs Hf.
    unfold Service._invocation_matches. rewrite !forallb_forall.
    intros H p Hp. eapply ServiceFacts.requirement_met_monotone; eauto. }
  split; [exact Hmono|]. split; [|split].
  - intros records class_name l l' spells spells' features features' record Hl Hs Hf.
    unfold Service.invocations_for_class. rewrite !list_elem_of_filter.
    intros [Hm Hin]. split; [|exact Hin].
    eapply Hmono; [| | |exact Hm].
    + lia.
    + apply ServiceFacts._lowered_set_mono, Hs.
    + apply ServiceFacts._lowered_set_mono, Hf.
  - reflexivity.
  - intros prereqs r class_key l ks kf Hin H1 H2 H3.
    apply not_true_is_false. unfold Service._invocation_matches.
    rewrite forallb_forall. intros H.
    specialize (H (Service.Mapping r)). simpl in H.
    apply String.eqb_neq in H1, H2, H3. rewrite H1, H2, H3 in H.
    assert (false = true); [|discriminate]. apply H.
    apply list_elem_of_In, Hin.
Qed.

Lemma invocations_monotone_witness :
  let agonizing :=
    ("Agonizing Blast",
     [Service.Mapping {| Service.req_type := "Class"; Service.req_value := "Warlock";
                         Service.req_level := Some 2 |};
      Service.Mapping {| Service.req_type := "spell"; Service.req_value := "Eldritch Blast";
                         Service.req_level := None |}]) in
  agonizing ∈ Service.invocations_for_class [agonizing] "warlock" 2 ["eldritch blast"] []
  /\ agonizing
       ∈ Service.invocations_for_class [agonizing] "warlock" 5
           ["eldritch blast"; "hex"] ["pact of the blade"].
Proof.
  intros agonizing.
  assert (agonizing
            ∈ Service.invocations_for_class [agonizing] "warlock" 2 ["eldritch blast"] [])
    as H by (vm_compute; left).
  split; [exact H|].
  apply (proj1 (proj2 invocations_monotone) [agonizing] "warlock" 2 5
           ["eldritch blast"] ["eldritch blast"; "hex"] [] ["pact of the blade"] agonizing).
  - lia.
  - intros x Hx. apply list_elem_of_singleton in Hx. subst x. left.
  - intros x Hx. inversion Hx.
  - exact H.
Defined.

Lemma class_record_is_last_named_witness :
  class_record (Compendium_init [Examples.rogue; Examples.wizard] []) " ROGUE "
  = Some Examples.rogue.
Proof.
  apply (proj1 (class_record_is_last_named [Examples.rogue; Examples.wizard] [] " ROGUE ")).
  exists [], [Examples.wizard]. split; [reflexivity|]. split; [reflexivity|].
  constructor; [vm_compute; discriminate|constructor].
Defined.

Module MergeFacts.
Import Service.

Section Merge.
Context {R : Type} (name_of : R -> option string).

Lemma first_keys_fresh (items : list R) (seen : list string) :
  NoDup seen -> NoDup (seen ++ first_keys name_of seen items).
Proof.
  revert seen; induction items as [|e items IH]; intros seen Hnd; simpl.
  - rewrite app_nil_r. exact Hnd.
  - destruct (merge_key name_of e) as [key|]; [|apply IH, Hnd].
    destruct (decide (key ∈ seen)) as [Hin|Hout]; [apply IH, Hnd|].
    rewrite cons_middle, app_assoc. apply IH.
    apply NoDup_app. split; [exact Hnd|]. split; [|apply NoDup_singleton].
    intros x Hx Hx'. apply list_elem_of_singleton in Hx'. subst x. tauto.
Qed.

Lemma ingest_spec (items : list R) (combined : gmap string R) (keys : list string) :
  (forall k, k ∈ keys <-> is_Some (combined !! k)) ->
  let state := _ingest name_of (combined, keys) items in
  (forall k, state.1 !! k
             = match last_named name_of k items with
               | Some r => Some r
               | None => combined !! k
               end)
  /\ state.2 = keys ++ first_keys name_of keys items
  /\ (forall k, k ∈ state.2 <-> is_Some (state.1 !! k)).
Proof.
  revert combined keys; induction items as [|e items IH]; intros combined keys Hinv.
  - simpl. rewrite app_nil_r. auto.
  - unfold _ingest. cbn [foldl last_named first_keys].
    destruct (name_of e) as [name|] eqn:Hname.
    + assert (merge_key name_of e = Some (_key name)) as Hmk
        by (unfold merge_key; rewrite Hname; reflexivity).
      set (key := _key name) in *.
      set (keys' := if decide (is_Some (combined !! key)) then keys else keys ++ [key]).
      assert (ingest_step name_of (combined, keys) e = (<[key := e]> combined, keys'))
        as Hstep by (unfold ingest_step; rewrite Hname; reflexivity).
      rewrite Hstep, Hmk.
      assert (forall k, k ∈ keys' <-> is_Some (<[key := e]> combined !! k)) as Hinv'.
      { intros k. unfold keys'. destruct (decide (k = key)) as [->|Hne].
        - rewrite lookup_insert_eq. split; [eauto|]. intros _.
          destruct (decide (is_Some (combined !! key))) as [Hs|Hs].
          + apply Hinv, Hs.
          + apply elem_of_app. right. left.
        - rewrite lookup_insert_ne by congruence.
          destruct (decide (is_Some (combined !! key))) as [Hs|Hs]; [apply Hinv|].
          rewrite elem_of_app, list_elem_of_singleton. split.
          + intros [H|H]; [apply Hinv, H|contradiction].
          + intros H. left. apply Hinv, H. }
      destruct (IH (<[key := e]> combined) keys' Hinv') as (Hlook & Hkeys & Hinv'').
      unfold _ingest in Hlook, Hkeys, Hinv''.
      split; [|split; [|exact Hinv'']].
      * intros k. rewrite Hlook. destruct (last_named name_of k items); [reflexivity|].
        destruct (decide (Some key = Some k)) as [Hk|Hk].
        -- injection Hk as <-. apply lookup_insert_eq.
        -- apply lookup_insert_ne. congruence.
      * rewrite Hkeys. unfold keys'.
        destruct (decide (is_Some (combined !! key))) as [Hs|Hs].
        -- rewrite decide_True by (apply Hinv, Hs). reflexivity.
        -- rewrite decide_False by (rewrite Hinv; exact Hs).
           rewrite <- app_assoc. reflexivity.
    + assert (merge_key name_of e = None) as Hmk
        by (unfold merge_key; rewrite Hname; reflexivity).
      assert (ingest_step name_of (combined, keys) e = (combined, keys))
        as Hstep by (unfold ingest_step; rewrite Hname; reflexivity).
      rewrite Hstep, Hmk.
      destruct (IH combined keys Hinv) as (Hlook & Hkeys & Hinv').
      unfold _ingest in Hlook, Hkeys, Hinv'.
      split; [|split; [exact Hkeys|exact Hinv']].
      intros k. rewrite Hlook. destruct (last_named name_of k items); [reflexivity|].
      rewrite decide_False by discriminate. reflexivity.
Qed.

End Merge.

End MergeFacts.

(** X16. [_merge_named_records] never fails on a missing key and returns
    one record for each distinct key of the named entries of [existing]
    followed by [additions], in the order in which the keys first appear,
    each being the last entry given for its key: an addition replaces the
    existing record of the same key in its place, and an addition with a
    new key comes after all earlier ones. *)
Theorem merge_named_records_spec {R : Type} (name_of : R -> option string)
    (existing additions : list R) :
  let keys := Service.first_keys name_of [] (existing ++ additions) in
  exists result,
    Service._merge_named_records name_of existing additions = Some result
    /\ NoDup keys
    /\ map (Service.merge_key name_of) result = map Some keys
    /\ Forall2
         (fun key r => Service.last_named name_of key (existing ++ additions) = Some r)
         keys result.
Proof.
  intros keys. unfold Service._merge_named_records.
  change (Service._ingest name_of (Service._ingest name_of (∅, []) existing) additions)
    with (foldl (Service.ingest_step name_of)
            (foldl (Service.ingest_step name_of) (∅, []) existing) additions).
  rewrite <- foldl_app.
  destruct (MergeFacts.ingest_spec name_of (existing ++ additions) ∅ [])
    as (Hlook & Hkeys & Hinv).
  { intros k. rewrite lookup_empty. split; [intros H; inversion H|intros [? ?]; discriminate]. }
  cbv zeta in *. unfold Service._ingest in *.
  destruct (foldl (Service.ingest_step name_of) (∅, []) (existing ++ additions))
    as [combined ordered_keys]. simpl in *. subst ordered_keys. fold keys in Hinv |- *.
  assert (forall k, k ∈ keys ->
            exists r, combined !! k = Some r
                      /\ Service.last_named name_of k (existing ++ additions) = Some r) as Hall.
  { intros k Hk. apply Hinv in Hk as [r Hr]. exists r. split; [exact Hr|].
    rewrite Hlook in Hr. rewrite lookup_empty in Hr.
    destruct (Service.last_named name_of k (existing ++ additions)); [exact Hr|discriminate]. }
  assert (exists result, Forall2 (fun key r => combined !! key = Some r) keys result)
    as [result Hres].
  { clear -Hall. induction keys as [|k keys IH]; [exists []; constructor|].
    destruct (Hall k) as (r & Hr & _); [left|].
    destruct IH as [result Hres]; [intros k' Hk'; apply Hall; right; exact Hk'|].
    exists (r :: result). constructor; assumption. }
  exists result. split; [apply mapM_Some, Hres|].
  split; [apply (MergeFacts.first_keys_fresh name_of (existing ++ additions) []); constructor|].
  assert (Forall2
            (fun key r => Service.last_named name_of key (existing ++ additions) = Some r)
            keys result) as Hlast.
  { eapply Forall2_impl; [exact Hres|]. intros k r Hr. simpl in Hr.
    rewrite Hlook, lookup_empty in Hr.
    destruct (Service.last_named name_of k (existing ++ additions)); [exact Hr|discriminate]. }
  split; [|exact Hlast].
  clear -Hlast. induction Hlast as [|k r keys result Hr _ IH]; [reflexivity|].
  simpl. rewrite IH. f_equal.
  apply ServiceFacts.last_named_some in Hr as (_ & _ & _ & Hk & _). exact Hk.
Qed.

(** ** Keys *)

Module KeyFacts.
Import PyStr KeyShape.

Lemma lower_chars (s : string) :
  list_ascii_of_string (lower s) = map lower_ascii (list_ascii_of_string s).
Proof. induction s as [|c s IH]; simpl; [reflexivity|]. rewrite IH. reflexivity. Qed.

Lemma _key_chars (s : string) :
  _key s = string_of_list_ascii (key_chars (list_ascii_of_string s)).
Proof.
  unfold _key, key_chars, strip_char, re_sub_non_key, strip.
  rewrite !list_ascii_of_string_of_list_ascii, lower_chars.
  rewrite !list_ascii_of_string_of_list_ascii. reflexivity.
Qed.

Lemma is_space_lower (c : ascii) : is_space (lower_ascii c) = is_space c.
Proof. destruct c as [[] [] [] [] [] [] [] []]; reflexivity. Qed.

Lemma lower_lower (c : ascii) : lower_ascii (lower_ascii c) = lower_ascii c.
Proof. destruct c as [[] [] [] [] [] [] [] []]; reflexivity. Qed.

Lemma key_char_facts (c : ascii) :
  key_char_or_underscore c -> lower_ascii c = c /\ is_space c = false.
Proof.
  intros [H| ->]; [|split; reflexivity].
  destruct c as [[] [] [] [] [] [] [] []]; try discriminate H; split; reflexivity.
Qed.

Lemma lstrip_by_map (p : ascii -> bool) (f : ascii -> ascii) (l : list ascii) :
  (forall c, p (f c) = p c) ->
  lstrip_by p (map f l) = map f (lstrip_by p l).
Proof.
  intros Hp. induction l as [|c l IH]; simpl; [reflexivity|].
  rewrite Hp. destruct (p c); [exact IH|reflexivity].
Qed.

Lemma strip_by_map (p : ascii -> bool) (f : ascii -> ascii) (l : list ascii) :
  (forall c, p (f c) = p c) ->
  strip_by p (map f l) = map f (strip_by p l).
Proof.
  intros Hp. unfold strip_by.
  rewrite (lstrip_by_map p f l Hp), <- map_rev, (lstrip_by_map p f _ Hp), map_rev.
  reflexivity.
Qed.

Lemma key_chars_lower (l l' : list ascii) :
  map lower_ascii l = map lower_ascii l' -> key_chars l = key_chars l'.
Proof.
  intros H. unfold key_chars.
  rewrite <- !(strip_by_map is_space lower_ascii) by apply is_space_lower.
  rewrite H. reflexivity.
Qed.

End KeyFacts.

(** X17. Keys ignore letter case: two names that differ only in the case of
    their letters have the same key, so [class_record] and
    [background_record] return the same record for a name and for its
    lower-cased form, which is the form the engine looks classes up by. *)
Theorem key_ignores_case :
  (forall s s' : string, PyStr.lower s = PyStr.lower s' -> _key s = _key s')
  /\ (forall s : string, _key (PyStr.lower s) = _key s)
  /\ (forall (rules : Compendium) (name : string),
        class_record rules (PyStr.lower name) = class_record rules name
        /\ background_record rules (PyStr.lower name) = background_record rules name).
Proof.
  assert (forall s s' : string, PyStr.lower s = PyStr.lower s' -> _key s = _key s') as H.
  { intros s s' Heq. rewrite !KeyFacts._key_chars. f_equal.
    apply KeyFacts.key_chars_lower. rewrite <- !KeyFacts.lower_chars, Heq. reflexivity. }
  assert (forall s : string, _key (PyStr.lower s) = _key s) as Hl.
  { intros s. apply H.
    rewrite <- (string_of_list_ascii_of_string (PyStr.lower (PyStr.lower s))).
    rewrite <- (string_of_list_ascii_of_string (PyStr.lower s)) at 2.
    rewrite !KeyFacts.lower_chars, map_map. f_equal.
    apply map_ext. intros c. apply KeyFacts.lower_lower. }
  split; [exact H|]. split; [exact Hl|].
  intros rules name. unfold class_record, background_record. rewrite Hl. auto.
Qed.

Lemma key_ignores_case_witness : _key "High Elf" = _key "HIGH ELF".
Proof. apply (proj1 key_ignores_case). reflexivity. Defined.

Module KeyForm.
Import PyStr KeyShape.

Lemma lstrip_suffix p l : exists pre, l = pre ++ lstrip_by p l.
Proof.
  induction l as [|c l [pre IH]]; simpl; [exists []; reflexivity|].
  destruct (p c); [|exists []; reflexivity].
  exists (c :: pre). simpl. rewrite <- IH. reflexivity.
Qed.

Lemma lstrip_head p l c : head (lstrip_by p l) = Some c -> p c = false.
Proof.
  induction l as [|x l IH]; simpl; [discriminate|].
  destruct (p x) eqn:Hx; [exact IH|]. simpl. intros H. injection H as <-. exact Hx.
Qed.

Lemma lstrip_id p l : (forall c, head l = Some c -> p c = false) -> lstrip_by p l = l.
Proof.
  destruct l as [|c l]; simpl; [reflexivity|]. intros H.
  rewrite (H c eq_refl). reflexivity.
Qed.

Lemma rstrip_snoc p l c :
  rstrip_by p (l ++ [c]) = if p c then rstrip_by p l else l ++ [c].
Proof.
  unfold rstrip_by. rewrite rev_unit. simpl.
  destruct (p c); [reflexivity|]. simpl. rewrite rev_involutive. reflexivity.
Qed.

Lemma rstrip_prefix p l : exists suf, l = rstrip_by p l ++ suf.
Proof.
  induction l as [|c l [suf IH]] using rev_ind; [exists []; reflexivity|].
  rewrite rstrip_snoc. destruct (p c).
  - exists (suf ++ [c]). rewrite app_assoc, <- IH. reflexivity.
  - exists []. rewrite app_nil_r. reflexivity.
Qed.

Lemma rstrip_last p l c : last (rstrip_by p l) = Some c -> p c = false.
Proof.
  induction l as [|x l IH] using rev_ind; [discriminate|].
  rewrite rstrip_snoc. destruct (p x) eqn:Hx; [exact IH|].
  rewrite last_snoc. intros H. injection H as <-. exact Hx.
Qed.

Lemma rstrip_id p l : (forall c, last l = Some c -> p c = false) -> rstrip_by p l = l.
Proof.
  destruct l as [|c l _] using rev_ind; [reflexivity|]. intros H.
  rewrite rstrip_snoc, (H c (last_snoc _ _)). reflexivity.
Qed.

Lemma strip_by_split p l : strip_by p l = rstrip_by p (lstrip_by p l).
Proof. reflexivity. Qed.

Lemma nd_tail c l : no_double_underscore (c :: l) -> no_double_underscore l.
Proof. destruct l as [|c2 l]; simpl; tauto. Qed.

Lemma nd_suffix l1 l2 : no_double_underscore (l1 ++ l2) -> no_double_underscore l2.
Proof.
  induction l1 as [|c l1 IH]; [auto|]. intros H. apply IH.
  apply (nd_tail c). exact H.
Qed.

Lemma nd_prefix l1 l2 : no_double_underscore (l1 ++ l2) -> no_double_underscore l1.
Proof.
  induction l1 as [|c l1 IH]; [simpl; auto|]. intros H.
  destruct l1 as [|c2 l1]; [simpl; auto|].
  simpl in H |- *. destruct H as [H1 H2]. split; [exact H1|]. apply IH. exact H2.
Qed.

Lemma underscore_not_key : is_key_char "_"%char = false.
Proof. reflexivity. Qed.

Lemma sub_runs_chars b l : Forall key_char_or_underscore (sub_runs b l).
Proof.
  revert b; induction l as [|c l IH]; intros b; simpl; [constructor|].
  destruct (is_key_char c) eqn:Hc.
  - constructor; [left; exact Hc|apply IH].
  - destruct b; [apply IH|]. constructor; [right; reflexivity|apply IH].
Qed.

Lemma sub_runs_single b l :
  no_double_underscore (sub_runs b l)
  /\ (b = true -> head (sub_runs b l) <> Some "_"%char).
Proof.
  revert b; induction l as [|c l IH]; intros b; simpl.
  - split; [exact I|discriminate].
  - destruct (is_key_char c) eqn:Hc.
    + destruct (IH false) as [Hnd _]. split.
      * destruct (sub_runs false l) as [|c2 rest] eqn:Hr; [exact I|].
        split; [|exact Hnd]. intros ->. discriminate.
      * intros _ H. injection H as ->. discriminate.
    + destruct b.
      * apply IH.
      * destruct (IH true) as [Hnd Hhd]. split; [|discriminate].
        destruct (sub_runs true l) as [|c2 rest] eqn:Hr; [exact I|].
        split; [|exact Hnd]. intros _ ->. apply Hhd; reflexivity.
Qed.

Lemma sub_runs_fixed b l :
  Forall key_char_or_underscore l -> no_double_underscore l ->
  (b = true -> head l <> Some "_"%char) ->
  sub_runs b l = l.
Proof.
  revert b; induction l as [|c l IH]; intros b Hok Hnd Hhd; simpl; [reflexivity|].
  apply Forall_cons in Hok as [Hc Hok].
  destruct (is_key_char c) eqn:Hk.
  - f_equal. apply IH; [exact Hok|apply (nd_tail c), Hnd|discriminate].
  - destruct Hc as [Hc| ->]; [congruence|].
    destruct b; [exfalso; apply Hhd; reflexivity|].
    f_equal. apply IH; [exact Hok|apply (nd_tail "_"%char), Hnd|].
    intros _ H. destruct l as [|c2 l]; [discriminate|].
    simpl in H. injection H as ->. simpl in Hnd. destruct Hnd as [Hnd _].
    apply Hnd; reflexivity.
Qed.

Lemma eqb_underscore c : Ascii.eqb "_"%char c = false <-> c <> "_"%char.
Proof. rewrite Ascii.eqb_neq. split; intros H Heq; apply H; congruence. Qed.

(** The characters [_key] returns have the shape of a key. *)
Lemma key_chars_shaped l :
  let out := key_chars l in
  Forall key_char_or_underscore out
  /\ head out <> Some "_"%char /\ last out <> Some "_"%char
  /\ no_double_underscore out.
Proof.
  intros out. unfold key_chars in out.
  set (a := sub_runs false (map lower_ascii (strip_by is_space l))) in *.
  pose proof (sub_runs_chars false (map lower_ascii (strip_by is_space l))) as Hok.
  destruct (sub_runs_single false (map lower_ascii (strip_by is_space l))) as [Hnd _].
  fold a in Hok, Hnd.
  destruct (lstrip_suffix (Ascii.eqb "_"%char) a) as [pre Hpre].
  set (m := lstrip_by (Ascii.eqb "_"%char) a) in *.
  destruct (rstrip_prefix (Ascii.eqb "_"%char) m) as [suf Hsuf].
  change out with (rstrip_by (Ascii.eqb "_"%char) m) in *.
  set (o := rstrip_by (Ascii.eqb "_"%char) m) in *.
  assert (Forall key_char_or_underscore m) as Hokm.
  { rewrite Hpre in Hok. apply Forall_app in Hok. tauto. }
  assert (no_double_underscore m) as Hndm by (rewrite Hpre in Hnd; eapply nd_suffix, Hnd).
  split; [rewrite Hsuf in Hokm; apply Forall_app in Hokm; tauto|].
  split.
  - intros Hhd.
    assert (head m = Some "_"%char) as Hm.
    { rewrite Hsuf, head_app, Hhd. reflexivity. }
    apply lstrip_head in Hm. discriminate.
  - split.
    + intros Hl. apply rstrip_last in Hl. discriminate.
    + rewrite Hsuf in Hndm. eapply nd_prefix, Hndm.
Qed.

(** A string of that shape is its own key. *)
Lemma key_chars_fixed l :
  Forall key_char_or_underscore l ->
  head l <> Some "_"%char -> last l <> Some "_"%char -> no_double_underscore l ->
  key_chars l = l.
Proof.
  intros Hok Hhd Hlast Hnd. unfold key_chars.
  assert (forall c, c ∈ l -> lower_ascii c = c /\ is_space c = false) as Hc.
  { intros c Hin. apply KeyFacts.key_char_facts. rewrite Forall_forall in Hok. auto. }
  assert (strip_by is_space l = l) as ->.
  { rewrite strip_by_split. rewrite lstrip_id.
    - apply rstrip_id. intros c Hl. apply Hc.
      destruct l as [|x l _] using rev_ind; [discriminate|].
      rewrite last_snoc in Hl. injection Hl as <-. apply elem_of_app. right. left.
    - intros c Hh. apply Hc. destruct l; [discriminate|].
      simpl in Hh. injection Hh as <-. left. }
  assert (map lower_ascii l = l) as ->.
  { clear -Hc. induction l as [|c l IH]; simpl; [reflexivity|].
    rewrite (proj1 (Hc c ltac:(left))). f_equal. apply IH.
    intros c' Hin. apply Hc. right. exact Hin. }
  rewrite sub_runs_fixed by (auto || discriminate).
  rewrite strip_by_split, lstrip_id.
  - apply rstrip_id. intros c Hl. apply eqb_underscore. congruence.
  - intros c Hh. apply eqb_underscore. congruence.
Qed.

End KeyForm.

(** X18. Keys are canonical: the key of any name consists of lower-case
    letters, digits and single underscores, with no underscore at either
    end; every string of that shape is its own key; hence taking the key of
    a key changes nothing, and a record is found under its own key. *)
Theorem key_is_canonical :
  (forall s : string, KeyShape.key_shaped (_key s))
  /\ (forall s : string, KeyShape.key_shaped s -> _key s = s)
  /\ (forall s : string, _key (_key s) = _key s).
Proof.
  assert (forall s : string, KeyShape.key_shaped (_key s)) as Hshape.
  { intros s. unfold KeyShape.key_shaped. rewrite KeyFacts._key_chars.
    rewrite list_ascii_of_string_of_list_ascii. apply KeyForm.key_chars_shaped. }
  assert (forall s : string, KeyShape.key_shaped s -> _key s = s) as Hfixed.
  { intros s (H1 & H2 & H3 & H4). rewrite KeyFacts._key_chars.
    rewrite KeyForm.key_chars_fixed by assumption.
    apply string_of_list_ascii_of_string. }
  split; [exact Hshape|]. split; [exact Hfixed|].
  intros s. apply Hfixed, Hshape.
Qed.

Lemma key_is_canonical_witness :
  KeyShape.key_shaped "high_elf_phb" /\ _key "high_elf_phb" = "high_elf_phb".
Proof.
  assert (KeyShape.key_shaped "high_elf_phb") as H.
  { change "high_elf_phb" with (_key "High--Elf (PHB)!").
    apply (proj1 key_is_canonical). }
  split; [exact H|]. apply (proj1 (proj2 key_is_canonical)), H.
Defined.

(** * The character registry *)

Module LibraryFacts.
Import Library.

Lemma indexed_empty : indexed ∅ [].
Proof.
  split; [constructor|]. split.
  - intros id. rewrite lookup_empty. split; [intros H; inversion H|intros [? H]; discriminate].
  - intros id r. rewrite lookup_empty. discriminate.
Qed.

Lemma indexed_insert_fresh m o r :
  indexed m o -> identifier r ∉ o ->
  indexed (<[identifier r := r]> m) (o ++ [identifier r]).
Proof.
  intros (Hnd & Hdom & Hid) Hfresh. split; [|split].
  - apply NoDup_app. split; [exact Hnd|]. split; [|apply NoDup_singleton].
    intros x Hx Hx'. apply list_elem_of_singleton in Hx'. subst. contradiction.
  - intros id. rewrite elem_of_app, list_elem_of_singleton, lookup_insert_is_Some, Hdom.
    destruct (decide (identifier r = id)); intuition congruence.
  - intros id r'. destruct (decide (identifier r = id)) as [<-|Hne].
    + rewrite lookup_insert_eq. congruence.
    + rewrite lookup_insert_ne by exact Hne. apply Hid.
Qed.

Lemma indexed_update m o id r0 r :
  indexed m o -> m !! id = Some r0 -> identifier r = id ->
  indexed (<[id := r]> m) o.
Proof.
  intros (Hnd & Hdom & Hid) Hin Hr. split; [exact Hnd|]. split.
  - intros x. rewrite lookup_insert_is_Some, Hdom.
    destruct (decide (id = x)) as [<-|]; [|intuition congruence].
    split; [auto|]. intros _. rewrite Hin. eauto.
  - intros x r'. destruct (decide (id = x)) as [<-|Hne].
    + rewrite lookup_insert_eq. congruence.
    + rewrite lookup_insert_ne by exact Hne. apply Hid.
Qed.

Lemma list_remove_absent x l : x ∉ l -> list_remove x l = l.
Proof.
  induction l as [|y l IH]; simpl; [reflexivity|]. intros Hx.
  apply not_elem_of_cons in Hx as [Hne Hx].
  destruct (String.eqb_spec y x); [congruence|]. rewrite IH by exact Hx. reflexivity.
Qed.

Lemma list_remove_snoc x l : x ∉ l -> list_remove x (l ++ [x]) = l.
Proof.
  induction l as [|y l IH]; simpl; intros Hx.
  - rewrite String.eqb_refl. reflexivity.
  - apply not_elem_of_cons in Hx as [Hne Hx].
    destruct (String.eqb_spec y x); [congruence|]. rewrite IH by exact Hx. reflexivity.
Qed.

Lemma list_remove_filter x l :
  NoDup l -> list_remove x l = filter (fun y => y <> x) l.
Proof.
  induction l as [|y l IH]; simpl; [reflexivity|]. intros Hnd.
  apply NoDup_cons in Hnd as [Hy Hnd].
  destruct (String.eqb_spec y x) as [->|Hne].
  - rewrite filter_cons_False by (intros H; apply H; reflexivity).
    rewrite <- list_remove_absent at 1 by exact Hy. apply IH, Hnd.
  - rewrite filter_cons_True by exact Hne. rewrite IH by exact Hnd. reflexivity.
Qed.

Lemma indexed_delete m o id :
  indexed m o -> indexed (delete id m) (list_remove id o).
Proof.
  intros (Hnd & Hdom & Hid). rewrite list_remove_filter by exact Hnd. split; [|split].
  - apply NoDup_filter, Hnd.
  - intros x. rewrite list_elem_of_filter, Hdom.
    destruct (decide (id = x)) as [<-|Hne].
    + rewrite lookup_delete_eq. split; [intros [H _]; congruence|intros [? H]; discriminate].
    + rewrite lookup_delete_ne by exact Hne. intuition congruence.
  - intros x r. destruct (decide (id = x)) as [<-|Hne].
    + rewrite lookup_delete_eq. discriminate.
    + rewrite lookup_delete_ne by exact Hne. apply Hid.
Qed.

Lemma foldl_register m o rs :
  foldl register (m, o) rs
  = (foldl (fun m r => <[identifier r := r]> m) m rs, o ++ map identifier rs).
Proof.
  revert m o. induction rs as [|r rs IH]; intros m o; simpl.
  - rewrite app_nil_r. reflexivity.
  - unfold register at 2. simpl. rewrite IH, <- app_assoc. reflexivity.
Qed.

Lemma init_fields rs a :
  _records (init rs a) = record_map rs
  /\ _order (init rs a) = map identifier rs
  /\ _active_id (init rs a) = pick_active (record_map rs) (map identifier rs) a.
Proof.
  unfold init. rewrite foldl_register. simpl. auto.
Qed.

Lemma record_map_indexed_from m o rs :
  indexed m o -> NoDup (o ++ map identifier rs) ->
  indexed (foldl (fun m r => <[identifier r := r]> m) m rs) (o ++ map identifier rs).
Proof.
  revert m o. induction rs as [|r rs IH]; intros m o Hix Hnd; simpl.
  - rewrite app_nil_r. exact Hix.
  - simpl in Hnd. rewrite cons_middle, app_assoc in Hnd |- *.
    apply IH; [|exact Hnd]. apply indexed_insert_fresh; [exact Hix|].
    apply NoDup_app in Hnd as (Hnd & _ & _). apply NoDup_app in Hnd as (_ & Hd & _).
    intros Hin. apply (Hd _ Hin). left.
Qed.

Lemma record_map_indexed rs :
  NoDup (map identifier rs) -> indexed (record_map rs) (map identifier rs).
Proof.
  intros Hnd. apply (record_map_indexed_from ∅ []); [apply indexed_empty|exact Hnd].
Qed.

Lemma head_registered m o x : indexed m o -> head o = Some x -> is_Some (m !! x).
Proof.
  intros (_ & Hdom & _) Hh. apply Hdom. destruct o; [discriminate|].
  injection Hh as ->. left.
Qed.

Lemma head_active_ok m o :
  indexed m o ->
  match head o with Some a => is_Some (m !! a) | None => o = [] end.
Proof.
  intros Hix. destruct (head o) eqn:Hh.
  - eapply head_registered; eauto.
  - destruct o; [reflexivity|discriminate].
Qed.

Lemma pick_active_ok m o a :
  indexed m o ->
  match pick_active m o a with Some a => is_Some (m !! a) | None => o = [] end.
Proof.
  intros Hix. unfold pick_active. destruct a as [a|]; [|apply head_active_ok, Hix].
  destruct (decide (is_Some (m !! a))); [assumption|apply head_active_ok, Hix].
Qed.

Lemma init_consistent rs a : NoDup (map identifier rs) -> consistent (init rs a).
Proof.
  intros Hnd. destruct (init_fields rs a) as (Hr & Ho & Ha).
  unfold consistent. rewrite Hr, Ho, Ha.
  split; [apply record_map_indexed, Hnd|]. apply pick_active_ok, record_map_indexed, Hnd.
Qed.

Lemma fresh_not_ordered self uuid :
  consistent self -> _records self !! uuid = None -> uuid ∉ _order self.
Proof.
  intros ((_ & Hdom & _) & _) Hfresh Hin. apply Hdom in Hin as [? Hin]. congruence.
Qed.

Lemma create_consistent self uuid sheet mods data :
  consistent self -> _records self !! uuid = None ->
  consistent (create_record self uuid sheet mods data).2.
Proof.
  intros Hc Hfresh. pose proof (fresh_not_ordered _ _ Hc Hfresh) as Hno.
  destruct Hc as (Hix & Hact). split; simpl.
  - apply (indexed_insert_fresh _ _
             {| identifier := uuid; sheet := default Model.CharacterSheet_new sheet;
                modifiers := mods; data := data |}); assumption.
  - destruct (_active_id self) as [a|]; simpl.
    + destruct (PyStr.truthy a).
      * apply lookup_insert_is_Some. destruct (decide (uuid = a)); auto.
      * rewrite lookup_insert_eq. eauto.
    + rewrite lookup_insert_eq. eauto.
Qed.

Lemma update_consistent self id sheet mods data self' :
  consistent self -> update_record self id sheet mods data = Some self' ->
  consistent self'.
Proof.
  intros (Hix & Hact) Hup. unfold update_record in Hup.
  destruct (_records self !! id) as [r0|] eqn:Hr; [|discriminate].
  injection Hup as <-. split; simpl.
  - eapply indexed_update; [exact Hix|exact Hr|]. simpl.
    destruct Hix as (_ & _ & Hid). apply Hid, Hr.
  - destruct (_active_id self) as [a|]; [|exact Hact].
    apply lookup_insert_is_Some. destruct (decide (id = a)); auto.
Qed.

Lemma delete_consistent self id : consistent self -> consistent (delete_record self id).
Proof.
  intros (Hix & Hact). unfold delete_record.
  destruct (_records self !! id) as [r0|] eqn:Hr; [|split; assumption].
  pose proof (indexed_delete _ _ id Hix) as Hix'. split; simpl; [exact Hix'|].
  destruct (decide (_active_id self = Some id)) as [Heq|Hne].
  - apply head_active_ok, Hix'.
  - destruct (_active_id self) as [a|] eqn:Ha.
    + rewrite lookup_delete_ne by congruence. exact Hact.
    + rewrite Hact. reflexivity.
Qed.

Lemma set_active_consistent self id : consistent self -> consistent (set_active self id).
Proof.
  intros (Hix & Hact). split; simpl; [exact Hix|].
  destruct id as [s|]; [|apply head_active_ok, Hix].
  destruct (PyStr.truthy s); simpl; [|apply head_active_ok, Hix].
  destruct (bool_decide (is_Some (_records self !! s))) eqn:Hb.
  - apply bool_decide_eq_true in Hb. exact Hb.
  - apply head_active_ok, Hix.
Qed.

End LibraryFacts.
Module RegistryFacts.
Import Library.

Lemma record_map_snoc rs x :
  record_map (rs ++ [x]) = <[identifier x := x]> (record_map rs).
Proof. unfold record_map. rewrite foldl_app. reflexivity. Qed.

Lemma record_map_lookup rs r :
  NoDup (map identifier rs) -> r ∈ rs -> record_map rs !! identifier r = Some r.
Proof.
  induction rs as [|x rs IH] using rev_ind; intros Hnd Hin.
  - inversion Hin.
  - rewrite record_map_snoc. rewrite map_app in Hnd. simpl in Hnd.
    apply NoDup_app in Hnd as (Hnd & Hd & _).
    apply elem_of_app in Hin as [Hin|Hin].
    + rewrite lookup_insert_ne; [apply IH; assumption|].
      intros Heq. apply (Hd (identifier r)).
      * apply list_elem_of_fmap. exists r. auto.
      * rewrite Heq. left.
    + apply list_elem_of_singleton in Hin as ->. apply lookup_insert_eq.
Qed.

Lemma record_map_member rs id r :
  record_map rs !! id = Some r -> r ∈ rs /\ identifier r = id.
Proof.
  revert id r. induction rs as [|x rs IH] using rev_ind; intros id r.
  - unfold record_map. simpl. rewrite lookup_empty. discriminate.
  - rewrite record_map_snoc. destruct (decide (identifier x = id)) as [<-|Hne].
    + rewrite lookup_insert_eq. intros [= <-]. split; [|reflexivity].
      apply elem_of_app. right. left.
    + rewrite lookup_insert_ne by exact Hne. intros H. apply IH in H as [H1 H2].
      split; [apply elem_of_app; left; exact H1|exact H2].
Qed.

Lemma list_records_total self :
  consistent self ->
  exists rs, list_records self = Some rs /\ map identifier rs = _order self.
Proof.
  intros ((Hnd & Hdom & Hid) & _).
  destruct (list_records self) as [rs|] eqn:Hl.
  - exists rs. split; [reflexivity|].
    eapply (mapM_fmap_Some_inv _ identifier); [exact Hl|].
    intros x y. apply Hid.
  - exfalso. apply mapM_None in Hl. apply Exists_exists in Hl as (x & Hx & Hnone).
    apply Hdom in Hx as [? Hx]. congruence.
Qed.

Lemma size_indexed (m : gmap string CharacterRecord) o : indexed m o -> size m = length o.
Proof.
  intros (Hnd & Hdom & _). rewrite <- size_dom.
  rewrite <- (size_list_to_set (C := gset string) o Hnd). f_equal.
  apply set_eq. intros x. rewrite elem_of_dom, elem_of_list_to_set, Hdom. reflexivity.
Qed.

Lemma Forall2_impl_in {A B : Type} (P Q : A -> B -> Prop) (l : list A) (k : list B) :
  Forall2 P l k -> (forall x y, x ∈ l -> P x y -> Q x y) -> Forall2 Q l k.
Proof.
  induction 1 as [|x y l k Hxy _ IH]; intros Himp; constructor.
  - apply Himp; [left|exact Hxy].
  - apply IH. intros x' y' Hin. apply Himp. right. exact Hin.
Qed.

End RegistryFacts.

(** X19. The registry keeps itself consistent: built from records with
    distinct identifiers, its order lists each registered identifier once,
    every record is registered under its own identifier and the active
    identifier is a registered one unless the registry is empty; creating a
    record under a fresh identifier, updating, deleting, selecting the
    active record and replacing all records keep it so. *)
Theorem registry_stays_consistent :
  (forall records active_id,
      NoDup (map Library.identifier records) ->
      Library.consistent (Library.init records active_id))
  /\ (forall self,
        Library.consistent self ->
        (forall uuid sheet mods data,
            Library._records self !! uuid = None ->
            Library.consistent (Library.create_record self uuid sheet mods data).2)
        /\ (forall id sheet mods data self',
              Library.update_record self id sheet mods data = Some self' ->
              Library.consistent self')
        /\ (forall id, Library.consistent (Library.delete_record self id))
        /\ (forall id, Library.consistent (Library.set_active self id))
        /\ (forall records active_id,
              NoDup (map Library.identifier records) ->
              Library.consistent (Library.replace_all self records active_id))).
Proof.
  split; [apply LibraryFacts.init_consistent|].
  intros self Hc.
  split; [intros; apply LibraryFacts.create_consistent; assumption|].
  split; [intros; eapply LibraryFacts.update_consistent; eassumption|].
  split; [intros; apply LibraryFacts.delete_consistent; assumption|].
  split; [intros; apply LibraryFacts.set_active_consistent; assumption|].
  intros. apply LibraryFacts.init_consistent; assumption.
Qed.

(** X20. In a consistent registry [list_records] never fails: it returns
    the registered records, each once, in the order of their registration,
    as many as the index holds. *)
Theorem list_records_spec (self : Library.CharacterLibrary) :
  Library.consistent self ->
  exists rs,
    Library.list_records self = Some rs
    /\ map Library.identifier rs = Library._order self
    /\ NoDup rs
    /\ (forall r, r ∈ rs <-> exists id, Library._records self !! id = Some r)
    /\ length rs = size (Library._records self).
Proof.
  intros Hc. destruct (RegistryFacts.list_records_total self Hc) as (rs & Hl & Hids).
  pose proof Hc as ((Hnd & Hdom & Hid) & _).
  exists rs. split; [exact Hl|]. split; [exact Hids|].
  apply mapM_Some in Hl. split; [|split].
  - apply (NoDup_fmap_1 Library.identifier). unfold fmap, list_fmap.
    change (NoDup (map Library.identifier rs)). rewrite Hids. exact Hnd.
  - intros r. split.
    + intros Hin. apply list_elem_of_lookup in Hin as [i Hi].
      destruct (Forall2_lookup_r _ _ _ _ _ Hl Hi) as (id & _ & Hlook). eauto.
    + intros [id Hlook]. assert (id ∈ Library._order self) as Hin by (apply Hdom; eauto).
      apply list_elem_of_lookup in Hin as [i Hi].
      destruct (Forall2_lookup_l _ _ _ _ _ Hl Hi) as (r' & Hr' & Hlook').
      assert (r' = r) as -> by congruence.
      apply list_elem_of_lookup. eauto.
  - rewrite (RegistryFacts.size_indexed _ _ (proj1 Hc)).
    symmetry. eapply Forall2_length, Hl.
Qed.

(** X21. [ensure_active] on a consistent registry never fails and never
    changes the records or their order: it returns no record exactly when
    the registry is empty, and otherwise the record registered under the
    active identifier it leaves behind; a non-empty active identifier is
    kept, and calling it again changes nothing more. *)
Theorem ensure_active_spec (self : Library.CharacterLibrary) :
  Library.consistent self ->
  exists res self',
    Library.ensure_active self = Some (res, self')
    /\ Library._records self' = Library._records self
    /\ Library._order self' = Library._order self
    /\ Library.consistent self'
    /\ (res = None <-> Library._order self = [])
    /\ (forall r, res = Some r ->
          exists a, Library._active_id self' = Some a
                    /\ Library._records self !! a = Some r)
    /\ (Library.id_truthy (Library._active_id self) = true -> self' = self)
    /\ Library.ensure_active self' = Some (res, self').
Proof.
  intros Hc. pose proof Hc as (Hix & Hact). pose proof Hix as (Hnd & Hdom & Hid).
  assert (forall first rest,
             Library._order self = first :: rest ->
             exists r, Library._records self !! first = Some r) as Hfirst.
  { intros first rest Ho. apply Hdom. rewrite Ho. left. }
  assert (forall first rest r,
             Library._order self = first :: rest ->
             Library._records self !! first = Some r ->
             let self' := {| Library._records := Library._records self;
                             Library._order := Library._order self;
                             Library._active_id := Some first |} in
             Library.ensure_active self' = Some (Some r, self')) as Hagain.
  { intros first rest r Ho Hr self'. unfold Library.ensure_active.
    change (Library._active_id self') with (Some first).
    change (Library._records self') with (Library._records self).
    change (Library._order self') with (Library._order self).
    cbv beta iota. rewrite Hr, Ho. simpl.
    destruct (_ && _)%bool; [reflexivity|]. rewrite Hr, <- Ho. reflexivity. }
  unfold Library.ensure_active at 1.
  destruct (Library._active_id self) as [a|] eqn:Ha.
  - assert (a ∈ Library._order self) as Hin by (apply Hdom; exact Hact).
    destruct (PyStr.truthy a) eqn:Ht; simpl.
    + rewrite bool_decide_eq_true_2 by exact Hact. destruct Hact as [r Hr].
      rewrite Hr. simpl. exists (Some r), self.
      split; [reflexivity|]. split; [reflexivity|]. split; [reflexivity|].
      split; [exact Hc|]. split.
      { split; [discriminate|]. intros Ho. rewrite Ho in Hin. inversion Hin. }
      split; [intros r' [= <-]; exists a; auto|]. split; [reflexivity|].
      unfold Library.ensure_active. rewrite Ha, Ht. simpl.
      rewrite bool_decide_eq_true_2 by eauto. rewrite Hr. reflexivity.
    + destruct (Library._order self) as [|first rest] eqn:Ho; [inversion Hin|].
      destruct (Hfirst _ _ eq_refl) as [r Hr]. rewrite Hr. simpl.
      eexists (Some r), _. split; [reflexivity|]. simpl.
      split; [reflexivity|]. split; [reflexivity|]. split.
      { split; simpl; [exact Hix|eauto]. }
      split; [split; discriminate|].
      split; [intros r' [= <-]; exists first; auto|].
      split; [intros Htr; simpl in Htr; congruence|].
      apply (Hagain first rest r eq_refl Hr).
  - simpl in Hact. rewrite Hact.
    exists None, self. split; [reflexivity|]. split; [reflexivity|].
    split; [exact Hact|]. split; [exact Hc|]. split; [tauto|].
    split; [discriminate|]. split; [reflexivity|].
    unfold Library.ensure_active. rewrite Ha, Hact. reflexivity.
Qed.

(** X22. A record created under a fresh, non-empty identifier is found
    under that identifier and comes last in [list_records]; every other
    lookup answers as before; and deleting it again gives back the registry
    as it was (provided the active identifier was not the empty string). *)
Theorem create_record_spec (self : Library.CharacterLibrary) (uuid : string)
    (sheet : option Model.CharacterSheet) (mods : gmap string bool)
    (data : option Schema.CharacterData) :
  Library.consistent self ->
  Library._records self !! uuid = None -> uuid <> "" ->
  let record := (Library.create_record self uuid sheet mods data).1 in
  let self' := (Library.create_record self uuid sheet mods data).2 in
  Library.get self' (Some uuid) = Some record
  /\ Library.identifier record = uuid
  /\ (forall id, id <> Some uuid -> Library.get self' id = Library.get self id)
  /\ (exists rs, Library.list_records self = Some rs
                 /\ Library.list_records self' = Some (rs ++ [record]))
  /\ (Library._active_id self <> Some "" -> Library.delete_record self' uuid = self).
Proof.
  intros Hc Hfresh Hne record self'.
  pose proof (LibraryFacts.fresh_not_ordered _ _ Hc Hfresh) as Hno.
  split; [|split; [reflexivity|split; [|split]]].
  - unfold Library.get. rewrite (proj2 (truthy_true uuid) Hne).
    apply lookup_insert_eq.
  - intros [s|] Hs; [|reflexivity]. unfold Library.get.
    destruct (PyStr.truthy s); [|reflexivity].
    apply lookup_insert_ne. congruence.
  - destruct (RegistryFacts.list_records_total self Hc) as (rs & Hl & _).
    exists rs. split; [exact Hl|]. apply mapM_Some. apply mapM_Some in Hl.
    change (Library._order self') with (Library._order self ++ [uuid]).
    apply Forall2_app.
    + eapply RegistryFacts.Forall2_impl_in; [exact Hl|]. intros x y Hx Hxy.
      change (Library._records self') with (<[uuid := record]> (Library._records self)).
      rewrite lookup_insert_ne; [exact Hxy|]. intros ->. contradiction.
    + constructor; [|constructor]. apply lookup_insert_eq.
  - intros Hact. unfold Library.delete_record.
    change (Library._records self') with (<[uuid := record]> (Library._records self)).
    rewrite lookup_insert_eq.
    change (Library._order self') with (Library._order self ++ [uuid]).
    rewrite LibraryFacts.list_remove_snoc by exact Hno.
    rewrite delete_insert_id by exact Hfresh.
    destruct Hc as (_ & Hok). destruct self as [m o act]. simpl in *. f_equal.
    destruct act as [a|]; simpl.
    + destruct (PyStr.truthy a) eqn:Ht.
      * rewrite decide_False; [reflexivity|]. intros [= ->].
        destruct Hok as [? Hok]. congruence.
      * exfalso. apply Hact. f_equal. destruct a; [reflexivity|discriminate].
    + rewrite decide_True by reflexivity. rewrite Hok. reflexivity.
Qed.

(** X23. [delete_record] of an unregistered identifier changes nothing;
    after deleting, the identifier is no longer found while every other
    lookup answers as before; in a consistent registry the order loses
    exactly that identifier, and the active identifier changes only when
    the deleted record was the active one, in which case it moves to the
    first remaining record. *)
Theorem delete_record_spec (self : Library.CharacterLibrary) (id : string) :
  let self' := Library.delete_record self id in
  (Library._records self !! id = None -> self' = self)
  /\ Library.get self' (Some id) = None
  /\ (forall other, other <> Some id -> Library.get self' other = Library.get self other)
  /\ (Library.consistent self ->
      Library._order self' = filter (fun x => x <> id) (Library._order self)
      /\ (Library._active_id self <> Some id ->
          Library._active_id self' = Library._active_id self)
      /\ (Library._active_id self = Some id ->
          Library._active_id self' = head (filter (fun x => x <> id) (Library._order self)))).
Proof.
  intros self'. subst self'. unfold Library.delete_record.
  destruct (Library._records self !! id) as [r|] eqn:Hr.
  - split; [discriminate|]. split; [|split].
    + unfold Library.get. simpl. rewrite lookup_delete_eq. destruct (PyStr.truthy id); reflexivity.
    + intros [s|] Hs; [|reflexivity]. unfold Library.get. simpl.
      destruct (PyStr.truthy s); [|reflexivity]. apply lookup_delete_ne. congruence.
    + intros ((Hnd & _) & _). simpl.
      rewrite LibraryFacts.list_remove_filter by exact Hnd.
      split; [reflexivity|]. split.
      * intros Hne. rewrite decide_False by exact Hne. reflexivity.
      * intros Heq. rewrite decide_True by exact Heq. reflexivity.
  - split; [reflexivity|]. split; [|split].
    + unfold Library.get. rewrite Hr. destruct (PyStr.truthy id); reflexivity.
    + reflexivity.
    + intros ((Hnd & Hdom & _) & Hact).
      assert (id ∉ Library._order self) as Hno.
      { intros Hin. apply Hdom in Hin as [? Hin]. congruence. }
      rewrite <- LibraryFacts.list_remove_filter by exact Hnd.
      rewrite LibraryFacts.list_remove_absent by exact Hno.
      split; [reflexivity|]. split; [reflexivity|].
      intros Heq. rewrite Heq in Hact. destruct Hact as [? Hact]. congruence.
Qed.

(** X24. [clone] of a consistent registry never fails; the copy has the
    same order and the same active identifier, and registers under each
    identifier a record with the same identifier, sheet and modifiers but
    without the decision data, which the copy does not carry over. *)
Theorem clone_spec (self : Library.CharacterLibrary) :
  Library.consistent self ->
  exists c,
    Library.clone self = Some c
    /\ Library._order c = Library._order self
    /\ Library._active_id c = Library._active_id self
    /\ (forall id,
          Library._records c !! id
          = (fun r => {| Library.identifier := Library.identifier r;
                         Library.sheet := Library.sheet r;
                         Library.modifiers := Library.modifiers r;
                         Library.data := None |})
              <$> Library._records self !! id)
    /\ Library.consistent c.
Proof.
  intros Hc. destruct (RegistryFacts.list_records_total self Hc) as (rs & Hl & Hids).
  pose proof Hc as ((Hnd & Hdom & Hid) & Hact).
  set (strip := fun r => {| Library.identifier := Library.identifier r;
                            Library.sheet := Library.sheet r;
                            Library.modifiers := Library.modifiers r;
                            Library.data := None |}).
  assert (map Library.identifier (map strip rs) = Library._order self) as Hids'.
  { rewrite map_map. simpl. exact Hids. }
  assert (NoDup (map Library.identifier (map strip rs))) as Hnd'.
  { rewrite Hids'. exact Hnd. }
  destruct (LibraryFacts.init_fields (map strip rs) (Library._active_id self))
    as (Hrec & Hord & Hactive).
  assert (forall id,
             Library.record_map (map strip rs) !! id
             = strip <$> Library._records self !! id) as Hlook.
  { intros id. destruct (Library._records self !! id) as [r|] eqn:Hr; simpl.
    - assert (r ∈ rs) as Hin.
      { assert (id ∈ Library._order self) as Hin by (apply Hdom; eauto).
        apply list_elem_of_lookup in Hin as [i Hi].
        apply mapM_Some in Hl.
        destruct (Forall2_lookup_l _ _ _ _ _ Hl Hi) as (r' & Hr' & Hlook').
        assert (r' = r) as -> by congruence. apply list_elem_of_lookup. eauto. }
      rewrite <- (Hid _ _ Hr).
      change (Library.identifier r) with (Library.identifier (strip r)).
      apply RegistryFacts.record_map_lookup; [exact Hnd'|].
      apply list_elem_of_fmap. exists r. auto.
    - destruct (Library.record_map (map strip rs) !! id) as [r'|] eqn:Hr'; [|reflexivity].
      exfalso. apply RegistryFacts.record_map_member in Hr' as [Hin Hr'].
      assert (id ∈ Library._order self) as Hin'.
      { rewrite <- Hids', <- Hr'. apply list_elem_of_fmap. exists r'. auto. }
      apply Hdom in Hin' as [? Hin']. congruence. }
  exists (Library.init (map strip rs) (Library._active_id self)).
  split; [unfold Library.clone; rewrite Hl; reflexivity|].
  split; [rewrite Hord; exact Hids'|]. split; [|split].
  - rewrite Hactive. unfold Library.pick_active.
    destruct (Library._active_id self) as [a|].
    + rewrite decide_True; [reflexivity|]. rewrite Hlook.
      destruct Hact as [r Hr]. rewrite Hr. simpl. eauto.
    + rewrite Hids', Hact. reflexivity.
  - intros id. rewrite Hrec. apply Hlook.
  - apply LibraryFacts.init_consistent, Hnd'.
Qed.

Module ReorderFacts.
Import Library.

Lemma omap_ids rs order :
  NoDup (map identifier rs) ->
  map identifier (omap (fun uid => record_map rs !! uid) order)
  = filter (fun id => id ∈ map identifier rs) order.
Proof.
  intros Hnd. induction order as [|uid order IH]; [reflexivity|].
  simpl. destruct (record_map rs !! uid) as [r|] eqn:Hr.
  - apply RegistryFacts.record_map_member in Hr as [Hin <-].
    rewrite filter_cons_True by (apply list_elem_of_fmap; exists r; auto).
    simpl. f_equal. exact IH.
  - rewrite filter_cons_False; [exact IH|].
    intros Hin. apply list_elem_of_fmap in Hin as (r & -> & Hin).
    rewrite RegistryFacts.record_map_lookup in Hr by assumption. discriminate.
Qed.

Lemma filter_ids rs (order : list string) :
  map identifier (filter (fun r => identifier r ∉ order) rs)
  = filter (fun id => id ∉ order) (map identifier rs).
Proof.
  induction rs as [|r rs IH]; [reflexivity|]. simpl.
  destruct (decide (identifier r ∉ order)) as [Hn|Hn].
  - rewrite !filter_cons_True by exact Hn. simpl. rewrite IH. reflexivity.
  - rewrite !filter_cons_False by exact Hn. exact IH.
Qed.

Lemma reorder_ids rs order :
  NoDup (map identifier rs) ->
  map identifier (reorder rs order)
  = filter (fun id => id ∈ map identifier rs) order
    ++ filter (fun id => id ∉ order) (map identifier rs).
Proof.
  intros Hnd. destruct order as [|uid order].
  - unfold reorder. generalize (map identifier rs). intros l.
    induction l as [|x l IH]; [reflexivity|].
    rewrite filter_cons_True by (intros H; inversion H). simpl in *. f_equal. exact IH.
  - unfold reorder. rewrite map_app, omap_ids, filter_ids by exact Hnd. reflexivity.
Qed.

End ReorderFacts.

(** X25. Restoring the stored order in [load]: for records with distinct
    identifiers and an order list without repetitions, the reordered list
    is a rearrangement of the records read, none lost and none doubled; the
    records named by the order list come first, in that order, followed by
    the others in the order in which they were read; identifiers of the
    order list with no record are skipped. *)
Theorem reorder_permutation (records : list Library.CharacterRecord)
    (order : list string) :
  NoDup (map Library.identifier records) -> NoDup order ->
  Library.reorder records order ≡ₚ records
  /\ map Library.identifier (Library.reorder records order)
     = filter (fun id => id ∈ map Library.identifier records) order
       ++ filter (fun id => id ∉ order) (map Library.identifier records)
  /\ NoDup (map Library.identifier (Library.reorder records order)).
Proof.
  intros Hnd Hord.
  pose proof (ReorderFacts.reorder_ids records order Hnd) as Hids.
  assert (NoDup (map Library.identifier (Library.reorder records order))) as Hnd'.
  { rewrite Hids. apply NoDup_app. split; [apply NoDup_filter, Hord|].
    split; [|apply NoDup_filter, Hnd].
    intros x Hx Hx'. apply list_elem_of_filter in Hx as [_ Hx].
    apply list_elem_of_filter in Hx' as [Hx' _]. contradiction. }
  split; [|split; [exact Hids|exact Hnd']].
  apply NoDup_Permutation.
  - eapply (NoDup_fmap_1 Library.identifier). exact Hnd'.
  - eapply (NoDup_fmap_1 Library.identifier). exact Hnd.
  - intros r. destruct order as [|uid order]; [reflexivity|].
    unfold Library.reorder. rewrite elem_of_app, list_elem_of_omap, list_elem_of_filter.
    split.
    + intros [(u & _ & Hu)|[_ Hin]]; [|exact Hin].
      apply RegistryFacts.record_map_member in Hu. tauto.
    + intros Hin. destruct (decide (Library.identifier r ∈ uid :: order)) as [Hi|Hi].
      * left. exists (Library.identifier r). split; [exact Hi|].
        apply RegistryFacts.record_map_lookup; assumption.
      * right. auto.
Qed.

Module ShelfFacts.
Import Library LibraryExamples.

Lemma shelf_distinct : NoDup (map identifier [mira; toben]).
Proof.
  simpl. apply NoDup_cons. split; [|apply NoDup_singleton].
  intros H. apply list_elem_of_singleton in H. discriminate.
Qed.

Lemma shelf_consistent : consistent shelf.
Proof. apply LibraryFacts.init_consistent, shelf_distinct. Qed.

End ShelfFacts.

Lemma registry_stays_consistent_witness :
  Library.consistent LibraryExamples.shelf
  /\ Library.consistent (Library.delete_record LibraryExamples.shelf "c1").
Proof.
  assert (Library.consistent LibraryExamples.shelf) as H.
  { apply (proj1 registry_stays_consistent), ShelfFacts.shelf_distinct. }
  split; [exact H|]. apply (proj2 registry_stays_consistent), H.
Defined.

Lemma list_records_spec_witness :
  Library.consistent LibraryExamples.shelf
  /\ Library.list_records LibraryExamples.shelf
     = Some [LibraryExamples.mira; LibraryExamples.toben].
Proof.
  split; [exact ShelfFacts.shelf_consistent|].
  destruct (list_records_spec _ ShelfFacts.shelf_consistent) as (rs & Hl & _).
  rewrite Hl. vm_compute in Hl. injection Hl as <-. reflexivity.
Defined.

Lemma ensure_active_spec_witness :
  Library.consistent LibraryExamples.shelf
  /\ exists res self',
       Library.ensure_active LibraryExamples.shelf = Some (res, self')
       /\ Library._order self' = Library._order LibraryExamples.shelf.
Proof.
  split; [exact ShelfFacts.shelf_consistent|].
  destruct (ensure_active_spec _ ShelfFacts.shelf_consistent)
    as (res & self' & H1 & _ & H2 & _).
  exists res, self'. split; assumption.
Defined.

Lemma create_record_spec_witness :
  Library.consistent LibraryExamples.shelf
  /\ Library._records LibraryExamples.shelf !! "c3" = None
  /\ Library.delete_record
       (Library.create_record LibraryExamples.shelf "c3" None ∅ None).2 "c3"
     = LibraryExamples.shelf.
Proof.
  split; [exact ShelfFacts.shelf_consistent|]. split; [reflexivity|].
  apply (create_record_spec LibraryExamples.shelf "c3" None ∅ None
           ShelfFacts.shelf_consistent eq_refl); discriminate.
Defined.

Lemma delete_record_spec_witness :
  Library.consistent LibraryExamples.shelf
  /\ Library._order (Library.delete_record LibraryExamples.shelf "c1") = ["c2"].
Proof.
  split; [exact ShelfFacts.shelf_consistent|].
  destruct (delete_record_spec LibraryExamples.shelf "c1") as (_ & _ & _ & H).
  destruct (H ShelfFacts.shelf_consistent) as (-> & _). reflexivity.
Defined.

Lemma clone_spec_witness :
  Library.consistent LibraryExamples.shelf
  /\ exists c,
       Library.clone LibraryExamples.shelf = Some c
       /\ Library.data <$> Library._records c !! "c1" = Some None.
Proof.
  split; [exact ShelfFacts.shelf_consistent|].
  destruct (clone_spec _ ShelfFacts.shelf_consistent) as (c & Hc & _ & _ & Hlook & _).
  exists c. split; [exact Hc|]. rewrite Hlook. reflexivity.
Defined.

Lemma reorder_permutation_witness :
  NoDup (map Library.identifier [LibraryExamples.mira; LibraryExamples.toben])
  /\ NoDup ["c2"; "c9"; "c1"]
  /\ map Library.identifier
       (Library.reorder [LibraryExamples.mira; LibraryExamples.toben] ["c2"; "c9"; "c1"])
     = ["c2"; "c1"].
Proof.
  assert (NoDup ["c2"; "c9"; "c1"]) as Hord.
  { apply (bool_decide_unpack _). vm_compute. exact I. }
  split; [exact ShelfFacts.shelf_distinct|]. split; [exact Hord|].
  destruct (reorder_permutation _ _ ShelfFacts.shelf_distinct Hord) as (_ & -> & _).
  reflexivity.
Defined.


Module OverlayFacts.
Import Service.

Section Overlay.
Context {R : Type} (name_of : R -> option string).

Lemma last_named_app (key : string) (xs ys : list R) :
  last_named name_of key (xs ++ ys)
  = match last_named name_of key ys with
    | Some r => Some r
    | None => last_named name_of key xs
    end.
Proof.
  induction xs as [|x xs IH]; simpl.
  - destruct (last_named name_of key ys); reflexivity.
  - rewrite IH. destruct (last_named name_of key ys); reflexivity.
Qed.

Lemma last_named_of_index (combined : gmap string R) (keys : list string)
    (result : list R) (key : string) :
  NoDup keys ->
  Forall2 (fun k r => combined !! k = Some r /\ merge_key name_of r = Some k) keys result ->
  last_named name_of key result = if decide (key ∈ keys) then combined !! key else None.
Proof.
  intros Hnd Hall. induction Hall as [|k r keys result [Hk Hr] Hall IH]; [reflexivity|].
  apply NoDup_cons in Hnd as [Hfresh Hnd]. simpl. rewrite (IH Hnd).
  destruct (decide (key ∈ keys)) as [Hin|Hout].
  - destruct (decide (key ∈ k :: keys)) as [_|Hno]; [|exfalso; apply Hno; right; exact Hin].
    apply list_elem_of_lookup in Hin as [i Hi].
    destruct (Forall2_lookup_l _ _ _ _ _ Hall Hi) as (r' & _ & Hr' & _).
    rewrite Hr'. reflexivity.
  - rewrite Hr. destruct (decide (Some k = Some key)) as [[= ->]|Hne].
    + destruct (decide (key ∈ key :: keys)) as [_|Hno]; [|exfalso; apply Hno; left].
      symmetry. exact Hk.
    + destruct (decide (key ∈ k :: keys)) as [Hin|_]; [|reflexivity].
      apply elem_of_cons in Hin as [->|Hin]; [congruence|contradiction].
Qed.

Lemma merge_lookup (existing additions : list R) :
  exists result,
    _merge_named_records name_of existing additions = Some result
    /\ forall key, last_named name_of key result
                   = last_named name_of key (existing ++ additions).
Proof.
  unfold _merge_named_records.
  change (_ingest name_of (_ingest name_of (∅, []) existing) additions)
    with (foldl (ingest_step name_of)
            (foldl (ingest_step name_of) (∅, []) existing) additions).
  rewrite <- foldl_app.
  destruct (MergeFacts.ingest_spec name_of (existing ++ additions) ∅ [])
    as (Hlook & Hkeys & Hinv).
  { intros k. rewrite lookup_empty. split; [intros H; inversion H|intros [? ?]; discriminate]. }
  cbv zeta in *. unfold _ingest in *.
  destruct (foldl (ingest_step name_of) (∅, []) (existing ++ additions))
    as [combined keys]. simpl in *.
  assert (forall k, combined !! k = last_named name_of k (existing ++ additions)) as Hlook'.
  { intros k. rewrite Hlook, lookup_empty.
    destruct (last_named name_of k (existing ++ additions)); reflexivity. }
  assert (NoDup keys) as Hnd.
  { rewrite Hkeys. apply (MergeFacts.first_keys_fresh name_of (existing ++ additions) []).
    constructor. }
  assert (forall k, k ∈ keys ->
             exists r, combined !! k = Some r /\ merge_key name_of r = Some k) as Hall.
  { intros k Hk. apply Hinv in Hk as [r Hr]. exists r. split; [exact Hr|].
    rewrite Hlook' in Hr. apply ServiceFacts.last_named_some in Hr as (_ & _ & _ & Hk & _).
    exact Hk. }
  assert (exists result,
             Forall2 (fun k r => combined !! k = Some r /\ merge_key name_of r = Some k)
               keys result) as [result Hres].
  { clear -Hall. induction keys as [|k keys IH]; [exists []; constructor|].
    destruct (Hall k) as (r & Hr); [left|].
    destruct IH as [result Hres]; [intros k' Hk'; apply Hall; right; exact Hk'|].
    exists (r :: result). constructor; assumption. }
  exists result. split.
  - apply mapM_Some. eapply Forall2_impl; [exact Hres|]. intros k r [H _]. exact H.
  - intros key. rewrite (last_named_of_index combined keys result key Hnd Hres).
    rewrite <- Hlook'. destruct (decide (key ∈ keys)) as [Hin|Hout]; [reflexivity|].
    destruct (combined !! key) eqn:Hc; [|reflexivity].
    exfalso. apply Hout, Hinv. eauto.
Qed.

End Overlay.

End OverlayFacts.

(** X26. An overlay takes precedence: after the class lists of a base and
    an overlay payload are merged by [_merge_named_records], which never
    fails, [class_record] on the merged list answers with the overlay's
    record for a name whenever the overlay has a class with that key, and
    with the base's answer otherwise. *)
Theorem overlay_takes_precedence (base overlay : list ClassRecord)
    (backgrounds : list BackgroundRecord) (name : string) :
  exists merged,
    Service._merge_named_records (fun r => Some (cr_name r)) base overlay = Some merged
    /\ class_record (Compendium_init merged backgrounds) name
       = match class_record (Compendium_init overlay backgrounds) name with
         | Some r => Some r
         | None => class_record (Compendium_init base backgrounds) name
         end.
Proof.
  destruct (OverlayFacts.merge_lookup (fun r => Some (cr_name r)) base overlay)
    as (merged & Hm & Hlook).
  exists merged. split; [exact Hm|].
  unfold class_record, Compendium_init. simpl.
  rewrite !ServiceFacts.index_lookup, Hlook. apply OverlayFacts.last_named_app.
Qed.


(** * Decoding persisted records *)

Module CodecFacts.
Import Payload Raw.

Lemma class_round (c : Schema.ClassLevelData) :
  ClassLevelData_from_dict (asdict_class c) = Some (of_class c).
Proof. reflexivity. Qed.

Lemma classes_round (cs : list Schema.ClassLevelData) :
  mapM ClassLevelData_from_dict (map asdict_class cs) = Some (map of_class cs).
Proof.
  induction cs as [|c cs IH]; [reflexivity|].
  simpl map. rewrite mapM_Some. constructor; [apply class_round|].
  apply mapM_Some, IH.
Qed.

Lemma identity_round (i : Schema.IdentityData) :
  IdentityData_from_dict (asdict_identity i) = Some (of_identity i).
Proof. reflexivity. Qed.

Lemma identity_default :
  IdentityData_from_dict (VDict []) = Some (of_identity Schema.IdentityData_default).
Proof. reflexivity. Qed.

Lemma dict_get_filter (keep : string -> bool) (items : list (string * PyVal))
    (key : string) :
  dict_get (filter (fun kv => keep kv.1 = true) items) key
  = if keep key then dict_get items key else None.
Proof.
  induction items as [|[k v] items IH]; simpl.
  - destruct (keep key); reflexivity.
  - destruct (String.eqb_spec k key) as [->|Hne].
    + destruct (keep key) eqn:Hk.
      * rewrite filter_cons_True by exact Hk. simpl. rewrite String.eqb_refl. reflexivity.
      * rewrite filter_cons_False by (simpl; congruence). rewrite IH, ?Hk. reflexivity.
    + destruct (keep k) eqn:Hk.
      * rewrite filter_cons_True by exact Hk. simpl.
        destruct (String.eqb_spec k key); [contradiction|]. exact IH.
      * rewrite filter_cons_False by (simpl; congruence). exact IH.
Qed.

Lemma decode_only (keep : string -> bool) (uuid : string) (d : Schema.CharacterData) :
  CharacterData_from_dict (only keep (asdict d)) uuid
  = Some (of_data (defaulted keep uuid d)).
Proof.
  unfold only, asdict, CharacterData_from_dict.
  rewrite !dict_get_filter.
  set (items := [("version", _); _; _; _; _; _; _; _]).
  change (dict_get items "version") with (Some (VStr (Schema.version d))).
  change (dict_get items "id") with (Some (VStr (Schema.id d))).
  change (dict_get items "identity") with (Some (asdict_identity (Schema.identity d))).
  change (dict_get items "base_stats") with (Some (of_int_dict (Schema.base_stats d))).
  change (dict_get items "classes")
    with (Some (VList (map asdict_class (Schema.classes d)))).
  change (dict_get items "background_choices")
    with (Some (of_str_dict (Schema.background_choices d))).
  change (dict_get items "equipment") with (Some (of_equipment (Schema.equipment d))).
  change (dict_get items "notes") with (Some (of_str_dict (Schema.notes d))).
  clear items. unfold defaulted, of_data. cbn [Schema.version Schema.id Schema.identity
    Schema.base_stats Schema.classes Schema.background_choices Schema.equipment
    Schema.notes].
  assert (forall (A : Type) (b : bool) (x y : A) (f : A -> PyVal),
             default (f y) (if b then Some (f x) else None) = f (if b then x else y))
    as Hpick by (intros A b x y f; destruct b; reflexivity).
  assert (forall (b : bool) (x y : Schema.IdentityData),
             IdentityData_from_dict
               (default (VDict []) (if b then Some (asdict_identity x) else None))
             = Some (of_identity (if b then x else Schema.IdentityData_default)))
    as Hidentity by (intros b x y; destruct b; reflexivity).
  rewrite (Hidentity _ _ Schema.IdentityData_default). cbn [mbind option_bind].
  assert (forall (b : bool) (cs : list Schema.ClassLevelData),
             py_iter (default (VList []) (if b then Some (VList (map asdict_class cs)) else None))
             = Some (map asdict_class (if b then cs else [])))
    as Hiter by (intros b cs; destruct b; reflexivity).
  rewrite Hiter. cbn [mbind option_bind]. rewrite classes_round. cbn [mbind option_bind].
  change (VDict []) with (of_str_dict []).
  change (VList []) with (of_equipment []).
  change (VDict [("STR", VInt 10); ("DEX", VInt 10); ("CON", VInt 10);
                 ("INT", VInt 10); ("WIS", VInt 10); ("CHA", VInt 10)])
    with (of_int_dict (Schema.base_stats (Schema.CharacterData_default uuid))).
  rewrite !Hpick. reflexivity.
Qed.

Lemma only_all (payload : PyVal) : only (fun _ => true) payload = payload.
Proof.
  destruct payload as [| | | | |items]; try reflexivity. simpl. f_equal.
  induction items as [|kv items IH]; [reflexivity|].
  rewrite filter_cons_True by reflexivity. f_equal. exact IH.
Qed.

Lemma defaulted_all (uuid : string) (d : Schema.CharacterData) :
  defaulted (fun _ => true) uuid d = d.
Proof. destruct d. reflexivity. Qed.

Lemma defaulted_none (uuid : string) (d : Schema.CharacterData) :
  defaulted (fun _ => false) uuid d = Schema.CharacterData_default uuid.
Proof. reflexivity. Qed.

Lemma map_inj {A B : Type} (f : A -> B) (l l' : list A) :
  (forall x y, f x = f y -> x = y) -> map f l = map f l' -> l = l'.
Proof.
  intros Hf. revert l'. induction l as [|x l IH]; intros [|y l'] H; try discriminate.
  - reflexivity.
  - simpl in H. injection H as Hxy H. f_equal; [apply Hf, Hxy|apply IH, H].
Qed.

Lemma str_items_inj (l l' : list (string * string)) :
  map (fun kv => (kv.1, VStr kv.2)) l = map (fun kv => (kv.1, VStr kv.2)) l' -> l = l'.
Proof.
  apply map_inj. intros [k v] [k' v'] [= -> ->]. reflexivity.
Qed.

Lemma int_items_inj (l l' : list (string * Z)) :
  map (fun kv => (kv.1, VInt kv.2)) l = map (fun kv => (kv.1, VInt kv.2)) l' -> l = l'.
Proof.
  apply map_inj. intros [k v] [k' v'] [= -> ->]. reflexivity.
Qed.

Lemma equipment_items_inj (l l' : list (list (string * Prim))) :
  map (fun item => VDict (map (fun kv => (kv.1, of_prim kv.2)) item)) l
  = map (fun item => VDict (map (fun kv => (kv.1, of_prim kv.2)) item)) l' ->
  l = l'.
Proof.
  apply map_inj. intros item item' [= Hi]. eapply map_inj; [|exact Hi].
  intros [k v] [k' v'] [= -> Hv]. f_equal.
  destruct v, v'; simpl in Hv; congruence.
Qed.

Lemma of_class_inj (c c' : Schema.ClassLevelData) : of_class c = of_class c' -> c = c'.
Proof.
  intros H.
  pose proof (f_equal class_name H) as Hn. pose proof (f_equal level H) as Hl.
  pose proof (f_equal subclass H) as Hs. pose proof (f_equal feature_choices H) as Hf.
  clear H. destruct c as [n l s f], c' as [n' l' s' f']. unfold of_class in *.
  cbn [class_name level subclass feature_choices Schema.class_name Schema.level
       Schema.subclass Schema.feature_choices] in *.
  injection Hn as ->. injection Hl as ->.
  unfold of_str_dict in Hf. injection Hf as Hf. apply str_items_inj in Hf as ->.
  destruct s, s'; simpl in Hs; congruence.
Qed.

Lemma of_identity_inj (i i' : Schema.IdentityData) :
  of_identity i = of_identity i' -> i = i'.
Proof.
  destruct i, i'. unfold of_identity. simpl.
  intros [= -> -> -> -> -> -> -> -> ->]. reflexivity.
Qed.

Lemma of_data_inj (d d' : Schema.CharacterData) : of_data d = of_data d' -> d = d'.
Proof.
  intros H.
  pose proof (f_equal version H) as Hv. pose proof (f_equal id H) as Hid.
  pose proof (f_equal identity H) as Hi. pose proof (f_equal base_stats H) as Hb.
  pose proof (f_equal classes H) as Hc. pose proof (f_equal background_choices H) as Hbc.
  pose proof (f_equal equipment H) as He. pose proof (f_equal notes H) as Hn.
  clear H. destruct d, d'. unfold of_data in *.
  cbn [version id identity base_stats classes background_choices equipment notes
       Schema.version Schema.id Schema.identity Schema.base_stats Schema.classes
       Schema.background_choices Schema.equipment Schema.notes] in *.
  injection Hv as ->. injection Hid as ->.
  apply of_identity_inj in Hi as ->.
  unfold of_int_dict in Hb. injection Hb as Hb. apply int_items_inj in Hb as ->.
  apply (map_inj _ _ _ of_class_inj) in Hc as ->.
  unfold of_str_dict in Hbc, Hn. injection Hbc as Hbc. injection Hn as Hn.
  apply str_items_inj in Hbc as ->. apply str_items_inj in Hn as ->.
  unfold of_equipment in He. injection He as He. apply equipment_items_inj in He as ->.
  reflexivity.
Qed.

End CodecFacts.

(** X27. Saving and loading a decision record gives it back: [from_dict]
    applied to what [asdict] makes of a record never fails and returns a
    record holding the same value in every field, whatever identifier
    [uuid4] would have supplied; two records with the same image under
    [asdict] are therefore equal. *)
Theorem from_dict_inverts_asdict :
  (forall (d : Schema.CharacterData) (uuid : string),
      Raw.CharacterData_from_dict (Payload.asdict d) uuid = Some (Raw.of_data d))
  /\ (forall d d' : Schema.CharacterData, Raw.of_data d = Raw.of_data d' -> d = d')
  /\ (forall d d' : Schema.CharacterData, Payload.asdict d = Payload.asdict d' -> d = d').
Proof.
  assert (forall d uuid,
             Raw.CharacterData_from_dict (Payload.asdict d) uuid = Some (Raw.of_data d))
    as Hround.
  { intros d uuid. rewrite <- (CodecFacts.only_all (Payload.asdict d)).
    rewrite CodecFacts.decode_only, CodecFacts.defaulted_all. reflexivity. }
  split; [exact Hround|]. split; [exact CodecFacts.of_data_inj|].
  intros d d' Heq. apply CodecFacts.of_data_inj.
  pose proof (Hround d "") as H. rewrite Heq, Hround in H. congruence.
Qed.

(** X28. A payload with keys missing still loads: when any of the eight
    top-level keys are taken out of a saved record, [from_dict] returns the
    record with exactly those fields at the defaults [CharacterData()] gives
    them (the identifier being the fresh one), so the empty payload loads as
    [CharacterData()]; and [from_dict] reads no other key: two payloads that
    agree on the eight keys load alike. *)
Theorem from_dict_fills_defaults :
  (forall (keep : string -> bool) (uuid : string) (d : Schema.CharacterData),
      Raw.CharacterData_from_dict (Payload.only keep (Payload.asdict d)) uuid
      = Some (Raw.of_data (Raw.defaulted keep uuid d)))
  /\ (forall uuid : string,
        Raw.CharacterData_from_dict (VDict []) uuid
        = Some (Raw.of_data (Schema.CharacterData_default uuid)))
  /\ (forall (items items' : list (string * PyVal)) (uuid : string),
        (forall key,
            key ∈ ["version"; "id"; "identity"; "base_stats"; "classes";
                   "background_choices"; "equipment"; "notes"] ->
            Payload.dict_get items key = Payload.dict_get items' key) ->
        Raw.CharacterData_from_dict (VDict items) uuid
        = Raw.CharacterData_from_dict (VDict items') uuid).
Proof.
  split; [exact CodecFacts.decode_only|]. split; [reflexivity|].
  intros items items' uuid Hsame. unfold Raw.CharacterData_from_dict.
  rewrite !Hsame by (apply (bool_decide_unpack _); reflexivity). reflexivity.
Qed.

Lemma from_dict_fills_defaults_witness :
  Raw.CharacterData_from_dict
    (VDict [("id", VStr "c7"); ("colour", VStr "green")]) "u1"
  = Raw.CharacterData_from_dict (VDict [("id", VStr "c7")]) "u1".
Proof.
  apply (proj2 (proj2 from_dict_fills_defaults)).
  intros key Hkey.
  repeat (apply elem_of_cons in Hkey as [->|Hkey]; [reflexivity|]).
  inversion Hkey.
Defined.

Lemma from_dict_inverts_asdict_witness :
  Payload.asdict Examples.blank = Payload.asdict (Schema.CharacterData_default "c0")
  /\ Examples.blank = Schema.CharacterData_default "c0".
Proof.
  split; [reflexivity|].
  apply (proj2 (proj2 from_dict_inverts_asdict)). reflexivity.
Defined.
